(** * The table maintenance tool of [src/lib/db/schema/computers.ts]

    A shallow embedding of the interactive clean-up script (lines 39-611 of
    the file) and the properties of its selection, prompting, statistics,
    deletion and failure paths.

    Conventions of the embedding:
    - a JavaScript string is a [string] holding its UTF-8 bytes;
    - an asynchronous function is a computation in the monad [M]: it reads
      and changes a [World] (the database, the pending user input, the
      process globals), leaves a [trace] of what it printed, asked and
      sent to the database, and ends by returning, by throwing, or by
      [process.exit];
    - the database is the table of the tables with their row counts and
      the enforcement setting of the connection; a call through [db] can
      fail on the connection or in the database (a missing table);
    - the ANSI colour wrappers [c.*], the spinner animation, the number
      formatting of [toLocaleString] and the wall-clock duration only
      affect rendering and are left out;
    - signals are not interleaved with the main flow: the exit handler
      is a function that is run from a given state of the globals. *)

From Stdlib Require Import ZArith Ascii String List Lia.
From Stdlib Require Import DecimalString DecimalNat DecimalFacts.
From stdpp Require Import gmap strings list fin_maps sorting.

Local Open Scope Z_scope.
Local Open Scope nat_scope.

(** ** JavaScript string primitives used by the script *)

Module JS.

(** A string given by its byte values. *)
Definition bytes (l : list nat) : string :=
  string_of_list_ascii (map ascii_of_nat l).

(** ECMAScript [WhiteSpace] and [LineTerminator] code points, as UTF-8:
    TAB, LF, VT, FF, CR, SP, U+00A0, U+1680, U+2000..U+200A, U+2028,
    U+2029, U+202F, U+205F, U+3000, U+FEFF. *)
Definition white_space : list string :=
  map bytes
    [ [9]; [10]; [11]; [12]; [13]; [32]; [194; 160]; [225; 154; 128];
      [226; 128; 128]; [226; 128; 129]; [226; 128; 130]; [226; 128; 131];
      [226; 128; 132]; [226; 128; 133]; [226; 128; 134]; [226; 128; 135];
      [226; 128; 136]; [226; 128; 137]; [226; 128; 138]; [226; 128; 168];
      [226; 128; 169]; [226; 128; 175]; [226; 129; 159]; [227; 128; 128];
      [239; 187; 191] ].

(** [strip_prefix p s] is the rest of [s] after its prefix [p]. *)
Fixpoint strip_prefix (p s : string) : option string :=
  match p, s with
  | EmptyString, _ => Some s
  | String a p', String b s' =>
      if Ascii.eqb a b then strip_prefix p' s' else None
  | String _ _, EmptyString => None
  end.

Fixpoint strip_any (pats : list string) (s : string) : option string :=
  match pats with
  | [] => None
  | p :: pats' =>
      match strip_prefix p s with
      | Some r => Some r
      | None => strip_any pats' s
      end
  end.

Fixpoint strip_all (fuel : nat) (pats : list string) (s : string) : string :=
  match fuel with
  | O => s
  | S fuel' =>
      match strip_any pats s with
      | Some r => strip_all fuel' pats r
      | None => s
      end
  end.

(** [String.prototype.trimStart], [trimEnd] and [trim]. *)
Definition trimStart (s : string) : string :=
  strip_all (String.length s) white_space s.

Definition trimEnd (s : string) : string :=
  String.rev
    (strip_all (String.length s) (map String.rev white_space) (String.rev s)).

Definition trim (s : string) : string := trimEnd (trimStart s).

(** [s.split(',')]: the pieces between commas, empty pieces included. *)
Fixpoint split_comma (s : string) : list string :=
  match s with
  | EmptyString => [EmptyString]
  | String ch rest =>
      if Ascii.eqb ch "," then EmptyString :: split_comma rest
      else match split_comma rest with
           | piece :: pieces => String ch piece :: pieces
           | [] => [String ch EmptyString]
           end
  end.

(** [Boolean(s)] of a string: true unless it is empty. *)
Definition truthy (s : string) : bool :=
  match s with EmptyString => false | String _ _ => true end.

(** [arr.includes(t)] on an array of strings. *)
Definition includes (arr : list string) (t : string) : bool :=
  existsb (String.eqb t) arr.

(** [toLowerCase] on the letters A to Z. Characters outside ASCII are
    left as they are: none of them lower-cases to a string made of the
    letters y, e and s, which is all [promptYesNo] compares with. *)
Definition lower_ascii (ch : ascii) : ascii :=
  let n := nat_of_ascii ch in
  if (65 <=? n) && (n <=? 90) then ascii_of_nat (n + 32) else ch.

Fixpoint toLowerCase (s : string) : string :=
  match s with
  | EmptyString => EmptyString
  | String ch rest => String (lower_ascii ch) (toLowerCase rest)
  end.

(** The value of a decimal digit. *)
Definition digit (ch : ascii) : option Z :=
  let n := nat_of_ascii ch in
  if (48 <=? n) && (n <=? 57) then Some (Z.of_nat (n - 48)) else None.

(** The longest prefix of decimal digits, accumulated from [acc];
    [seen] tells whether a digit was read. *)
Fixpoint digits (s : string) (seen : bool) (acc : Z) : option Z :=
  match s with
  | EmptyString => if seen then Some acc else None
  | String ch rest =>
      match digit ch with
      | Some d => digits rest true (10 * acc + d)
      | None => if seen then Some acc else None
      end
  end.

(** [parseInt(s, 10)]: leading white space is skipped, one sign is
    read, then the longest run of digits; [None] is NaN. The result is
    the exact integer: the script only compares it with 1 and with an
    array length, where the rounding of large values to a double does
    not change the answer. *)
Definition parseInt (s : string) : option Z :=
  match trimStart s with
  | String "-" rest => option_map Z.opp (digits rest false 0)
  | String "+" rest => digits rest false 0
  | t => digits t false 0
  end.

(** [n.toString()] of a non-negative integer. *)
Definition toString (n : nat) : string :=
  NilEmpty.string_of_uint (Nat.to_uint n).

End JS.

(** ** Data model (lines 63-78) *)

Record TableStats := { name : string; rowCount : nat }.

(** [CleanupStats] without its [duration] field. *)
Record CleanupStats := { tablesProcessed : nat; totalRowsDeleted : nat }.

Inductive Operation := Delete | Drop.

(** The parsed command line, [values] of lines 84-95. *)
Record Values := {
  confirm : bool;
  tables : option string;
  dry_run : bool;
  drop : bool;
  interactive : bool
}.

(** ** The database behind [db] *)

(** The statements the script sends, in the order they appear in the file. *)
Inductive statement :=
| SelectTables                 (* lines 184-190: user tables, ORDER BY name *)
| SelectCount (t : string)     (* SELECT COUNT( * ) as count FROM "t" *)
| SelectSequence               (* lines 215-218: is there a sqlite_sequence *)
| DeleteFrom (t : string)      (* DELETE FROM "t" *)
| DropTable (t : string)       (* DROP TABLE IF EXISTS "t" *)
| DeleteSequence               (* DELETE FROM sqlite_sequence *)
| ForeignKeys (on : bool).     (* PRAGMA foreign_keys = ON / OFF *)

(** A result row: [{ name }] or [{ count }]. *)
Inductive row := RName (n : string) | RCount (c : nat).

Module Sqlite.

(** [master] is sqlite_master restricted to tables, each with its number
    of rows; [foreign_keys] is the connection's enforcement setting.

    The model is of a database of ordinary tables, and is exact within
    these bounds only:
    - a statement reaches the table stored under the name it gives;
      SQLite also accepts a name that differs from the stored one in
      the case of its letters, which the model takes for another name;
    - tables are independent of each other: a DELETE or a DROP changes
      the named table only, as it does in SQLite when no trigger is
      defined and enforcement of foreign keys is off;
    - the rows that SQLite keeps about a table in its own tables
      (sqlite_sequence, the sqlite_stat tables) are not removed from the
      counts of those tables when the table is dropped.
    The theorems whose conclusion depends on one of these bounds carry
    it as a hypothesis (names spelled as stored, enforcement off) or
    leave SQLite's own tables out of their conclusion. *)
Record Database := {
  master : gmap string nat;
  foreign_keys : bool
}.

(** The statements that name a table splice the name between double
    quotes (lines 200, 286, 290 and 303). The text is the quoted name as
    long as the name holds no double quote (character 34). A double
    quote in the name ends the quoted name early: SQLite then refuses
    what is left of the statement or, when the quotes of the name pair
    up, reads the name of another table. The model lets every
    statement with such a name fail, and the theorems about statements
    that reach their table assume names without a double quote. *)
Definition quotable (t : string) : bool :=
  forallb (fun ch => negb (Ascii.eqb ch (ascii_of_nat 34)))
    (list_ascii_of_string t).

(** The error of a statement that SQLite refuses to parse; the wording
    of SQLite's message depends on what follows the double quote. *)
Definition not_parsed (t : string) : string :=
  "SQL error in the statement that names " +:+ t.

(** [name LIKE 'sqlite_%']: the letters of sqlite in any case, then at
    least one more character. *)
Definition like_sqlite (n : string) : bool :=
  match JS.strip_prefix "sqlite" (JS.toLowerCase n) with
  | Some rest => JS.truthy rest
  | None => false
  end.

(** The bytes 10xxxxxx that continue a UTF-8 character. *)
Fixpoint skip_continuation (s : string) : string :=
  match s with
  | String ch rest =>
      let b := nat_of_ascii ch in
      if (128 <=? b) && (b <? 192) then skip_continuation rest else s
  | EmptyString => s
  end.

(** The string after its first character. *)
Definition skip_char (s : string) : option string :=
  match s with
  | String _ rest => Some (skip_continuation rest)
  | EmptyString => None
  end.

(** [name LIKE '__drizzle%']: any two characters, then drizzle in any
    case. *)
Definition like_drizzle (n : string) : bool :=
  match skip_char n with
  | Some n1 =>
      match skip_char n1 with
      | Some n2 =>
          match JS.strip_prefix "drizzle" (JS.toLowerCase n2) with
          | Some _ => true
          | None => false
          end
      | None => false
      end
  | None => false
  end.

Definition user_table (n : string) : bool :=
  negb (like_sqlite n) && negb (like_drizzle n).

(** The rows of the discovery query, in byte order of the names. *)
Definition user_tables (d : Database) : list string :=
  merge_sort String.le (List.filter user_table (elements (dom (master d)))).

Definition no_such_table (t : string) : string := "no such table: " +:+ t.

(** What a statement returns and does once it reaches the database. *)
Definition execute (q : statement) (d : Database)
  : string + (list row * Database) :=
  match q with
  | SelectTables => inr (map RName (user_tables d), d)
  | SelectCount t =>
      if quotable t then
        match master d !! t with
        | Some n => inr ([RCount n], d)
        | None => inl (no_such_table t)
        end
      else inl (not_parsed t)
  | SelectSequence =>
      match master d !! "sqlite_sequence" with
      | Some _ => inr ([RName "sqlite_sequence"], d)
      | None => inr ([], d)
      end
  | DeleteFrom t =>
      if quotable t then
        match master d !! t with
        | Some _ =>
            inr ([], {| master := <[t := 0]> (master d);
                        foreign_keys := foreign_keys d |})
        | None => inl (no_such_table t)
        end
      else inl (not_parsed t)
  | DropTable t =>
      if quotable t then
        inr ([], {| master := delete t (master d);
                    foreign_keys := foreign_keys d |})
      else inl (not_parsed t)
  | DeleteSequence =>
      match master d !! "sqlite_sequence" with
      | Some _ =>
          inr ([], {| master := <["sqlite_sequence" := 0]> (master d);
                      foreign_keys := foreign_keys d |})
      | None => inl (no_such_table "sqlite_sequence")
      end
  | ForeignKeys on => inr ([], {| master := master d; foreign_keys := on |})
  end.

End Sqlite.
Export Sqlite.

(** ** The process and what it leaves behind *)

(** A console line. Lines with a fixed wording carry their text, the colour
    codes left out; lines that embed a number formatted by
    [toLocaleString], a joined list or the duration carry the data. *)
Inductive output :=
| Text (s : string)
| TablesNotFound (notFound : list string)   (* line 241, names joined by ', ' *)
| TableLine (t : string) (rows : option nat)          (* line 340 *)
| RowsToDelete (n : nat)                              (* line 348 *)
| RowsDeleted (t : string) (n : nat)                  (* line 294 *)
| TotalRowsDeleted (n : nat)                          (* line 381 *)
| Duration.                                           (* line 386 *)

Inductive event :=
| Log (line : output)                                 (* console.log *)
| Prompt (text : string) (response : option string)   (* prompt() *)
| Sql (q : statement) (error : option string).        (* db.all, db.run *)

(** [faults] is what the connection does to the coming calls: [Some msg]
    makes the next call throw [msg] before it reaches the database.
    [stdin] holds the coming answers to [prompt], [None] for null.
    [isCleaningUp] and [cleanupPromise] are the globals of lines 540-541
    (the promise as pending or null); [foreignKeysDisabled] is the local
    of line 482, kept here for the catch block to read. *)
Record World := {
  db : Database;
  faults : list (option string);
  stdin : list (option string);
  isCleaningUp : bool;
  cleanupPromise : bool;
  foreignKeysDisabled : bool
}.

Definition with_db (d : Database) (w : World) : World :=
  {| db := d; faults := faults w; stdin := stdin w;
     isCleaningUp := isCleaningUp w; cleanupPromise := cleanupPromise w;
     foreignKeysDisabled := foreignKeysDisabled w |}.

Definition with_faults (f : list (option string)) (w : World) : World :=
  {| db := db w; faults := f; stdin := stdin w;
     isCleaningUp := isCleaningUp w; cleanupPromise := cleanupPromise w;
     foreignKeysDisabled := foreignKeysDisabled w |}.

Definition with_stdin (i : list (option string)) (w : World) : World :=
  {| db := db w; faults := faults w; stdin := i;
     isCleaningUp := isCleaningUp w; cleanupPromise := cleanupPromise w;
     foreignKeysDisabled := foreignKeysDisabled w |}.

Definition with_isCleaningUp (b : bool) (w : World) : World :=
  {| db := db w; faults := faults w; stdin := stdin w;
     isCleaningUp := b; cleanupPromise := cleanupPromise w;
     foreignKeysDisabled := foreignKeysDisabled w |}.

Definition with_cleanupPromise (b : bool) (w : World) : World :=
  {| db := db w; faults := faults w; stdin := stdin w;
     isCleaningUp := isCleaningUp w; cleanupPromise := b;
     foreignKeysDisabled := foreignKeysDisabled w |}.

Definition with_foreignKeysDisabled (b : bool) (w : World) : World :=
  {| db := db w; faults := faults w; stdin := stdin w;
     isCleaningUp := isCleaningUp w; cleanupPromise := cleanupPromise w;
     foreignKeysDisabled := b |}.

(** How a computation ends: a value, a thrown error (its message), or
    [process.exit] with a status. *)
Inductive Outcome (A : Type) :=
| Ret (a : A)
| Throw (message : string)
| Exit (status : nat).
Arguments Ret {A} a.
Arguments Throw {A} message.
Arguments Exit {A} status.

Record Result (A : Type) := {
  outcome : Outcome A;
  final : World;
  trace : list event
}.
Arguments outcome {A} r.
Arguments final {A} r.
Arguments trace {A} r.

Definition M (A : Type) : Type := World -> Result A.

#[export] Instance M_ret : MRet M := fun A a w =>
  {| outcome := Ret a; final := w; trace := [] |}.

#[export] Instance M_bind : MBind M := fun A B f m w =>
  let r := m w in
  match outcome r with
  | Ret a =>
      let r' := f a (final r) in
      {| outcome := outcome r'; final := final r';
         trace := trace r ++ trace r' |}
  | Throw e => {| outcome := Throw e; final := final r; trace := trace r |}
  | Exit n => {| outcome := Exit n; final := final r; trace := trace r |}
  end.

Definition throw {A} (e : string) : M A := fun w =>
  {| outcome := Throw e; final := w; trace := [] |}.

(** [process.exit(status)]: nothing after it runs. *)
Definition process_exit {A} (status : nat) : M A := fun w =>
  {| outcome := Exit status; final := w; trace := [] |}.

(** [try { body } catch (error) { handler }]. *)
Definition try_catch {A} (body : M A) (handler : string -> M A) : M A :=
  fun w =>
    let r := body w in
    match outcome r with
    | Throw e =>
        let r' := handler e (final r) in
        {| outcome := outcome r'; final := final r';
           trace := trace r ++ trace r' |}
    | _ => r
    end.

Definition when_ (b : bool) (m : M unit) : M unit :=
  if b then m else mret tt.

Definition update (f : World -> World) : M unit := fun w =>
  {| outcome := Ret tt; final := f w; trace := [] |}.

Definition read {A} (f : World -> A) : M A := fun w =>
  {| outcome := Ret (f w); final := w; trace := [] |}.

Definition console_log (o : output) : M unit := fun w =>
  {| outcome := Ret tt; final := w; trace := [Log o] |}.

Definition prompt (text : string) : M (option string) := fun w =>
  match stdin w with
  | r :: rest =>
      {| outcome := Ret r; final := with_stdin rest w;
         trace := [Prompt text r] |}
  | [] => {| outcome := Ret None; final := w; trace := [Prompt text None] |}
  end.

(** A call through [db]: the connection may fail it, else the database
    executes it. A failed call changes nothing in the database. *)
Definition db_all (q : statement) : M (list row) := fun w =>
  let w1 := with_faults (tail (faults w)) w in
  match head (faults w) with
  | Some (Some msg) =>
      {| outcome := Throw msg; final := w1; trace := [Sql q (Some msg)] |}
  | _ =>
      match execute q (db w) with
      | inl msg =>
          {| outcome := Throw msg; final := w1; trace := [Sql q (Some msg)] |}
      | inr (rows, d) =>
          {| outcome := Ret rows; final := with_db d w1;
             trace := [Sql q None] |}
      end
  end.

Definition db_run (q : statement) : M unit := _ ← db_all q; mret tt.

(** ** Formatting helpers (lines 140-177) *)

Definition nl : string := String (ascii_of_nat 10) "".

Fixpoint repeat_string (s : string) (n : nat) : string :=
  match n with O => "" | S n' => s +:+ repeat_string s n' end.

Definition hr : M unit := console_log (Text (repeat_string "─" 60)).

Definition section (title : string) : M unit :=
  console_log (Text (nl +:+ title));; hr.

(** [spinner(promise, message)] hands the promise's result or error on. *)
Definition spinner {A} (promise : M A) (message : string) : M A := promise.

(** ** Database functions (lines 183-220) *)

(** [t.name] of a row; the rows of a count have no name. *)
Definition row_name (r : row) : string :=
  match r with RName n => n | RCount _ => "" end.

(** [result[0]?.count ?? 0]. *)
Definition first_count (result : list row) : nat :=
  match result with
  | RCount c :: _ => c
  | _ => 0
  end.

Definition getAllTables : M (list string) :=
  rows ← db_all SelectTables; mret (map row_name rows).

(** The body of the loop of lines 197-209: [stats] after the push. *)
Definition count_into (stats : list TableStats) (tableName : string)
  : M (list TableStats) :=
  try_catch
    (result ← db_all (SelectCount tableName);
     mret (stats ++ [{| name := tableName; rowCount := first_count result |}]))
    (fun _error => mret (stats ++ [{| name := tableName; rowCount := 0 |}])).

Fixpoint getTableStats_from (stats : list TableStats) (tables : list string)
  : M (list TableStats) :=
  match tables with
  | [] => mret stats
  | tableName :: rest =>
      stats' ← count_into stats tableName;
      getTableStats_from stats' rest
  end.

Definition getTableStats (tables : list string) : M (list TableStats) :=
  getTableStats_from [] tables.

Definition hasSequenceTable : M bool :=
  result ← db_all SelectSequence; mret (0 <? length result).

(** ** CLI interaction (lines 226-275) *)

(** The names asked for: split at commas, trimmed, empty ones dropped. *)
Definition requested_names (requestedTables : string) : list string :=
  List.filter JS.truthy (map JS.trim (JS.split_comma requestedTables)).

Definition filterTables (allTables : list string)
  (requestedTables : option string) : M (list string) :=
  match requestedTables with
  | None | Some EmptyString => mret allTables
  | Some s =>
      let requested := requested_names s in
      let filtered := List.filter (JS.includes allTables) requested in
      let notFound :=
        List.filter (fun t => negb (JS.includes allTables t)) requested in
      when_ (0 <? length notFound) (console_log (TablesNotFound notFound));;
      mret filtered
  end.

Definition yes_no_text (question : string) (defaultYes : bool) : string :=
  "? " +:+ question +:+ " " +:+ (if defaultYes then "[Y/n]" else "[y/N]") +:+ ": ".

Definition promptYesNo (question : string) (defaultYes : bool) : M bool :=
  response ← prompt (yes_no_text question defaultYes);
  match response with
  | None | Some EmptyString => mret defaultYes
  | Some r =>
      mret (String.eqb (JS.toLowerCase r) "y"
            || String.eqb (JS.toLowerCase r) "yes")
  end.

Fixpoint print_choices (index : nat) (choices : list string) : M unit :=
  match choices with
  | [] => mret tt
  | choice :: rest =>
      console_log (Text ("  " +:+ JS.toString (index + 1) +:+ ") " +:+ choice));;
      print_choices (index + 1) rest
  end.

Definition choice_text (choices : list string) : string :=
  nl +:+ "Enter your choice (1-" +:+ JS.toString (length choices) +:+ "): ".

(** [response || '0']. *)
Definition or_zero (response : option string) : string :=
  match response with
  | None | Some EmptyString => "0"
  | Some r => r
  end.

Definition promptChoice (question : string) (choices : list string) : M Z :=
  console_log (Text (nl +:+ "? " +:+ question +:+ nl));;
  print_choices 0 choices;;
  response ← prompt (choice_text choices);
  match JS.parseInt (or_zero response) with
  | Some choice =>
      if ((1 <=? choice) && (choice <=? Z.of_nat (length choices)))%Z
      then mret (choice - 1)%Z
      else mret (-1)%Z
  | None => mret (-1)%Z
  end.

(** ** Operations (lines 281-317) *)

(** The body of the loop of lines 284-296: [totalRows] after the
    addition. *)
Definition delete_one (totalRows : nat) (tableName : string) : M nat :=
  before ← db_all (SelectCount tableName);
  let rowCount := first_count before in
  db_run (DeleteFrom tableName);;
  let totalRows := totalRows + rowCount in
  console_log (RowsDeleted tableName rowCount);;
  mret totalRows.

Fixpoint deleteTables_from (totalRows : nat) (tables : list string) : M nat :=
  match tables with
  | [] => mret totalRows
  | tableName :: rest =>
      totalRows' ← delete_one totalRows tableName;
      deleteTables_from totalRows' rest
  end.

Definition deleteTables (tables : list string) : M nat :=
  deleteTables_from 0 tables.

Fixpoint dropTables (tables : list string) : M unit :=
  match tables with
  | [] => mret tt
  | tableName :: rest =>
      db_run (DropTable tableName);;
      console_log (Text ("✓ " +:+ tableName +:+ " (dropped)"));;
      dropTables rest
  end.

Definition resetSequences : M unit :=
  has ← hasSequenceTable;
  when_ has
    (db_run DeleteSequence;;
     console_log (Text "✓ Reset autoincrement sequences")).

(** ** Display (lines 323-389) *)

Definition displayBanner : M unit :=
  console_log (Text "");;
  console_log (Text "🗑️  Database Cleanup Utility");;
  console_log (Text "   Clean or drop database tables with safety");;
  console_log (Text "").

Fixpoint print_stats (stats : list TableStats) (operation : Operation)
  : M unit :=
  match stats with
  | [] => mret tt
  | stat :: rest =>
      console_log
        (TableLine (name stat)
           (match operation with
            | Delete => Some (rowCount stat)
            | Drop => None
            end));;
      print_stats rest operation
  end.

Definition plural (n : nat) : string :=
  if Nat.eqb n 1 then "" else "s".

Definition displayTableStats (stats : list TableStats) (operation : Operation)
  : M unit :=
  let totalRows := foldl (fun sum s => sum + rowCount s) 0 stats in
  section ("📋 Tables to " +:+
           match operation with Drop => "drop" | Delete => "clean" end);;
  print_stats stats operation;;
  console_log (Text "");;
  console_log
    (Text ("Total: " +:+ JS.toString (length stats) +:+ " table" +:+
           plural (length stats)));;
  when_ (match operation with Delete => 0 <? totalRows | Drop => false end)
    (console_log (RowsToDelete totalRows)).

(** The two lines of the warning, by operation (lines 354-368). *)
Definition warning_lines (operation : Operation) : list string :=
  match operation with
  | Drop =>
      [ "⚠ WARNING: This will DROP tables entirely (schema and data)!";
        "⚠ This action is IRREVERSIBLE!" ]
  | Delete =>
      [ "⚠ This will DELETE ALL DATA from the selected tables!";
        "⚠ This action cannot be undone!" ]
  end.

Fixpoint print_lines (lines : list string) : M unit :=
  match lines with
  | [] => mret tt
  | l :: rest => console_log (Text l);; print_lines rest
  end.

Definition displayWarning (operation : Operation) : M unit :=
  console_log (Text "");;
  print_lines (warning_lines operation);;
  console_log (Text "").

Definition displayResults (stats : CleanupStats) (operation : Operation)
  : M unit :=
  section "✅ Cleanup Complete";;
  console_log
    (Text ("  • Tables " +:+
           match operation with Drop => "dropped" | Delete => "cleaned" end
           +:+ ": " +:+ JS.toString (tablesProcessed stats)));;
  when_ (match operation with Delete => true | Drop => false end)
    (console_log (TotalRowsDeleted (totalRowsDeleted stats)));;
  console_log Duration;;
  console_log (Text "").

(** ** The main function (lines 395-534) *)

(** [values.tables] as a condition: set and not empty. *)
Definition given (s : option string) : bool :=
  match s with
  | None | Some EmptyString => false
  | Some _ => true
  end.

Definition operation_of (values : Values) : Operation :=
  if drop values then Drop else Delete.

Definition menu (operation : Operation) (allTables : list string)
  : list string :=
  [ match operation with Drop => "Drop" | Delete => "Clean" end +:+
      " all tables (" +:+ JS.toString (length allTables) +:+ " tables)";
    "Select specific tables";
    "Cancel" ].

(** Lines 415-441: which tables to process. *)
Definition selectTables (values : Values) (operation : Operation)
  (allTables : list string) : M (list string) :=
  if given (tables values) then filterTables allTables (tables values)
  else if interactive values && negb (confirm values) then
    choice ← promptChoice "What would you like to do?" (menu operation allTables);
    when_ (Z.eqb choice (-1) || Z.eqb choice 2)
      (console_log (Text (nl +:+ "Cancelled."));; process_exit 0);;
    when_ (Z.eqb choice 1)
      (console_log
         (Text (nl +:+
                "Feature not yet implemented. Use --tables=t1,t2 for now."));;
       process_exit 0);;
    mret allTables
  else mret allTables.

Definition confirm_question (operation : Operation) : string :=
  "Are you absolutely sure you want to " +:+
  match operation with Drop => "drop" | Delete => "delete data from" end +:+
  " these tables?".

(** Lines 463-476: the confirmation gate. *)
Definition confirmOperation (values : Values) (operation : Operation)
  : M unit :=
  when_ (negb (confirm values))
    (displayWarning operation;;
     confirmed ← promptYesNo (confirm_question operation) false;
     when_ (negb confirmed)
       (console_log (Text (nl +:+ "Cancelled."));; process_exit 0)).

(** Lines 478-533: the destructive phase, its try block and its catch
    block; [operate] is the branch of lines 489-494 and returns
    [totalRowsDeleted]. *)
Definition operate (operation : Operation) (tablesToProcess : list string)
  : M nat :=
  match operation with
  | Drop => dropTables tablesToProcess;; mret 0
  | Delete =>
      total ← deleteTables tablesToProcess;
      resetSequences;;
      mret total
  end.

Definition destructive_body (operation : Operation)
  (tablesToProcess : list string) : M unit :=
  db_run (ForeignKeys false);;
  update (with_foreignKeysDisabled true);;
  totalRowsDeleted ← operate operation tablesToProcess;
  db_run (ForeignKeys true);;
  update (with_foreignKeysDisabled false);;
  displayResults
    {| tablesProcessed := length tablesToProcess;
       totalRowsDeleted := totalRowsDeleted |}
    operation.

Definition destructive_handler (error : string) : M unit :=
  console_log (Text "");;
  console_log (Text "✗ Error during cleanup:");;
  console_log (Text ("  " +:+ error));;
  disabled ← read foreignKeysDisabled;
  when_ disabled
    (try_catch
       (db_run (ForeignKeys true);;
        console_log (Text "✓ Database state restored"))
       (fun fkError =>
          console_log (Text "✗ Failed to re-enable foreign keys");;
          console_log (Text ("  " +:+ fkError))));;
  throw error.

Definition performCleanup (operation : Operation)
  (tablesToProcess : list string) : M unit :=
  section ("🗑️  " +:+
           match operation with
           | Drop => "Dropping tables"
           | Delete => "Deleting data"
           end);;
  update (with_foreignKeysDisabled false);;
  try_catch (destructive_body operation tablesToProcess) destructive_handler.

Definition cleanup (values : Values) : M unit :=
  when_ (interactive values && negb (confirm values)) displayBanner;;
  allTables ← spinner getAllTables "Loading database tables";
  when_ (Nat.eqb (length allTables) 0)
    (console_log (Text "ℹ No tables found in database.");; process_exit 0);;
  let operation := operation_of values in
  tablesToProcess ← selectTables values operation allTables;
  when_ (Nat.eqb (length tablesToProcess) 0)
    (console_log (Text "ℹ No tables to process.");; process_exit 0);;
  stats ← spinner (getTableStats tablesToProcess) "Analyzing tables";
  displayTableStats stats operation;;
  when_ (dry_run values)
    (console_log (Text "ℹ DRY RUN - No changes will be made");;
     process_exit 0);;
  confirmOperation values operation;;
  performCleanup operation tablesToProcess.

(** ** Exit handling and entry point (lines 540-610) *)

(** The wait of lines 556-561 is for the promise of the main flow (or
    five seconds); it prints nothing and sends nothing itself. The
    handler is entered in two ways. From the rejection handler the
    promise has settled already and the wait returns at once: this is
    what the definition says. From a signal the wait lets a pending
    main flow run on, and what that flow still sends and prints comes
    before the lines of the handler; the monad has no interleaving, so
    the definition is exact for a signal only when no main flow is
    pending ([cleanupPromise] unset), and the theorems about a signal
    assume so. *)
Definition await_cleanupPromise : M unit :=
  pending ← read cleanupPromise;
  when_ pending (mret tt).

Definition gracefulExit (signal : string) : M unit :=
  cleaning ← read isCleaningUp;
  when_ cleaning
    (console_log (Text (nl +:+ "⚠ Force closing..."));; process_exit 1);;
  update (with_isCleaningUp true);;
  console_log
    (Text (nl +:+ nl +:+ "⚠ Received " +:+ signal +:+ ", cleaning up..."));;
  try_catch
    (await_cleanupPromise;;
     try_catch
       (db_run (ForeignKeys true);;
        console_log (Text "✓ Database state restored"))
       (fun _error =>
          console_log (Text "✗ Warning: Could not restore database state"));;
     console_log (Text ("Goodbye!" +:+ nl));;
     process_exit 0)
    (fun _error =>
       console_log (Text "✗ Error during cleanup");;
       process_exit 1).

(** Lines 586-593. *)
Definition onUnhandledRejection (reason : string) : M unit :=
  console_log (Text "");;
  console_log (Text "✗ Unhandled rejection:");;
  console_log (Text ("  " +:+ reason));;
  gracefulExit "unhandledRejection";;
  process_exit 1.

(** Lines 603-610: the handler of a rejected [cleanup], whose last step
    waits for the exit handler to return. *)
Definition onRejected (error : string) : M unit :=
  console_log (Text "");;
  console_log (Text "✗ Unexpected error:");;
  console_log (Text ("  " +:+ error));;
  gracefulExit "error";;
  process_exit 1.

(** Lines 540-541 and 599-610: the module's top level. The promise chain
    is pending while [cleanup] and its handlers run. *)
Definition entry (values : Values) : M unit :=
  update (with_isCleaningUp false);;
  update (with_cleanupPromise true);;
  try_catch
    (cleanup values;;
     update (with_cleanupPromise false))
    onRejected.

(** The status the process ends with: the one given to [process.exit],
    0 when the main flow simply ends, 1 for an error nobody caught. *)
Definition exit_status {A} (o : Outcome A) : nat :=
  match o with
  | Exit n => n
  | Ret _ => 0
  | Throw _ => 1
  end.

(** ** Worlds to run the script in *)

Definition database (rows : list (string * nat)) : Database :=
  {| master := list_to_map rows; foreign_keys := true |}.

Definition world (rows : list (string * nat)) (failures : list (option string))
  (answers : list (option string)) : World :=
  {| db := database rows; faults := failures; stdin := answers;
     isCleaningUp := false; cleanupPromise := false;
     foreignKeysDisabled := false |}.

Definition flags (confirm_ : bool) (tables_ : option string)
  (dry_run_ drop_ : bool) : Values :=
  {| confirm := confirm_; tables := tables_; dry_run := dry_run_;
     drop := drop_; interactive := true |}.

(** The world once a run has switched the enforcement of foreign keys
    off. *)
Definition unenforced (w : World) : World :=
  with_db {| master := master (db w); foreign_keys := false |} w.

(** ** Specification vocabulary *)

(** How often [t] occurs in a list of names. *)
Definition occurrences (t : string) (l : list string) : nat :=
  length (List.filter (String.eqb t) l).

(** ** A program logic for the monad

    [respects view P E T R m]: whatever the world, [m] leaves [view] of
    it as it was, emits only events in [P], exits only with a status in
    [E], throws only messages in [T] and returns only values in [R]. *)

Definition respects {X A : Type} (view : World -> X) (P : event -> Prop)
  (E : nat -> Prop) (T : string -> Prop) (R : A -> Prop) (m : M A) : Prop :=
  forall w : World,
    view (final (m w)) = view w
    /\ Forall P (trace (m w))
    /\ match outcome (m w) with
       | Ret a => R a
       | Throw e => T e
       | Exit n => E n
       end.

Definition anything {A : Type} : A -> Prop := fun _ => True.
Definition nothing {A : Type} : A -> Prop := fun _ => False.

(** A statement that only reads. *)
Definition read_only (q : statement) : bool :=
  match q with
  | SelectTables | SelectCount _ | SelectSequence => true
  | _ => false
  end.

(** A statement that sets the enforcement of foreign keys. *)
Definition is_pragma (q : statement) : bool :=
  match q with
  | ForeignKeys _ => true
  | _ => false
  end.

(** An event that cannot change the database: a console line, a prompt,
    or a statement that only reads. *)
Definition harmless (e : event) : Prop :=
  match e with
  | Sql q _ => read_only q = true
  | _ => True
  end.

(** An event other than a PRAGMA. *)
Definition no_pragma (e : event) : Prop :=
  match e with
  | Sql q _ => is_pragma q = false
  | _ => True
  end.

(** The world apart from the pending faults and answers. *)
Definition settled (w : World) : Database * bool * bool * bool :=
  (db w, isCleaningUp w, cleanupPromise w, foreignKeysDisabled w).

(** The answer the next [prompt] reads. *)
Definition next_answer (w : World) : option string :=
  match stdin w with
  | r :: _ => r
  | [] => None
  end.

(** The connection lets the next call through. *)
Definition next_call_passes (w : World) : Prop :=
  match head (faults w) with
  | Some (Some _) => False
  | _ => True
  end.

(** An event that removes nothing: a harmless one, or the statement that
    switches the enforcement of foreign keys back on. *)
Definition non_destructive (e : event) : Prop :=
  match e with
  | Sql q _ => read_only q = true \/ q = ForeignKeys true
  | _ => True
  end.

(** What one count query says about the statistics entry of its table:
    the entry holds the table's number of rows when the query succeeded,
    zero when it failed. *)
Definition counted (d : Database) (e : event) (stat : TableStats) : Prop :=
  exists err,
    e = Sql (SelectCount (name stat)) err
    /\ match err with
       | Some _ => rowCount stat = 0
       | None => master d !! name stat = Some (rowCount stat)
       end.

(** Each table's row count taken right before its own deletion, the
    tables being emptied in the order of the list. *)
Fixpoint pre_delete_counts (m : gmap string nat) (tables : list string)
  : list nat :=
  match tables with
  | [] => []
  | t :: rest => default 0 (m !! t) :: pre_delete_counts (<[t := 0]> m) rest
  end.

(** The per-table lines "(n rows deleted)" of a trace. *)
Definition deleted_lines (tr : list event) : list (string * nat) :=
  omap (fun e => match e with
                 | Log (RowsDeleted t n) => Some (t, n)
                 | _ => None
                 end) tr.

(** A connection that fails no call. *)
Definition reliable (w : World) : Prop :=
  Forall (fun f => f = None) (faults w).

(** Names that the statements can carry between double quotes. *)
Definition quotable_names (tables : list string) : Prop :=
  Forall (fun t => quotable t = true) tables.

(** The table names listed by the "Tables not found" warnings of a
    trace. *)
Definition reported (tr : list event) : list string :=
  flat_map (fun e => match e with
                     | Log (TablesNotFound l) => l
                     | _ => []
                     end) tr.

(** The selection as the specification words it: the requested names
    that were discovered, in discovery order, each missing name reported
    once. *)
Definition selection_in_discovery_order (allTables : list string)
  (requestedTables : string) (w : World) : Prop :=
  let r := filterTables allTables (Some requestedTables) w in
  exists selected,
    outcome r = Ret selected
    /\ (forall t, t ∈ selected <->
                  t ∈ requested_names requestedTables /\ t ∈ allTables)
    /\ sublist selected allTables
    /\ (forall t, t ∈ requested_names requestedTables -> t ∉ allTables ->
                  occurrences t (reported (trace r)) = 1).

(** The tables once those of the list have been emptied. *)
Definition emptied (m : gmap string nat) (tables : list string)
  : gmap string nat :=
  foldl (fun m t => <[t := 0]> m) m tables.

(** The index a menu answer stands for, -1 for none. *)
Definition chosen (n : nat) (parsed : option Z) : Z :=
  match parsed with
  | Some choice =>
      if ((1 <=? choice) && (choice <=? Z.of_nat n))%Z
      then (choice - 1)%Z else (-1)%Z
  | None => (-1)%Z
  end.

(** The scenario of a request for a table that does not exist, as the
    specification words it: once discovery has answered, the selection
    is empty, "No tables to process." is printed, nothing is changed
    and the status is 0. *)
Definition ghost_scenario (values : Values) (w : World) : Prop :=
  tables values = Some "ghost" ->
  master (db w) !! "ghost" = None ->
  next_call_passes w ->
  let r := entry values w in
  (forall w', outcome (selectTables values (operation_of values)
                         (user_tables (db w)) w') = Ret [])
  /\ In (Log (Text "ℹ No tables to process.")) (trace r)
  /\ Forall harmless (trace r)
  /\ db (final r) = db w
  /\ outcome r = Exit 0.

(** The answers that confirm: y or yes, in any mix of cases. *)
Definition affirmative_answers : list string :=
  ["y"; "Y"; "yes"; "yeS"; "yEs"; "yES"; "Yes"; "YeS"; "YEs"; "YES"].

Definition affirmative (response : option string) : Prop :=
  exists r, response = Some r /\ r ∈ affirmative_answers.


(** What [promptYesNo] returns for an answer when its default is no. *)
Definition accepts (response : option string) : bool :=
  match response with
  | None | Some EmptyString => false
  | Some r =>
      String.eqb (JS.toLowerCase r) "y" || String.eqb (JS.toLowerCase r) "yes"
  end.

(** The enforcement of foreign keys as the database and the script see
    it. *)
Definition enforcement (w : World) : bool * bool :=
  (foreign_keys (db w), foreignKeysDisabled w).

(** What the catch block of the destructive phase prints first. *)
Definition handler_lines (error : string) : list event :=
  [Log (Text ""); Log (Text "✗ Error during cleanup:");
   Log (Text ("  " +:+ error))].

(** Its attempt to switch enforcement back on, by the error of the
    attempt. *)
Definition restore_events (fkError : option string) : list event :=
  match fkError with
  | None =>
      [Sql (ForeignKeys true) None; Log (Text "✓ Database state restored")]
  | Some msg =>
      [Sql (ForeignKeys true) (Some msg);
       Log (Text "✗ Failed to re-enable foreign keys");
       Log (Text ("  " +:+ msg))]
  end.

Definition restored (fkError : option string) : bool :=
  match fkError with None => true | Some _ => false end.

(** The ways the destructive phase can go, from a database whose
    enforcement is [before]: the outcome, the trace, the enforcement in
    the database afterwards and the flag afterwards. *)
Inductive phase_shape (before : bool)
  : Outcome unit -> list event -> bool -> bool -> Prop :=
| phase_succeeds (pre mid post : list event) :
    Forall no_pragma pre -> Forall no_pragma mid -> Forall no_pragma post ->
    phase_shape before (Ret tt)
      (pre ++ Sql (ForeignKeys false) None :: mid
           ++ Sql (ForeignKeys true) None :: post)
      true false
| disable_fails (pre : list event) (e : string) :
    Forall no_pragma pre ->
    phase_shape before (Throw e)
      (pre ++ Sql (ForeignKeys false) (Some e) :: handler_lines e)
      before false
| operation_fails (pre mid : list event) (e : string)
    (fkError : option string) :
    Forall no_pragma pre -> Forall no_pragma mid ->
    phase_shape before (Throw e)
      (pre ++ Sql (ForeignKeys false) None :: mid
           ++ handler_lines e ++ restore_events fkError)
      (restored fkError) true
| enable_fails (pre mid : list event) (e : string)
    (fkError : option string) :
    Forall no_pragma pre -> Forall no_pragma mid ->
    phase_shape before (Throw e)
      (pre ++ Sql (ForeignKeys false) None :: mid
           ++ Sql (ForeignKeys true) (Some e)
           :: handler_lines e ++ restore_events fkError)
      (restored fkError) true.

(** Counting the PRAGMAs of a trace: enforcement switched off, switched
    on, and attempts to switch it on. *)
Definition disable_done (e : event) : bool :=
  match e with Sql (ForeignKeys false) None => true | _ => false end.

Definition enable_done (e : event) : bool :=
  match e with Sql (ForeignKeys true) None => true | _ => false end.

Definition enable_sent (e : event) : bool :=
  match e with Sql (ForeignKeys true) _ => true | _ => false end.

Definition disable_sent (e : event) : bool :=
  match e with Sql (ForeignKeys false) _ => true | _ => false end.

Definition count (p : event -> bool) (tr : list event) : nat :=
  length (List.filter p tr).

Definition disables (tr : list event) : nat := count disable_done tr.
Definition enables (tr : list event) : nat := count enable_done tr.
Definition enable_attempts (tr : list event) : nat := count enable_sent tr.
Definition disable_attempts (tr : list event) : nat := count disable_sent tr.

(** The balance as the specification words it: enforcement is enabled
    once more than it was disabled within the phase, be it counted by
    the statements that took effect or by the statements sent. *)
Definition one_more_enable_than_disable (operation : Operation)
  (tablesToProcess : list string) (w : World) : Prop :=
  let tr := trace (performCleanup operation tablesToProcess w) in
  enables tr = disables tr + 1
  \/ enable_attempts tr = disable_attempts tr + 1.

(** What [displayBanner] prints. *)
Definition banner_events : list event :=
  [Log (Text ""); Log (Text "🗑️  Database Cleanup Utility");
   Log (Text "   Clean or drop database tables with safety"); Log (Text "")].

(** What the run prints first: the banner, unless [--confirm] or
    [--no-interactive] is given. *)
Definition opening (values : Values) : list event :=
  if interactive values && negb (confirm values) then banner_events else [].

(** The world in which the main function goes on once the top level has
    set its globals and discovery has used up one call. *)
Definition discovered (w : World) : World :=
  with_faults (tail (faults w))
    (with_cleanupPromise true (with_isCleaningUp false w)).

(** What [displayTableStats] prints: the title, one line per entry (with
    its count when deleting), the number of tables, and the total of
    the rows when deleting and when it is not zero. *)
Definition preview_events (stats : list TableStats) (operation : Operation)
  : list event :=
  [Log (Text (nl +:+ "📋 Tables to " +:+
              match operation with Drop => "drop" | Delete => "clean" end));
   Log (Text (repeat_string "─" 60))]
  ++ map (fun stat =>
            Log (TableLine (name stat)
                   (match operation with
                    | Delete => Some (rowCount stat)
                    | Drop => None
                    end))) stats
  ++ [Log (Text "");
      Log (Text ("Total: " +:+ JS.toString (length stats) +:+ " table" +:+
                 plural (length stats)))]
  ++ (if match operation with
         | Delete => 0 <? foldl (fun sum s => sum + rowCount s) 0 stats
         | Drop => false
         end
      then [Log (RowsToDelete (foldl (fun sum s => sum + rowCount s) 0 stats))]
      else []).

(** What the exit handler prints after its attempt to switch
    enforcement back on, by the error of the attempt. *)
Definition restore_notice (err : option string) : string :=
  match err with
  | None => "✓ Database state restored"
  | Some _ => "✗ Warning: Could not restore database state"
  end.

(** What the rejection handler prints and sends for [error], the exit
    handler it calls included; [err] is the error of the PRAGMA. *)
Definition rejection_events (error : string) (err : option string)
  : list event :=
  [Log (Text ""); Log (Text "✗ Unexpected error:");
   Log (Text ("  " +:+ error));
   Log (Text (nl +:+ nl +:+ "⚠ Received error, cleaning up..."));
   Sql (ForeignKeys true) err;
   Log (Text (restore_notice err));
   Log (Text ("Goodbye!" +:+ nl))].

(** C4 as the specification words it: with [--dry-run] the run sends no
    statement but SELECTs, a PRAGMA being a mutating statement too, and
    exits with status 0. *)
Definition dry_run_sends_selects_only (values : Values) (w : World) : Prop :=
  dry_run values = true ->
  let r := entry values w in
  Forall harmless (trace r) /\ outcome r = Exit 0.


(** ** Vocabulary of a run on a healthy connection *)

(** An event other than a statement that failed. *)
Definition succeeded (e : event) : Prop :=
  match e with
  | Sql _ (Some _) => False
  | _ => True
  end.

(** An event other than a question to the user. *)
Definition no_prompt (e : event) : Prop :=
  match e with
  | Prompt _ _ => False
  | _ => True
  end.

(** The tables once those of the list have been dropped. *)
Definition dropped (m : gmap string nat) (tables : list string)
  : gmap string nat :=
  foldl (fun m t => delete t m) m tables.

(** The tables once the sequence table, if there is one, has been
    emptied. *)
Definition sequences_reset (m : gmap string nat) : gmap string nat :=
  match m !! "sqlite_sequence" with
  | Some _ => <["sqlite_sequence" := 0]> m
  | None => m
  end.

(** The tables a run processes when it asks nothing: those of
    [--tables] that were discovered, or all the discovered ones. *)
Definition selection (values : Values) (d : Database) : list string :=
  match tables values with
  | None | Some EmptyString => user_tables d
  | Some s => List.filter (JS.includes (user_tables d)) (requested_names s)
  end.

(** The tables after the operation on the selected ones. *)
Definition processed (operation : Operation) (m : gmap string nat)
  (selected : list string) : gmap string nat :=
  match operation with
  | Delete => sequences_reset (emptied m selected)
  | Drop => dropped m selected
  end.

(** What [dropTables] sends and prints for its tables. *)
Definition drop_events (tables : list string) : list event :=
  flat_map (fun t => [Sql (DropTable t) None;
                      Log (Text ("✓ " +:+ t +:+ " (dropped)"))]) tables.

(** An event other than a statement sent to the database. *)
Definition no_sql (e : event) : Prop :=
  match e with
  | Sql _ _ => False
  | _ => True
  end.


(** The table that a statement names, for the statements that carry a
    name. *)
Definition target (q : statement) : option string :=
  match q with
  | SelectCount t | DeleteFrom t | DropTable t => Some t
  | _ => None
  end.


(** A name without a comma. *)
Definition comma_free (n : string) : Prop :=
  Forall (fun ch => ch <> ","%char) (list_ascii_of_string n).

(** A name that [--tables] can carry as it is: not empty, without a
    comma, and without white space at its ends. *)
Definition plain_name (n : string) : Prop :=
  n <> "" /\ comma_free n /\ JS.trim n = n.



(** A statement that removes rows or tables. *)
Definition destructive (q : statement) : bool :=
  match q with
  | DeleteFrom _ | DropTable _ | DeleteSequence => true
  | _ => false
  end.

(** Whether the run has switched enforcement off, and has not tried to
    switch it on since, once the event has happened. *)
Definition switched (off : bool) (e : event) : bool :=
  match e with
  | Sql (ForeignKeys false) None => true
  | Sql (ForeignKeys true) _ => false
  | _ => off
  end.

Definition after (off : bool) (tr : list event) : bool := foldl switched off tr.

(** Every destructive statement of the trace is sent while enforcement
    is switched off. *)
Fixpoint guarded (off : bool) (tr : list event) : bool :=
  match tr with
  | [] => true
  | e :: rest =>
      match e with
      | Sql q _ => negb (destructive q) || off
      | _ => true
      end && guarded (switched off e) rest
  end.

(** An event other than a destructive statement. *)
Definition mild (e : event) : Prop :=
  match e with
  | Sql q _ => destructive q = false
  | _ => True
  end.

(** [m], started with enforcement switched off or not, sends its
    destructive statements under guard and ends in a state in [Q]. *)
Definition guards {A} (off : bool) (m : M A) (Q : Outcome A -> bool -> Prop)
  : Prop :=
  forall w : World,
    guarded off (trace (m w)) = true
    /\ Q (outcome (m w)) (after off (trace (m w))).

(** The command line with [--confirm] set or unset. *)
Definition with_confirm (b : bool) (values : Values) : Values :=
  {| confirm := b; tables := tables values; dry_run := dry_run values;
     drop := drop values; interactive := interactive values |}.

(** No stored table differs from [t] in the case of its letters only.
    SQLite matches the names of tables without regard to the case of
    the letters a to z, while the tables of the model are found under
    the very name given: the two agree on names spelled as stored. *)
Definition spelled_as_stored (m : gmap string nat) (t : string) : Prop :=
  forall k, is_Some (m !! k) -> JS.toLowerCase k = JS.toLowerCase t -> k = t.


(** * Properties *)

(** ** Facts about the string primitives *)

Lemma includes_elem_of (arr : list string) (t : string) :
  JS.includes arr t = true <-> t ∈ arr.
Proof.
  unfold JS.includes. rewrite existsb_exists. split.
  - intros (x & Hx & Heq). apply String.eqb_eq in Heq. subst x.
    by apply list_elem_of_In.
  - intros Hin. exists t. split; [by apply list_elem_of_In|apply String.eqb_refl].
Qed.

Lemma includes_not_elem_of (arr : list string) (t : string) :
  JS.includes arr t = false <-> t ∉ arr.
Proof.
  rewrite <- includes_elem_of. destruct (JS.includes arr t); split; congruence.
Qed.

Lemma occurrences_filter_true (p : string -> bool) (t : string) (l : list string) :
  p t = true -> occurrences t (List.filter p l) = occurrences t l.
Proof.
  intros Hp. unfold occurrences. induction l as [|x l IH]; [done|].
  simpl. destruct (p x) eqn:Hx; simpl.
  - destruct (String.eqb t x); simpl; by rewrite IH.
  - destruct (String.eqb_spec t x) as [->|_]; [congruence|done].
Qed.

Lemma filter_sublist (p : string -> bool) (l : list string) :
  sublist (List.filter p l) l.
Proof.
  induction l as [|x l IH]; simpl; [constructor|].
  destruct (p x); by constructor.
Qed.

Lemma elem_of_List_filter (p : string -> bool) (l : list string) (t : string) :
  t ∈ List.filter p l <-> t ∈ l /\ p t = true.
Proof. rewrite !list_elem_of_In. apply filter_In. Qed.

(** The digits of a decimal numeral are read back by [JS.digits]. *)
Lemma digits_of_uint (d : Decimal.uint) (acc : nat) :
  JS.digits (NilEmpty.string_of_uint d) true (Z.of_nat acc)
  = Some (Z.of_nat (Nat.of_uint_acc d acc)).
Proof.
  revert acc.
  induction d as [|d IH|d IH|d IH|d IH|d IH|d IH|d IH|d IH|d IH|d IH];
    intros acc; simpl; [done|..];
    change (JS.digit _) with (Some (Z.of_nat 0)) ||
    change (JS.digit _) with (Some (Z.of_nat 1)) ||
    change (JS.digit _) with (Some (Z.of_nat 2)) ||
    change (JS.digit _) with (Some (Z.of_nat 3)) ||
    change (JS.digit _) with (Some (Z.of_nat 4)) ||
    change (JS.digit _) with (Some (Z.of_nat 5)) ||
    change (JS.digit _) with (Some (Z.of_nat 6)) ||
    change (JS.digit _) with (Some (Z.of_nat 7)) ||
    change (JS.digit _) with (Some (Z.of_nat 8)) ||
    change (JS.digit _) with (Some (Z.of_nat 9));
    cbv beta iota; rewrite <- IH; f_equal; rewrite Nat.tail_mul_spec; lia.
Qed.

Lemma to_uint_not_Nil (n : nat) : Nat.to_uint n <> Decimal.Nil.
Proof.
  rewrite <- (DecimalNat.Unsigned.of_to n) at 1.
  rewrite DecimalNat.Unsigned.to_of. apply DecimalFacts.unorm_nonnil.
Qed.

(** A numeral printed by [toString] is parsed back by [parseInt]. *)
Lemma parseInt_toString (n : nat) :
  JS.parseInt (JS.toString n) = Some (Z.of_nat n).
Proof.
  unfold JS.toString.
  pose proof (DecimalNat.Unsigned.of_to n) as Hn.
  unfold Nat.of_uint in Hn.
  destruct (Nat.to_uint n) as [|d|d|d|d|d|d|d|d|d|d] eqn:Hd.
  { exfalso. revert Hd. apply to_uint_not_Nil. }
  all: unfold JS.parseInt, JS.trimStart; simpl NilEmpty.string_of_uint;
    cbn [String.length JS.strip_all];
    match goal with
    | |- context [JS.strip_any ?l ?s] =>
        replace (JS.strip_any l s) with (@None string) by reflexivity
    end;
    cbv beta iota; cbn [JS.digits];
    match goal with
    | |- context [JS.digit ?c] =>
        let v := eval vm_compute in (JS.digit c) in
        change (JS.digit c) with v
    end;
    cbv beta iota; rewrite <- Hn; cbn [Nat.of_uint_acc];
    match goal with
    | |- _ = Some (Z.of_nat (Nat.of_uint_acc ?d ?a)) =>
        exact (digits_of_uint d a)
    end.
Qed.

(** ** Running a computation *)

Lemma bind_run {A B} (m : M A) (f : A -> M B) (w : World) :
  (m ≫= f) w =
  match outcome (m w) with
  | Ret a =>
      {| outcome := outcome (f a (final (m w)));
         final := final (f a (final (m w)));
         trace := trace (m w) ++ trace (f a (final (m w))) |}
  | Throw e =>
      {| outcome := Throw e; final := final (m w); trace := trace (m w) |}
  | Exit n =>
      {| outcome := Exit n; final := final (m w); trace := trace (m w) |}
  end.
Proof. reflexivity. Qed.

Lemma try_catch_run {A} (body : M A) (handler : string -> M A) (w : World) :
  try_catch body handler w =
  match outcome (body w) with
  | Throw e =>
      {| outcome := outcome (handler e (final (body w)));
         final := final (handler e (final (body w)));
         trace := trace (body w) ++ trace (handler e (final (body w))) |}
  | _ => body w
  end.
Proof. reflexivity. Qed.

(** Binding after a primitive that always returns. *)
Lemma ret_bind {A B} (a : A) (k : A -> M B) (w : World) :
  (mret a ≫= k) w = k a w.
Proof. rewrite bind_run. simpl. by destruct (k a w). Qed.

Lemma update_bind {B} (f : World -> World) (k : unit -> M B) (w : World) :
  (update f ≫= k) w = k tt (f w).
Proof. rewrite bind_run. simpl. by destruct (k tt (f w)). Qed.

Lemma read_bind {A B} (f : World -> A) (k : A -> M B) (w : World) :
  (read f ≫= k) w = k (f w) w.
Proof. rewrite bind_run. simpl. by destruct (k (f w) w). Qed.

Lemma log_bind {B} (o : output) (k : unit -> M B) (w : World) :
  (console_log o ≫= k) w =
  {| outcome := outcome (k tt w); final := final (k tt w);
     trace := Log o :: trace (k tt w) |}.
Proof. by rewrite bind_run. Qed.

Lemma bind_after {A B} (m : M A) (f : A -> M B) (w w' : World) (a : A)
  (tr : list event) :
  m w = {| outcome := Ret a; final := w'; trace := tr |} ->
  (m ≫= f) w =
  {| outcome := outcome (f a w'); final := final (f a w');
     trace := tr ++ trace (f a w') |}.
Proof. intros Hm. rewrite bind_run, Hm. reflexivity. Qed.

(** Running a bind once the run of its first part is known. *)
Lemma bind_ret_eq {A B} (m : M A) (f : A -> M B) (w w1 w2 : World) (a : A)
  (o : Outcome B) (tr1 tr2 : list event) :
  m w = {| outcome := Ret a; final := w1; trace := tr1 |} ->
  f a w1 = {| outcome := o; final := w2; trace := tr2 |} ->
  (m ≫= f) w = {| outcome := o; final := w2; trace := tr1 ++ tr2 |}.
Proof. intros Hm Hf. rewrite bind_run, Hm. simpl. by rewrite Hf. Qed.

Lemma bind_exit_eq {A B} (m : M A) (f : A -> M B) (w w1 : World) (n : nat)
  (tr : list event) :
  m w = {| outcome := Exit n; final := w1; trace := tr |} ->
  (m ≫= f) w = {| outcome := Exit n; final := w1; trace := tr |}.
Proof. intros Hm. by rewrite bind_run, Hm. Qed.

Lemma bind_throw_eq {A B} (m : M A) (f : A -> M B) (w w1 : World)
  (e : string) (tr : list event) :
  m w = {| outcome := Throw e; final := w1; trace := tr |} ->
  (m ≫= f) w = {| outcome := Throw e; final := w1; trace := tr |}.
Proof. intros Hm. by rewrite bind_run, Hm. Qed.

Lemma try_catch_throw_eq {A} (body : M A) (handler : string -> M A)
  (w w1 w2 : World) (e : string) (o : Outcome A) (tr1 tr2 : list event) :
  body w = {| outcome := Throw e; final := w1; trace := tr1 |} ->
  handler e w1 = {| outcome := o; final := w2; trace := tr2 |} ->
  try_catch body handler w
  = {| outcome := o; final := w2; trace := tr1 ++ tr2 |}.
Proof. intros Hb Hh. rewrite try_catch_run, Hb. simpl. by rewrite Hh. Qed.

Lemma try_catch_ret_eq {A} (body : M A) (handler : string -> M A)
  (w w1 : World) (a : A) (tr : list event) :
  body w = {| outcome := Ret a; final := w1; trace := tr |} ->
  try_catch body handler w = {| outcome := Ret a; final := w1; trace := tr |}.
Proof. intros Hb. by rewrite try_catch_run, Hb. Qed.

(** A run stated up to the shape of its trace. *)
Lemma with_trace {A} (r : Result A) (o : Outcome A) (w : World)
  (tr tr' : list event) :
  r = {| outcome := o; final := w; trace := tr' |} -> tr' = tr ->
  r = {| outcome := o; final := w; trace := tr |}.
Proof. by intros -> ->. Qed.

Lemma log_run (o : output) (w : World) :
  console_log o w = {| outcome := Ret tt; final := w; trace := [Log o] |}.
Proof. reflexivity. Qed.

Lemma entry_run (values : Values) (w : World) :
  entry values w =
  try_catch (cleanup values ≫= fun _ => update (with_cleanupPromise false))
    onRejected (with_cleanupPromise true (with_isCleaningUp false w)).
Proof. unfold entry. by rewrite !update_bind. Qed.

(** The three ways the top level can end, by how [cleanup] ends. *)
Lemma entry_cases (values : Values) (w : World) :
  let c := cleanup values (with_cleanupPromise true (with_isCleaningUp false w)) in
  entry values w =
  match outcome c with
  | Ret _ =>
      {| outcome := Ret tt; final := with_cleanupPromise false (final c);
         trace := trace c |}
  | Throw e =>
      {| outcome := outcome (onRejected e (final c));
         final := final (onRejected e (final c));
         trace := trace c ++ trace (onRejected e (final c)) |}
  | Exit n => {| outcome := Exit n; final := final c; trace := trace c |}
  end.
Proof.
  rewrite entry_run, try_catch_run, bind_run.
  generalize (cleanup values (with_cleanupPromise true (with_isCleaningUp false w))).
  intros [[[]|e|n] u tr]; simpl; by rewrite ?app_nil_r.
Qed.

Section Logic.

Context {X : Type} (view : World -> X) (P : event -> Prop) (E : nat -> Prop).

Lemma respects_ret {A} (T : string -> Prop) (R : A -> Prop) (a : A) :
  R a -> respects view P E T R (mret a).
Proof. intros Ha w. simpl. by repeat split. Qed.

Lemma respects_bind {A B} (T : string -> Prop) (Rm : A -> Prop)
  (R : B -> Prop) (m : M A) (f : A -> M B) :
  respects view P E T Rm m ->
  (forall a, Rm a -> respects view P E T R (f a)) ->
  respects view P E T R (m ≫= f).
Proof.
  intros Hm Hf w. rewrite bind_run.
  destruct (Hm w) as (Hv & Htr & Ho).
  destruct (outcome (m w)) as [a|e|n]; simpl; [|done..].
  destruct (Hf a Ho (final (m w))) as (Hv' & Htr' & Ho').
  split; [congruence|]. split; [by apply Forall_app|done].
Qed.

Lemma respects_try_catch {A} (Tb T : string -> Prop) (R : A -> Prop)
  (body : M A) (handler : string -> M A) :
  respects view P E Tb R body ->
  (forall e, Tb e -> respects view P E T R (handler e)) ->
  respects view P E T R (try_catch body handler).
Proof.
  intros Hb Hh w. rewrite try_catch_run.
  destruct (Hb w) as (Hv & Htr & Ho).
  destruct (outcome (body w)) as [a|e|n] eqn:Hout; simpl.
  - rewrite Hout. done.
  - destruct (Hh e Ho (final (body w))) as (Hv' & Htr' & Ho').
    split; [congruence|]. split; [by apply Forall_app|done].
  - rewrite Hout. done.
Qed.

Lemma respects_throw {A} (T : string -> Prop) (R : A -> Prop) (e : string) :
  T e -> respects view P E T R (throw e).
Proof. intros He w. simpl. by repeat split. Qed.

Lemma respects_exit {A} (T : string -> Prop) (R : A -> Prop) (n : nat) :
  E n -> respects view P E T R (process_exit n).
Proof. intros Hn w. simpl. by repeat split. Qed.

Lemma respects_when (T : string -> Prop) (R : unit -> Prop) (b : bool)
  (m : M unit) :
  R tt -> respects view P E T R m -> respects view P E T R (when_ b m).
Proof. intros Ht Hm. destruct b; simpl; [done|by apply respects_ret]. Qed.

Lemma respects_log (T : string -> Prop) (R : unit -> Prop) (o : output) :
  P (Log o) -> R tt -> respects view P E T R (console_log o).
Proof. intros Ho Ht w. simpl. repeat split; [by repeat constructor|done]. Qed.

Lemma respects_update (T : string -> Prop) (R : unit -> Prop)
  (f : World -> World) :
  (forall w, view (f w) = view w) -> R tt ->
  respects view P E T R (update f).
Proof. intros Hf Ht w. simpl. by repeat split. Qed.

Lemma respects_read {A} (T : string -> Prop) (R : A -> Prop)
  (f : World -> A) :
  (forall w, R (f w)) -> respects view P E T R (read f).
Proof. intros Hf w. simpl. by repeat split. Qed.

Lemma respects_prompt (T : string -> Prop) (R : option string -> Prop)
  (text : string) :
  (forall i w, view (with_stdin i w) = view w) ->
  (forall r, P (Prompt text r)) -> (forall r, R r) ->
  respects view P E T R (prompt text).
Proof.
  intros Hv Hp Hr w. unfold prompt.
  destruct (stdin w); simpl; repeat split; by repeat constructor.
Qed.

Lemma respects_db_all (T : string -> Prop) (R : list row -> Prop)
  (q : statement) :
  (forall f w, view (with_faults f w) = view w) ->
  (forall w rows d, execute q (db w) = inr (rows, d) ->
                    view (with_db d w) = view w /\ R rows) ->
  (forall err, P (Sql q err)) -> (forall e, T e) ->
  respects view P E T R (db_all q).
Proof.
  intros Hf Hd Hp Ht w. unfold db_all.
  destruct (head (faults w)) as [[msg|]|]; simpl.
  1: by repeat split; [apply Hf|repeat constructor|].
  all: destruct (execute q (db w)) as [msg|[rows d]] eqn:Hq; simpl.
  1,3: by repeat split; [apply Hf|repeat constructor|].
  all: specialize (Hd (with_faults (tail (faults w)) w) rows d Hq)
         as [Hv Hr];
       repeat split; [by rewrite Hv|by repeat constructor|done].
Qed.

Lemma respects_db_run (T : string -> Prop) (R : unit -> Prop)
  (q : statement) :
  (forall f w, view (with_faults f w) = view w) ->
  (forall w rows d, execute q (db w) = inr (rows, d) ->
                    view (with_db d w) = view w) ->
  (forall err, P (Sql q err)) -> (forall e, T e) -> R tt ->
  respects view P E T R (db_run q).
Proof.
  intros Hf Hd Hp Ht Hr. unfold db_run.
  apply respects_bind with (Rm := anything).
  - apply respects_db_all; [done| |done..].
    intros w rows d Hq. split; [by eapply Hd|done].
  - intros _ _. by apply respects_ret.
Qed.

End Logic.

(** ** Specifications of the script's functions, for any view, event
    class and exit class that their primitives fit *)

Ltac logic_step :=
  lazymatch goal with
  | |- respects _ _ _ _ _ (mret _) => apply respects_ret
  | |- respects _ _ _ _ _ (mbind _ (when_ true _)) =>
      apply respects_bind with (Rm := nothing);
      [cbn [when_]|by intros ? []]
  | |- respects _ _ _ _ _ (mbind _ _) =>
      apply respects_bind with (Rm := anything); [|intros ? _]
  | |- respects _ _ _ _ _ (when_ _ _) => apply respects_when
  | |- respects _ _ _ _ _ (console_log _) => apply respects_log
  | |- respects _ _ _ _ _ (process_exit _) => apply respects_exit
  | |- respects _ _ _ _ _ (throw _) => apply respects_throw
  | |- respects _ _ _ _ _ (update _) => apply respects_update
  | |- respects _ _ _ _ _ (read _) => apply respects_read
  | |- respects _ _ _ _ _ (prompt _) => apply respects_prompt
  | |- respects _ _ _ _ _ (spinner _ _) => unfold spinner
  | |- respects _ _ _ _ _ (match ?x with _ => _ end) => destruct x
  end.

Ltac logic := repeat logic_step; try done.

Lemma with_db_same (w : World) : with_db (db w) w = w.
Proof. by destruct w. Qed.

Lemma execute_read_only (q : statement) (d d' : Database) (rows : list row) :
  read_only q = true -> execute q d = inr (rows, d') -> d' = d.
Proof.
  destruct q; simpl; try done; intros _ Hq.
  - by inversion Hq.
  - destruct (quotable t); [|done]. destruct (master d !! t); by inversion Hq.
  - destruct (master d !! "sqlite_sequence"); by inversion Hq.
Qed.

Lemma execute_keeps_foreign_keys (q : statement) (d d' : Database)
  (rows : list row) :
  is_pragma q = false -> execute q d = inr (rows, d') ->
  foreign_keys d' = foreign_keys d.
Proof.
  destruct q; simpl; try done; intros _ Hq.
  - by inversion Hq.
  - destruct (quotable t); [|done]. destruct (master d !! t); by inversion Hq.
  - destruct (master d !! "sqlite_sequence"); by inversion Hq.
  - destruct (quotable t); [|done]. destruct (master d !! t); by inversion Hq.
  - destruct (quotable t); [|done]. by inversion Hq.
  - destruct (master d !! "sqlite_sequence"); by inversion Hq.
Qed.

Section Specs.

Context {X : Type} (view : World -> X) (P : event -> Prop) (E : nat -> Prop).
Hypothesis P_log : forall o, P (Log o).

Lemma hr_spec T (R : unit -> Prop) : R tt -> respects view P E T R hr.
Proof. intros. unfold hr. logic. Qed.

Lemma section_spec T (R : unit -> Prop) title :
  R tt -> respects view P E T R (section title).
Proof. intros. unfold section. logic. by apply hr_spec. Qed.

Lemma displayBanner_spec T (R : unit -> Prop) :
  R tt -> respects view P E T R displayBanner.
Proof. intros. unfold displayBanner. logic. Qed.

Lemma print_stats_spec T (R : unit -> Prop) stats operation :
  R tt -> respects view P E T R (print_stats stats operation).
Proof. intros. induction stats; simpl; logic. Qed.

Lemma print_lines_spec T (R : unit -> Prop) lines :
  R tt -> respects view P E T R (print_lines lines).
Proof. intros. induction lines; simpl; logic. Qed.

Lemma print_choices_spec T (R : unit -> Prop) index choices :
  R tt -> respects view P E T R (print_choices index choices).
Proof. intros. revert index. induction choices; intros; simpl; logic. Qed.

Lemma displayTableStats_spec T (R : unit -> Prop) stats operation :
  R tt -> respects view P E T R (displayTableStats stats operation).
Proof.
  intros. unfold displayTableStats. logic.
  - by apply section_spec.
  - by apply print_stats_spec.
Qed.

Lemma displayWarning_spec T (R : unit -> Prop) operation :
  R tt -> respects view P E T R (displayWarning operation).
Proof. intros. unfold displayWarning. logic. by apply print_lines_spec. Qed.

Lemma displayResults_spec T (R : unit -> Prop) stats operation :
  R tt -> respects view P E T R (displayResults stats operation).
Proof. intros. unfold displayResults. logic. by apply section_spec. Qed.

Lemma filterTables_spec T allTables requestedTables :
  respects view P E T anything (filterTables allTables requestedTables).
Proof. unfold filterTables. logic. Qed.

Hypothesis P_prompt : forall text r, P (Prompt text r).
Hypothesis view_stdin : forall i w, view (with_stdin i w) = view w.

Lemma promptYesNo_spec T question defaultYes :
  respects view P E T anything (promptYesNo question defaultYes).
Proof. unfold promptYesNo. logic. Qed.

Lemma promptChoice_spec T question choices :
  respects view P E T anything (promptChoice question choices).
Proof. unfold promptChoice. logic. by apply print_choices_spec. Qed.

Hypothesis E_zero : E 0.

Lemma selectTables_spec T values operation allTables :
  respects view P E T anything (selectTables values operation allTables).
Proof.
  unfold selectTables. logic.
  - apply filterTables_spec.
  - apply promptChoice_spec.
Qed.

Hypothesis P_read : forall q err, read_only q = true -> P (Sql q err).
Hypothesis view_faults : forall f w, view (with_faults f w) = view w.

Lemma read_spec T (R : list row -> Prop) q :
  read_only q = true -> (forall e, T e) -> (forall rows, R rows) ->
  respects view P E T R (db_all q).
Proof.
  intros Hq HT HR.
  apply respects_db_all; [done| |by intros; apply P_read|done].
  intros w rows d Hex. apply execute_read_only in Hex as ->; [|done].
  by rewrite with_db_same.
Qed.

Lemma getAllTables_spec :
  respects view P E anything anything getAllTables.
Proof. unfold getAllTables. logic. by apply read_spec. Qed.

Lemma getTableStats_from_spec T stats tables :
  respects view P E T anything (getTableStats_from stats tables).
Proof.
  revert stats. induction tables as [|t tables IH]; intros stats; simpl; logic.
  unfold count_into.
  apply respects_try_catch with (Tb := anything); [|intros; logic].
  logic. by apply read_spec.
Qed.

Lemma getTableStats_spec T tables :
  respects view P E T anything (getTableStats tables).
Proof. apply getTableStats_from_spec. Qed.

Lemma hasSequenceTable_spec :
  respects view P E anything anything hasSequenceTable.
Proof. unfold hasSequenceTable. logic. by apply read_spec. Qed.

Hypothesis P_write : forall q err, is_pragma q = false -> P (Sql q err).
Hypothesis view_tables : forall w d,
  foreign_keys d = foreign_keys (db w) -> view (with_db d w) = view w.

Lemma write_spec (R : unit -> Prop) q :
  is_pragma q = false -> R tt ->
  respects view P E anything R (db_run q).
Proof.
  intros Hq HR. apply respects_db_run; [done| |by intros; apply P_write|done..].
  intros w rows d Hex. apply view_tables.
  by eapply execute_keeps_foreign_keys.
Qed.

Lemma count_spec t :
  respects view P E anything anything (db_all (SelectCount t)).
Proof. by apply read_spec. Qed.

Lemma deleteTables_from_spec totalRows tables :
  respects view P E anything anything (deleteTables_from totalRows tables).
Proof.
  revert totalRows.
  induction tables as [|t tables IH]; intros totalRows; simpl; logic.
  unfold delete_one. logic.
  - apply count_spec.
  - by apply write_spec.
Qed.

Lemma dropTables_spec tables :
  respects view P E anything anything (dropTables tables).
Proof.
  induction tables as [|t tables IH]; simpl; logic. by apply write_spec.
Qed.

Lemma resetSequences_spec :
  respects view P E anything anything resetSequences.
Proof.
  unfold resetSequences. logic.
  - apply hasSequenceTable_spec.
  - by apply write_spec.
Qed.

End Specs.

(** ** Discovery *)

Lemma row_name_RName (l : list string) : map row_name (map RName l) = l.
Proof. induction l; simpl; congruence. Qed.

(** The discovery query either fails on the connection or returns the
    user tables; it changes nothing but the pending faults. *)
Lemma getAllTables_run (w : World) :
  getAllTables w =
  match head (faults w) with
  | Some (Some msg) =>
      {| outcome := Throw msg; final := with_faults (tail (faults w)) w;
         trace := [Sql SelectTables (Some msg)] |}
  | _ =>
      {| outcome := Ret (user_tables (db w));
         final := with_faults (tail (faults w)) w;
         trace := [Sql SelectTables None] |}
  end.
Proof.
  unfold getAllTables. rewrite bind_run. unfold db_all.
  destruct (head (faults w)) as [[msg|]|]; simpl; [done|..];
    by rewrite row_name_RName; destruct w.
Qed.

(** ** Preview mode *)

Lemma harmless_non_destructive (e : event) : harmless e -> non_destructive e.
Proof. destruct e; simpl; auto. Qed.

(** With [--dry-run] the main function emits harmless events only, leaves
    the database and the globals alone, and ends by [process.exit(0)]
    unless the discovery query fails, whose error it throws. *)
Lemma cleanup_dry_run (values : Values) (w : World) :
  dry_run values = true ->
  let r := cleanup values w in
  Forall harmless (trace r)
  /\ settled (final r) = settled w
  /\ match head (faults w) with
     | Some (Some msg) => outcome r = Throw msg
     | _ => outcome r = Exit 0
     end.
Proof.
  intros Hdry. cbv zeta. unfold cleanup. rewrite Hdry.
  lazymatch goal with
  | |- context [mbind ?k (spinner getAllTables _)] => set (rest := k)
  end.
  assert (Hrest : forall allTables,
             respects settled harmless (eq 0) nothing nothing (rest allTables)).
  { intros allTables. unfold rest. logic.
    - apply selectTables_spec; by intros.
    - apply getTableStats_spec; by intros.
    - apply displayTableStats_spec; by intros. }
  assert (Hbanner : respects (fun w => w) harmless nothing nothing anything
            (when_ (interactive values && negb (confirm values)) displayBanner)).
  { logic. by apply displayBanner_spec. }
  rewrite bind_run.
  destruct (Hbanner w) as (Hw & Htr & Ho).
  destruct (outcome (when_ _ displayBanner w)); [|done..].
  rewrite Hw. cbn [outcome final trace].
  rewrite bind_run. unfold spinner. rewrite getAllTables_run.
  destruct (head (faults w)) as [[msg|]|]; cbn [outcome final trace].
  { split; [|done]. apply Forall_app. split; [done|].
    by repeat constructor. }
  all: set (w1 := with_faults _ _);
    destruct (Hrest (user_tables (db w)) w1) as (Hv & Htr' & Ho');
    destruct (outcome (rest _ w1)); [done| done |];
    (split; [apply Forall_app; split; [done|];
             apply Forall_app; split; [by repeat constructor|done]|]);
    (split; [by rewrite Hv|by subst]).
Qed.

(** ** The statistics pass *)

Lemma count_run (t : string) (w : World) :
  db_all (SelectCount t) w =
  let w' := with_faults (tail (faults w)) w in
  match head (faults w) with
  | Some (Some msg) =>
      {| outcome := Throw msg; final := w';
         trace := [Sql (SelectCount t) (Some msg)] |}
  | _ =>
      if quotable t then
        match master (db w) !! t with
        | Some n =>
            {| outcome := Ret [RCount n]; final := w';
               trace := [Sql (SelectCount t) None] |}
        | None =>
            {| outcome := Throw (no_such_table t); final := w';
               trace := [Sql (SelectCount t) (Some (no_such_table t))] |}
        end
      else
        {| outcome := Throw (not_parsed t); final := w';
           trace := [Sql (SelectCount t) (Some (not_parsed t))] |}
  end.
Proof.
  unfold db_all. simpl.
  destruct (head (faults w)) as [[msg|]|]; [done|..];
    (destruct (quotable t); [|done]);
    destruct (master (db w) !! t); simpl; try done; by destruct w.
Qed.

(** One count: the entry pushed is the table's count, or zero when the
    query failed; one pending fault is consumed. *)
Lemma count_into_run (stats : list TableStats) (t : string) (w : World) :
  exists stat e,
    count_into stats t w =
      {| outcome := Ret (stats ++ [stat]);
         final := with_faults (tail (faults w)) w;
         trace := [e] |}
    /\ name stat = t
    /\ counted (db w) e stat.
Proof.
  unfold count_into. rewrite try_catch_run, bind_run, count_run. cbv zeta.
  destruct (head (faults w)) as [[msg|]|];
    [|destruct (quotable t);
      [destruct (master (db w) !! t) as [n|] eqn:Ht|]..];
    cbn [outcome final trace mret M_ret app first_count];
    eexists {| name := t; rowCount := _ |}, _;
    (split; [rewrite ?app_nil_r; reflexivity|]); (split; [done|]);
    eexists; (split; [reflexivity|]); done.
Qed.

Lemma getTableStats_from_run (stats : list TableStats) (tables : list string)
  (w : World) :
  let r := getTableStats_from stats tables w in
  exists new,
    outcome r = Ret (stats ++ new)
    /\ map name new = tables
    /\ settled (final r) = settled w
    /\ faults (final r) = skipn (length tables) (faults w)
    /\ Forall2 (counted (db w)) (trace r) new.
Proof.
  revert stats w. induction tables as [|t tables IH]; intros stats w.
  { exists []. simpl. rewrite app_nil_r. repeat split. constructor. }
  cbv zeta. cbn [getTableStats_from]. rewrite bind_run.
  destruct (count_into_run stats t w) as (stat & e & -> & Hname & Hcount).
  cbn [outcome final trace].
  set (w' := with_faults (tail (faults w)) w).
  destruct (IH (stats ++ [stat]) w') as (new & Ho & Hn & Hs & Hf & Hc).
  exists (stat :: new). rewrite Ho, <- app_assoc. cbn [app].
  split; [done|]. split; [by rewrite <- Hn, <- Hname|].
  split; [by rewrite Hs|]. split; [|by constructor].
  rewrite Hf. simpl. destruct (faults w); simpl; [by rewrite skipn_nil|done].
Qed.


(** A failure on the first table leaves the count of the second intact. *)
Example getTableStats_after_a_failure :
  outcome (getTableStats ["users"; "sessions"]
             (world [("users", 10); ("sessions", 3)] [Some "timeout"] []))
  = Ret [ {| name := "users"; rowCount := 0 |};
          {| name := "sessions"; rowCount := 3 |} ].
Proof. vm_compute. reflexivity. Qed.

(** ** The second signal *)

(** C9. A signal that arrives while [isCleaningUp] is set makes the
    handler print the force-close notice and exit with status 1: no
    statement is sent and nothing in the world changes. *)
Theorem gracefulExit_while_cleaning_up (signal : string) (w : World) :
  isCleaningUp w = true ->
  let r := gracefulExit signal w in
  outcome r = Exit 1
  /\ trace r = [Log (Text (nl +:+ "⚠ Force closing..."))]
  /\ final r = w.
Proof.
  intros Hc. cbv zeta. unfold gracefulExit. rewrite bind_run.
  cbn [read outcome final trace]. rewrite Hc. by rewrite bind_run.
Qed.

Lemma gracefulExit_while_cleaning_up_witness :
  isCleaningUp (with_isCleaningUp true (world [("users", 10)] [] [])) = true
  /\ (let w := with_isCleaningUp true (world [("users", 10)] [] []) in
      let r := gracefulExit "SIGINT" w in
      outcome r = Exit 1
      /\ trace r = [Log (Text (nl +:+ "⚠ Force closing..."))]
      /\ final r = w).
Proof.
  split; [reflexivity|].
  apply (gracefulExit_while_cleaning_up "SIGINT"
           (with_isCleaningUp true (world [("users", 10)] [] []))).
  reflexivity.
Defined.

(** The handler sets the flag before anything else, so that a signal
    arriving during its wait or its restoring statement finds it set. *)
Lemma gracefulExit_sets_isCleaningUp (signal : string) (w : World) :
  isCleaningUp w = false ->
  isCleaningUp (final (gracefulExit signal w)) = true.
Proof.
  intros Hc. unfold gracefulExit. rewrite read_bind, Hc.
  cbn [when_]. rewrite ret_bind, update_bind.
  lazymatch goal with
  | |- isCleaningUp (final (?m ?u)) = _ =>
      assert (Hm : respects isCleaningUp anything anything nothing nothing m);
      [|by destruct (Hm u) as (-> & _)]
  end.
  logic.
  apply respects_try_catch with (Tb := nothing); [|by intros].
  unfold await_cleanupPromise. logic.
  apply respects_try_catch with (Tb := anything); [|intros; logic].
  logic. by apply respects_db_run.
Qed.

(** ** Selection by [--tables] *)

Lemma filterTables_run (allTables : list string) (c : ascii) (s : string)
  (w : World) :
  let names := requested_names (String c s) in
  let notFound :=
    List.filter (fun t => negb (JS.includes allTables t)) names in
  filterTables allTables (Some (String c s)) w =
  {| outcome := Ret (List.filter (JS.includes allTables) names);
     final := w;
     trace := if 0 <? length notFound
              then [Log (TablesNotFound notFound)] else [] |}.
Proof.
  cbv zeta. unfold filterTables. rewrite bind_run.
  destruct (0 <? length _); reflexivity.
Qed.

Lemma reported_filterTables (allTables : list string) (c : ascii) (s : string)
  (w : World) :
  reported (trace (filterTables allTables (Some (String c s)) w))
  = List.filter (fun t => negb (JS.includes allTables t))
      (requested_names (String c s)).
Proof.
  rewrite filterTables_run. cbn [trace].
  destruct (List.filter _ _) as [|x l] eqn:Hl; [done|].
  simpl. by rewrite app_nil_r.
Qed.

(** C1, as stated, fails: the selection follows the order of the
    request, not the order of discovery. *)
Lemma selection_follows_request_order :
  ~ selection_in_discovery_order ["sessions"; "users"] "users,sessions"
      (world [] [] []).
Proof.
  intros (selected & Ho & _ & Hsub & _).
  vm_compute in Ho. injection Ho as <-.
  repeat match goal with
         | H : sublist _ _ |- _ => inversion H; clear H; subst
         end.
Qed.

(** A name requested twice and missing is listed twice in the warning. *)
Example missing_name_reported_per_request :
  reported (trace (filterTables ["users"] (Some "ghost, users ,ghost")
                     (world [] [] [])))
  = ["ghost"; "ghost"].
Proof. vm_compute. reflexivity. Qed.

(** C1, amended. For a non-empty request, the selection holds exactly
    the requested names that were discovered, in the order and with the
    multiplicity of the request; the names that were not discovered are
    listed in a single warning, again in the order and with the
    multiplicity of the request; nothing else happens. *)
Theorem filterTables_selects_in_request_order (allTables : list string)
  (requestedTables : string) (w : World) :
  requestedTables <> "" ->
  let names := requested_names requestedTables in
  let r := filterTables allTables (Some requestedTables) w in
  exists selected,
    outcome r = Ret selected
    /\ final r = w
    /\ (forall t, t ∈ selected <-> t ∈ names /\ t ∈ allTables)
    /\ sublist selected names
    /\ (forall t, t ∈ allTables -> occurrences t selected = occurrences t names)
    /\ (forall t, t ∈ reported (trace r) <-> t ∈ names /\ t ∉ allTables)
    /\ sublist (reported (trace r)) names
    /\ (forall t, t ∉ allTables ->
                  occurrences t (reported (trace r)) = occurrences t names)
    /\ length (trace r) <= 1
    /\ ((forall t, t ∈ names -> t ∈ allTables) -> trace r = []).
Proof.
  intros Hne. destruct requestedTables as [|c s]; [done|]. cbv zeta.
  rewrite reported_filterTables, filterTables_run. cbn [outcome final trace].
  eexists. split; [reflexivity|]. split; [done|].
  split. { intros t. by rewrite elem_of_List_filter, includes_elem_of. }
  split. { apply filter_sublist. }
  split. { intros t Ht. apply occurrences_filter_true.
           by apply includes_elem_of. }
  split. { intros t. rewrite elem_of_List_filter, negb_true_iff.
           by rewrite includes_not_elem_of. }
  split. { apply filter_sublist. }
  split. { intros t Ht. apply occurrences_filter_true.
           apply negb_true_iff. by apply includes_not_elem_of. }
  split. { destruct (0 <? length _); simpl; lia. }
  intros Hall.
  destruct (List.filter _ _) as [|t l] eqn:Hl; [done|]. exfalso.
  assert (Ht : t ∈ List.filter
                     (fun t => negb (JS.includes allTables t))
                     (requested_names (String c s))).
  { rewrite Hl. by left. }
  apply elem_of_List_filter in Ht as [Hin Hout].
  apply negb_true_iff, includes_not_elem_of in Hout. by apply Hout, Hall.
Qed.

Lemma filterTables_selects_in_request_order_witness :
  "users, ghost ,sessions" <> ""
  /\ (let names := requested_names "users, ghost ,sessions" in
      let r := filterTables ["sessions"; "users"]
                 (Some "users, ghost ,sessions") (world [] [] []) in
      exists selected,
        outcome r = Ret selected
        /\ final r = world [] [] []
        /\ (forall t, t ∈ selected <->
                      t ∈ names /\ t ∈ ["sessions"; "users"])
        /\ sublist selected names
        /\ (forall t, t ∈ ["sessions"; "users"] ->
                      occurrences t selected = occurrences t names)
        /\ (forall t, t ∈ reported (trace r) <->
                      t ∈ names /\ t ∉ ["sessions"; "users"])
        /\ sublist (reported (trace r)) names
        /\ (forall t, t ∉ ["sessions"; "users"] ->
                      occurrences t (reported (trace r)) = occurrences t names)
        /\ length (trace r) <= 1
        /\ ((forall t, t ∈ names -> t ∈ ["sessions"; "users"]) ->
            trace r = [])).
Proof.
  split; [discriminate|].
  apply (filterTables_selects_in_request_order ["sessions"; "users"]
           "users, ghost ,sessions" (world [] [] [])).
  discriminate.
Defined.

(** ** The menu *)

Lemma prompt_run (text : string) (w : World) :
  prompt text w =
  {| outcome := Ret (next_answer w);
     final := with_stdin (tail (stdin w)) w;
     trace := [Prompt text (next_answer w)] |}.
Proof.
  unfold prompt, next_answer. destruct (stdin w) eqn:Hs; [|done].
  simpl. f_equal. destruct w; simpl in *; by subst.
Qed.

(** A computation that only prints returns and leaves the world as it
    was. *)
Lemma printing_run {A} (P : event -> Prop) (R : A -> Prop) (m : M A)
  (w : World) :
  respects (fun w => w) P nothing nothing R m ->
  exists a, m w = {| outcome := Ret a; final := w; trace := trace (m w) |}.
Proof.
  intros Hm. destruct (Hm w) as (Hw & _ & Ho).
  destruct (m w) as [[a|e|n] u tr]; simpl in *; [|done..].
  exists a. by subst.
Qed.

Lemma printing_trace {A} (P : event -> Prop) (R : A -> Prop) (m : M A)
  (w : World) :
  respects (fun w => w) P nothing nothing R m -> Forall P (trace (m w)).
Proof. intros Hm. by destruct (Hm w) as (_ & ? & _). Qed.

Lemma promptChoice_outcome (question : string) (choices : list string)
  (w : World) :
  outcome (promptChoice question choices w)
  = Ret (chosen (length choices) (JS.parseInt (or_zero (next_answer w)))).
Proof.
  unfold promptChoice. rewrite log_bind. cbn [outcome]. rewrite bind_run.
  destruct (printing_run anything anything (print_choices 0 choices) w)
    as ([] & ->); [by apply print_choices_spec|].
  cbn [outcome final]. rewrite bind_run, prompt_run. cbn [outcome final].
  unfold chosen.
  destruct (JS.parseInt _) as [choice|]; [|done].
  by destruct (_ && _).
Qed.

Lemma toString_not_empty (n : nat) : JS.toString n <> "".
Proof.
  unfold JS.toString. pose proof (to_uint_not_Nil n) as Hn.
  by destruct (Nat.to_uint n).
Qed.

(** C10. Whatever is typed and whatever the choices, [promptChoice]
    returns -1 or an index below the number of choices. It returns [i]
    exactly when [parseInt] reads the answer as [i + 1] and that lies
    between 1 and the number of choices; it returns -1 for every other
    answer, among them no answer and the empty answer. Typing the
    number of a choice selects that choice. *)
Theorem promptChoice_returns_index_or_minus_one (question : string)
  (choices : list string) (w : World) :
  let n := Z.of_nat (length choices) in
  let parsed := JS.parseInt (or_zero (next_answer w)) in
  exists r : Z,
    outcome (promptChoice question choices w) = Ret r
    /\ (r = (-1)%Z \/ (0 <= r < n)%Z)
    /\ (forall i : Z, (0 <= i)%Z ->
          r = i <-> parsed = Some (i + 1)%Z /\ (1 <= i + 1 <= n)%Z)
    /\ (r = (-1)%Z <-> ~ exists k, parsed = Some k /\ (1 <= k <= n)%Z)
    /\ (next_answer w = None \/ next_answer w = Some "" -> r = (-1)%Z)
    /\ (forall k : nat, 1 <= k <= length choices ->
          next_answer w = Some (JS.toString k) -> r = (Z.of_nat k - 1)%Z).
Proof.
  cbv zeta. rewrite promptChoice_outcome. eexists. split; [reflexivity|].
  assert (Hk : forall k : nat, 1 <= k <= length choices ->
            next_answer w = Some (JS.toString k) ->
            JS.parseInt (or_zero (next_answer w)) = Some (Z.of_nat k)).
  { intros k Hk ->. unfold or_zero.
    pose proof (toString_not_empty k) as Hne.
    destruct (JS.toString k) eqn:Hs; [done|].
    rewrite <- Hs. apply parseInt_toString. }
  assert (H0 : next_answer w = None \/ next_answer w = Some "" ->
            JS.parseInt (or_zero (next_answer w)) = Some 0%Z).
  { by intros [-> | ->]. }
  unfold chosen.
  destruct (JS.parseInt _) as [choice|].
  - destruct (_ && _) eqn:Hb.
    + apply andb_true_iff in Hb as [H1 H2].
      apply Z.leb_le in H1. apply Z.leb_le in H2.
      split; [lia|]. split.
      { intros i Hi. split; [intros; split; [f_equal|]; lia|].
        intros [[=] _]. lia. }
      split. { split; [lia|]. intros Hno. exfalso. apply Hno. by exists choice. }
      split. { intros Ha. specialize (H0 Ha) as [=]. lia. }
      intros k Hk0 Ha. specialize (Hk k Hk0 Ha) as [=]. lia.
    + apply andb_false_iff in Hb.
      assert (Hout : ~ (1 <= choice <= Z.of_nat (length choices))%Z).
      { rewrite Z.leb_gt, Z.leb_gt in Hb. lia. }
      split; [by left|]. split.
      { intros i Hi. split; [lia|]. intros [[=] ?]. lia. }
      split. { split; [|done]. intros _ (k & [=] & ?). lia. }
      split; [done|].
      intros k Hk0 Ha. specialize (Hk k Hk0 Ha) as [=]. lia.
  - split; [by left|]. split.
    { intros i Hi. split; [lia|]. by intros [[=] ?]. }
    split. { split; [|done]. by intros _ (k & [=] & ?). }
    split; [done|].
    intros k Hk0 Ha. by specialize (Hk k Hk0 Ha).
Qed.

Example promptChoice_examples :
  let ask answer :=
    outcome (promptChoice "What would you like to do?" ["a"; "b"; "c"]
               (world [] [] [answer])) in
  ask (Some "1") = Ret 0%Z /\ ask (Some " 3 ") = Ret 2%Z
  /\ ask (Some "2nd") = Ret 1%Z /\ ask (Some "4") = Ret (-1)%Z
  /\ ask (Some "0") = Ret (-1)%Z /\ ask (Some "-1") = Ret (-1)%Z
  /\ ask (Some "two") = Ret (-1)%Z /\ ask (Some "") = Ret (-1)%Z
  /\ ask None = Ret (-1)%Z.
Proof. vm_compute. repeat split. Qed.

(** ** Row deletion *)

Lemma reliable_head (w : World) :
  reliable w -> head (faults w) = None \/ head (faults w) = Some None.
Proof.
  unfold reliable. destruct (faults w) as [|f fs]; [by left|].
  intros Hf. apply Forall_cons in Hf as [-> _]. by right.
Qed.

Lemma reliable_tail (w : World) :
  reliable w -> reliable (with_faults (tail (faults w)) w).
Proof.
  unfold reliable. simpl. destruct (faults w) as [|f fs]; [done|].
  intros Hf. by apply Forall_cons in Hf as [_ ?].
Qed.

(** The world after a successful DELETE FROM "t" that followed a count. *)
Lemma delete_one_run (totalRows : nat) (t : string) (n : nat) (w : World) :
  reliable w -> quotable t = true -> master (db w) !! t = Some n ->
  exists w',
    delete_one totalRows t w =
      {| outcome := Ret (totalRows + n); final := w';
         trace := [Sql (SelectCount t) None; Sql (DeleteFrom t) None;
                   Log (RowsDeleted t n)] |}
    /\ master (db w') = <[t := 0]> (master (db w))
    /\ foreign_keys (db w') = foreign_keys (db w)
    /\ reliable w'.
Proof.
  intros Hrel Hq Ht. unfold delete_one. rewrite bind_run, count_run. cbv zeta.
  set (w1 := with_faults (tail (faults w)) w).
  assert (Hrel1 : reliable w1) by by apply reliable_tail.
  assert (Hstep : db_all (SelectCount t) w
                  = {| outcome := Ret [RCount n]; final := w1;
                       trace := [Sql (SelectCount t) None] |}).
  { rewrite count_run. cbv zeta.
    destruct (reliable_head w Hrel) as [-> | ->]; by rewrite Hq, Ht. }
  rewrite <- count_run, Hstep. cbn [outcome final trace first_count].
  rewrite bind_run. unfold db_run. rewrite bind_run. unfold db_all.
  change (db w1) with (db w). cbn [execute]. rewrite Hq, Ht.
  set (w2 := with_db _ (with_faults (tail (faults w1)) w1)).
  exists w2.
  split; [|split; [done|split; [done|by apply reliable_tail]]].
  destruct (reliable_head w1 Hrel1) as [-> | ->]; reflexivity.
Qed.

Lemma deleteTables_from_run (totalRows : nat) (tables : list string)
  (w : World) :
  reliable w ->
  quotable_names tables ->
  (forall t, t ∈ tables -> is_Some (master (db w) !! t)) ->
  let r := deleteTables_from totalRows tables w in
  outcome r
    = Ret (totalRows + sum_list (pre_delete_counts (master (db w)) tables))
  /\ master (db (final r)) = emptied (master (db w)) tables
  /\ foreign_keys (db (final r)) = foreign_keys (db w)
  /\ reliable (final r)
  /\ deleted_lines (trace r)
     = zip tables (pre_delete_counts (master (db w)) tables).
Proof.
  revert totalRows w. induction tables as [|t tables IH];
    intros totalRows w Hrel Hnames Hall; cbv zeta.
  { simpl. by rewrite Nat.add_0_r. }
  apply Forall_cons in Hnames as [Hq Hnames].
  destruct (Hall t) as [n Ht]; [by left|].
  cbn [deleteTables_from]. rewrite bind_run.
  destruct (delete_one_run totalRows t n w Hrel Hq Ht)
    as (w' & -> & Hm & Hfk & Hrel').
  cbn [outcome final trace].
  destruct (IH (totalRows + n) w' Hrel' Hnames)
    as (Ho & Hm' & Hfk' & Hrel'' & Hl).
  { intros t' Ht'. rewrite Hm. destruct (decide (t = t')) as [->|Hne].
    - rewrite lookup_insert_eq. by eexists.
    - rewrite lookup_insert_ne by done. apply Hall. by right. }
  rewrite Ho, Hm', Hfk', Hm. cbn [pre_delete_counts emptied foldl sum_list_with].
  rewrite Ht. simpl.
  split; [f_equal; lia|]. split; [done|]. split; [done|]. split; [done|].
  f_equal. by rewrite Hl, Hm.
Qed.

Lemma emptied_lookup_other (m : gmap string nat) (tables : list string)
  (t : string) :
  t ∉ tables -> emptied m tables !! t = m !! t.
Proof.
  revert m. induction tables as [|x tables IH]; intros m Ht; [done|].
  apply not_elem_of_cons in Ht as [Hne Ht].
  unfold emptied in *. cbn [foldl]. rewrite IH by done.
  by rewrite lookup_insert_ne.
Qed.

Lemma emptied_lookup (m : gmap string nat) (tables : list string) (t : string) :
  t ∈ tables -> emptied m tables !! t = Some 0.
Proof.
  revert m. induction tables as [|x tables IH]; intros m Ht.
  { by apply elem_of_nil in Ht. }
  unfold emptied in *. cbn [foldl].
  destruct (decide (t ∈ tables)) as [Hin|Hout]; [by apply IH|].
  apply elem_of_cons in Ht as [->|Hin]; [|done].
  fold (emptied (<[x:=0]> m) tables).
  rewrite emptied_lookup_other by done. apply lookup_insert_eq.
Qed.

Lemma emptied_again (m : gmap string nat) (tables : list string) :
  (forall t, t ∈ tables -> m !! t = Some 0) ->
  sum_list (pre_delete_counts m tables) = 0 /\ emptied m tables = m.
Proof.
  induction tables as [|x tables IH]; intros Hz; [done|].
  assert (Hx : m !! x = Some 0) by (apply Hz; by left).
  unfold emptied in *. cbn [pre_delete_counts foldl].
  rewrite (insert_id m x 0 Hx), Hx.
  apply IH. intros t Ht. apply Hz. by right.
Qed.




(** What the hypothesis on the names is for: a table whose name holds a
    double quote is neither counted nor emptied, the statements that
    name it being refused. *)
Example deleteTables_refuses_a_quote :
  let odd := "a" +:+ String (ascii_of_nat 34) "b" in
  let w := unenforced (world [(odd, 5)] [] []) in
  let r := deleteTables [odd] w in
  outcome r = Throw (not_parsed odd)
  /\ master (db (final r)) !! odd = Some 5.
Proof. vm_compute. done. Qed.

(** ** A request for a table that does not exist *)

Lemma user_tables_exist (d : Database) (t : string) :
  t ∈ user_tables d -> is_Some (master d !! t).
Proof.
  unfold user_tables. rewrite merge_sort_Permutation.
  rewrite elem_of_List_filter. intros [Ht _].
  by apply elem_of_elements, elem_of_dom in Ht.
Qed.

Lemma banner_run (values : Values) (w : World) :
  when_ (interactive values && negb (confirm values)) displayBanner w =
  {| outcome := Ret tt; final := w;
     trace := trace (when_ (interactive values && negb (confirm values))
                       displayBanner w) |}.
Proof.
  destruct (printing_run anything anything
              (when_ (interactive values && negb (confirm values))
                 displayBanner) w) as ([] & Hrun); [|done].
  logic. by apply displayBanner_spec.
Qed.

(** C8, as stated, fails on a database without any table: the run stops
    at "No tables found in database." before the selection is made. *)
Lemma ghost_on_empty_database :
  ~ ghost_scenario (flags false (Some "ghost") false false) (world [] [] []).
Proof.
  intros Hclaim.
  destruct Hclaim as (_ & Hin & _); [done..|].
  vm_compute in Hin.
  repeat (destruct Hin as [Hin|Hin]; [discriminate Hin|]). done.
Qed.

(** What is printed there instead. *)
Example ghost_on_empty_database_run :
  let r := entry (flags true (Some "ghost") false false) (world [] [] []) in
  outcome r = Exit 0
  /\ trace r = [Sql SelectTables None;
                Log (Text "ℹ No tables found in database.")].
Proof. vm_compute. done. Qed.

(** C8, amended. When the discovery query gets through and returns at
    least one table, none of them named ghost, [--tables=ghost] makes
    the run send the discovery query, warn that ghost was not found,
    select nothing, print "No tables to process." and exit with status
    0; the database is as before. *)
Theorem ghost_request_selects_nothing (values : Values) (w : World) :
  tables values = Some "ghost" ->
  master (db w) !! "ghost" = None ->
  next_call_passes w ->
  user_tables (db w) <> [] ->
  let r := entry values w in
  (forall w', outcome (selectTables values (operation_of values)
                         (user_tables (db w)) w') = Ret [])
  /\ trace r
     = trace (when_ (interactive values && negb (confirm values))
                displayBanner w)
       ++ [Sql SelectTables None; Log (TablesNotFound ["ghost"]);
           Log (Text "ℹ No tables to process.")]
  /\ Forall harmless (trace r)
  /\ db (final r) = db w
  /\ outcome r = Exit 0.
Proof.
  intros Hgiven Hghost Hpass Hsome. cbv zeta.
  assert (Hnot : JS.includes (user_tables (db w)) "ghost" = false).
  { apply includes_not_elem_of. intros Hin.
    apply user_tables_exist in Hin as [n Hn]. congruence. }
  assert (Hlen : (length (user_tables (db w)) =? 0) = false).
  { by destruct (user_tables (db w)). }
  assert (Hsel : forall w',
            selectTables values (operation_of values) (user_tables (db w)) w'
            = {| outcome := Ret []; final := w';
                 trace := [Log (TablesNotFound ["ghost"])] |}).
  { intros w'. unfold selectTables. rewrite Hgiven. cbn [given].
    rewrite filterTables_run. cbv zeta.
    change (requested_names "ghost") with ["ghost"].
    cbn [List.filter]. by rewrite Hnot. }
  split; [intros w'; by rewrite Hsel|].
  set (w0 := with_cleanupPromise true (with_isCleaningUp false w)).
  assert (Hall : getAllTables w0 =
            {| outcome := Ret (user_tables (db w));
               final := with_faults (tail (faults w)) w0;
               trace := [Sql SelectTables None] |}).
  { rewrite getAllTables_run. unfold next_call_passes in Hpass.
    change (faults w0) with (faults w). change (db w0) with (db w).
    by destruct (head (faults w)) as [[msg|]|]. }
  assert (Hbanner : trace (when_ (interactive values && negb (confirm values))
                             displayBanner w0)
                    = trace (when_ (interactive values && negb (confirm values))
                               displayBanner w)).
  { by destruct (interactive values && negb (confirm values)). }
  assert (Hrun : exists tr,
            cleanup values w0 =
              {| outcome := Exit 0;
                 final := with_faults (tail (faults w)) w0;
                 trace := tr |}
            /\ tr = trace (when_ (interactive values && negb (confirm values))
                             displayBanner w)
                    ++ [Sql SelectTables None;
                        Log (TablesNotFound ["ghost"]);
                        Log (Text "ℹ No tables to process.")]).
  { eexists. split.
    - unfold cleanup, spinner.
      eapply bind_ret_eq; [apply banner_run|].
      eapply bind_ret_eq; [apply Hall|].
      rewrite Hlen. cbn [when_]. rewrite ret_bind.
      eapply bind_ret_eq; [apply Hsel|].
      cbn [length Nat.eqb when_].
      apply bind_exit_eq.
      eapply bind_ret_eq; [apply log_run|]. reflexivity.
    - by rewrite Hbanner. }
  destruct Hrun as (tr & Hrun & ->).
  rewrite entry_cases. cbv zeta. fold w0. rewrite Hrun.
  cbn [outcome final trace].
  split; [done|]. split; [|done].
  apply Forall_app. split; [|by repeat constructor].
  destruct (interactive values && negb (confirm values)); by repeat constructor.
Qed.

Lemma ghost_request_selects_nothing_witness :
  tables (flags true (Some "ghost") false false) = Some "ghost"
  /\ master (db (world [("users", 10)] [] [])) !! "ghost" = None
  /\ next_call_passes (world [("users", 10)] [] [])
  /\ user_tables (db (world [("users", 10)] [] [])) <> []
  /\ (let values := flags true (Some "ghost") false false in
      let w := world [("users", 10)] [] [] in
      let r := entry values w in
      (forall w', outcome (selectTables values (operation_of values)
                             (user_tables (db w)) w') = Ret [])
      /\ trace r
         = trace (when_ (interactive values && negb (confirm values))
                    displayBanner w)
           ++ [Sql SelectTables None; Log (TablesNotFound ["ghost"]);
               Log (Text "ℹ No tables to process.")]
      /\ Forall harmless (trace r)
      /\ db (final r) = db w
      /\ outcome r = Exit 0).
Proof.
  assert (H1 : tables (flags true (Some "ghost") false false) = Some "ghost")
    by reflexivity.
  assert (H2 : master (db (world [("users", 10)] [] [])) !! "ghost" = None)
    by (vm_compute; reflexivity).
  assert (H3 : next_call_passes (world [("users", 10)] [] []))
    by (vm_compute; exact I).
  assert (H4 : user_tables (db (world [("users", 10)] [] [])) <> [])
    by (vm_compute; discriminate).
  split; [exact H1|]. split; [exact H2|]. split; [exact H3|].
  split; [exact H4|].
  exact (ghost_request_selects_nothing (flags true (Some "ghost") false false)
           (world [("users", 10)] [] []) H1 H2 H3 H4).
Defined.

(** ** The confirmation gate *)

Lemma lower_ascii_y (c : ascii) :
  JS.lower_ascii c = "y"%char <-> c = "y"%char \/ c = "Y"%char.
Proof.
  destruct c as [[] [] [] [] [] [] [] []]; vm_compute;
    (split; [intros [=]; auto|intros [[=]|[=]]; reflexivity]).
Qed.

Lemma lower_ascii_e (c : ascii) :
  JS.lower_ascii c = "e"%char <-> c = "e"%char \/ c = "E"%char.
Proof.
  destruct c as [[] [] [] [] [] [] [] []]; vm_compute;
    (split; [intros [=]; auto|intros [[=]|[=]]; reflexivity]).
Qed.

Lemma lower_ascii_s (c : ascii) :
  JS.lower_ascii c = "s"%char <-> c = "s"%char \/ c = "S"%char.
Proof.
  destruct c as [[] [] [] [] [] [] [] []]; vm_compute;
    (split; [intros [=]; auto|intros [[=]|[=]]; reflexivity]).
Qed.

(** The answers that lower-case to y or to yes are the ten affirmative
    ones. *)
Lemma toLowerCase_affirmative (r : string) :
  JS.toLowerCase r = "y" \/ JS.toLowerCase r = "yes"
  <-> r ∈ affirmative_answers.
Proof.
  unfold affirmative_answers. split.
  - intros [H|H].
    + destruct r as [|c [|c' r']]; try discriminate H.
      injection H as H. apply lower_ascii_y in H as [-> | ->];
        repeat constructor.
    + destruct r as [|c1 [|c2 [|c3 [|c4 r']]]]; try discriminate H.
      injection H as H1 H2 H3.
      apply lower_ascii_y in H1 as [-> | ->];
        apply lower_ascii_e in H2 as [-> | ->];
        apply lower_ascii_s in H3 as [-> | ->]; repeat constructor.
  - intros H. repeat (apply elem_of_cons in H as [->|H]; [vm_compute; auto|]).
    by apply elem_of_nil in H.
Qed.

Lemma accepts_affirmative (response : option string) :
  accepts response = true <-> affirmative response.
Proof.
  unfold affirmative. destruct response as [r|]; simpl.
  - assert (Hr : accepts (Some r) = true <-> r ∈ affirmative_answers).
    { rewrite <- toLowerCase_affirmative. destruct r as [|c r].
      - simpl. split; [done|]. by intros [|].
      - change (accepts (Some (String c r)))
          with (String.eqb (JS.toLowerCase (String c r)) "y"
                || String.eqb (JS.toLowerCase (String c r)) "yes").
        by rewrite orb_true_iff, !String.eqb_eq. }
    rewrite Hr. split; [by exists r|]. by intros (? & [= <-] & ?).
  - split; [done|]. by intros (? & [=] & _).
Qed.

Lemma promptYesNo_run (question : string) (w : World) :
  promptYesNo question false w =
  {| outcome := Ret (accepts (next_answer w));
     final := with_stdin (tail (stdin w)) w;
     trace := [Prompt (yes_no_text question false) (next_answer w)] |}.
Proof.
  unfold promptYesNo. rewrite bind_run, prompt_run.
  cbn [outcome final trace].
  destruct (next_answer w) as [[|c r]|]; reflexivity.
Qed.

Lemma displayWarning_run (operation : Operation) (w : World) :
  displayWarning operation w =
  {| outcome := Ret tt; final := w;
     trace := map (fun l => Log (Text l))
                ("" :: warning_lines operation ++ [""]) |}.
Proof. by destruct operation. Qed.

(** ** The destructive phase *)

Lemma foreign_keys_run (on : bool) (w : World) :
  db_run (ForeignKeys on) w =
  match head (faults w) with
  | Some (Some msg) =>
      {| outcome := Throw msg; final := with_faults (tail (faults w)) w;
         trace := [Sql (ForeignKeys on) (Some msg)] |}
  | _ =>
      {| outcome := Ret tt;
         final := with_db {| master := master (db w); foreign_keys := on |}
                    (with_faults (tail (faults w)) w);
         trace := [Sql (ForeignKeys on) None] |}
  end.
Proof.
  unfold db_run. rewrite bind_run. unfold db_all.
  destruct (head (faults w)) as [[msg|]|]; reflexivity.
Qed.

(** The branch of the operation sends no PRAGMA, leaves the enforcement
    and the flag alone, and returns or throws. *)
Lemma operate_spec (operation : Operation) (tablesToProcess : list string) :
  respects enforcement no_pragma nothing anything anything
    (operate operation tablesToProcess).
Proof.
  unfold operate. destruct operation; logic.
  - apply deleteTables_from_spec; try done.
    + by intros [] ? [=].
    + intros w d Hd. unfold enforcement. simpl. by rewrite Hd.
  - apply resetSequences_spec; try done.
    + by intros [] ? [=].
    + intros w d Hd. unfold enforcement. simpl. by rewrite Hd.
  - apply dropTables_spec; try done.
    intros w d Hd. unfold enforcement. simpl. by rewrite Hd.
Qed.

(** The catch block: it prints the error, tries once to switch
    enforcement back on when the flag is set, and throws the error
    again. *)
Lemma destructive_handler_run (error : string) (w : World) :
  exists w' tr,
    destructive_handler error w =
      {| outcome := Throw error; final := w'; trace := handler_lines error ++ tr |}
    /\ foreignKeysDisabled w' = foreignKeysDisabled w
    /\ if foreignKeysDisabled w
       then exists fkError,
              tr = restore_events fkError
              /\ foreign_keys (db w')
                 = restored fkError || foreign_keys (db w)
       else tr = [] /\ foreign_keys (db w') = foreign_keys (db w).
Proof.
  unfold destructive_handler, handler_lines.
  destruct (foreignKeysDisabled w) eqn:Hflag.
  - destruct (head (faults w)) as [[msg|]|] eqn:Hf.
    + exists (with_faults (tail (faults w)) w), (restore_events (Some msg)).
      split; [|split; [done|by exists (Some msg)]].
      eapply with_trace.
      { do 3 (eapply bind_ret_eq; [apply log_run|]).
        rewrite read_bind, Hflag. cbn [when_].
        eapply bind_ret_eq; [|reflexivity].
        eapply try_catch_throw_eq.
        - apply bind_throw_eq. rewrite foreign_keys_run, Hf. reflexivity.
        - eapply bind_ret_eq; [apply log_run|]. apply log_run. }
      reflexivity.
    + exists (with_db {| master := master (db w); foreign_keys := true |}
                (with_faults (tail (faults w)) w)), (restore_events None).
      split; [|split; [done|by exists None]].
      eapply with_trace.
      { do 3 (eapply bind_ret_eq; [apply log_run|]).
        rewrite read_bind, Hflag. cbn [when_].
        eapply bind_ret_eq; [|reflexivity].
        apply try_catch_ret_eq.
        eapply bind_ret_eq; [|apply log_run].
        rewrite foreign_keys_run, Hf. reflexivity. }
      reflexivity.
    + exists (with_db {| master := master (db w); foreign_keys := true |}
                (with_faults (tail (faults w)) w)), (restore_events None).
      split; [|split; [done|by exists None]].
      eapply with_trace.
      { do 3 (eapply bind_ret_eq; [apply log_run|]).
        rewrite read_bind, Hflag. cbn [when_].
        eapply bind_ret_eq; [|reflexivity].
        apply try_catch_ret_eq.
        eapply bind_ret_eq; [|apply log_run].
        rewrite foreign_keys_run, Hf. reflexivity. }
      reflexivity.
  - exists w, []. split; [|done].
    eapply with_trace.
    { do 3 (eapply bind_ret_eq; [apply log_run|]).
      rewrite read_bind, Hflag. cbn [when_]. rewrite ret_bind. reflexivity. }
    reflexivity.
Qed.

(** Every run of the destructive phase has one of the four shapes. *)
Lemma performCleanup_shape (operation : Operation)
  (tablesToProcess : list string) (w : World) :
  let r := performCleanup operation tablesToProcess w in
  phase_shape (foreign_keys (db w)) (outcome r) (trace r)
    (foreign_keys (db (final r))) (foreignKeysDisabled (final r)).
Proof.
  cbv zeta. unfold performCleanup.
  set (title := ("🗑️  " +:+ _)%string).
  destruct (printing_run no_pragma anything (section title) w) as ([] & Hsec).
  { by apply section_spec. }
  assert (Hpre : Forall no_pragma (trace (section title w))).
  { apply (printing_trace no_pragma anything). by apply section_spec. }
  set (pre := trace (section title w)) in *.
  set (w0 := with_foreignKeysDisabled false w).
  assert (Hstart : forall r : Result unit,
            try_catch (destructive_body operation tablesToProcess)
              destructive_handler w0 = r ->
            (section title
             ≫= (fun _ => update (with_foreignKeysDisabled false)
                   ≫= fun _ => try_catch
                                 (destructive_body operation tablesToProcess)
                                 destructive_handler)) w
            = {| outcome := outcome r; final := final r;
                 trace := pre ++ trace r |}).
  { intros r <-. rewrite (bind_after _ _ _ _ _ _ Hsec).
    by rewrite update_bind. }
  unfold destructive_body in *.
  destruct (head (faults w0)) as [[msg|]|] eqn:Hf.
  { (* the disabling PRAGMA fails *)
    destruct (destructive_handler_run msg (with_faults (tail (faults w0)) w0))
      as (w' & tr & Hh & Hflag & Htr).
    cbn [foreignKeysDisabled with_faults w0 with_foreignKeysDisabled] in Htr.
    destruct Htr as [-> Hfk].
    erewrite Hstart.
    2: { eapply try_catch_throw_eq; [|apply Hh].
         apply bind_throw_eq. rewrite foreign_keys_run, Hf. reflexivity. }
    cbn [outcome final trace]. rewrite Hfk, Hflag, app_nil_r.
    by apply disable_fails. }
  all: set (w2 := with_foreignKeysDisabled true
                    (with_db {| master := master (db w0);
                                foreign_keys := false |}
                       (with_faults (tail (faults w0)) w0)));
    destruct (operate_spec operation tablesToProcess w2) as (Hv & Hmid & Ho);
    destruct (operate operation tablesToProcess w2) as [o w3 mid] eqn:Hop;
    cbn [outcome final trace] in Hv, Hmid, Ho;
    assert (Hflag3 : foreignKeysDisabled w3 = true) by (by inversion Hv);
    assert (Hfk3 : foreign_keys (db w3) = false) by (by inversion Hv);
    (destruct o as [n|e|n]; [|clear Ho|done]);
    [destruct (head (faults w3)) as [[msg|]|] eqn:Hf3;
     [(* the enabling PRAGMA fails *)
      destruct (destructive_handler_run msg (with_faults (tail (faults w3)) w3))
        as (w' & tr & Hh & Hflag & Htr);
      cbn [foreignKeysDisabled with_faults db] in Htr, Hflag;
      rewrite Hflag3 in Htr; destruct Htr as (fkError & -> & Hfk);
      (erewrite Hstart;
       [|eapply try_catch_throw_eq; [|apply Hh];
         eapply bind_ret_eq; [rewrite foreign_keys_run, Hf; reflexivity|];
         rewrite update_bind; fold w2;
         eapply bind_ret_eq; [apply Hop|];
         apply bind_throw_eq; rewrite foreign_keys_run, Hf3; reflexivity]);
      cbn [outcome final trace app];
      rewrite Hfk, Hflag, Hflag3, Hfk3, orb_false_r;
      rewrite <- ?app_assoc; cbn [app]; by apply enable_fails
     |(* the phase succeeds *)
      set (stats := {| tablesProcessed := length tablesToProcess;
                       totalRowsDeleted := n |});
      set (w5 := with_foreignKeysDisabled false
                   (with_db {| master := master (db w3); foreign_keys := true |}
                      (with_faults (tail (faults w3)) w3)));
      destruct (printing_run no_pragma anything
                  (displayResults stats operation) w5)
        as ([] & Hres); [by apply displayResults_spec|];
      assert (Hpost : Forall no_pragma
                        (trace (displayResults stats operation w5)))
        by (apply (printing_trace no_pragma anything);
            by apply displayResults_spec);
      (erewrite Hstart;
       [|apply try_catch_ret_eq;
         eapply bind_ret_eq; [rewrite foreign_keys_run, Hf; reflexivity|];
         rewrite update_bind; fold w2;
         eapply bind_ret_eq; [apply Hop|];
         eapply bind_ret_eq; [rewrite foreign_keys_run, Hf3; reflexivity|];
         rewrite update_bind; fold w5; apply Hres]);
      cbn [outcome final trace app]; rewrite <- ?app_assoc; cbn [app];
      by apply phase_succeeds ..]
    |(* the operation fails *)
     destruct (destructive_handler_run e w3) as (w' & tr & Hh & Hflag & Htr);
     rewrite Hflag3 in Htr; destruct Htr as (fkError & -> & Hfk);
     (erewrite Hstart;
      [|eapply try_catch_throw_eq; [|apply Hh];
        eapply bind_ret_eq; [rewrite foreign_keys_run, Hf; reflexivity|];
        rewrite update_bind; fold w2;
        apply bind_throw_eq; apply Hop]);
     cbn [outcome final trace app];
     rewrite Hfk, Hflag, Hflag3, Hfk3, orb_false_r;
     by apply operation_fails].
Qed.

(** ** Counting the PRAGMAs of the phase *)

Lemma count_app (p : event -> bool) (a b : list event) :
  count p (a ++ b) = count p a + count p b.
Proof. unfold count. by rewrite List.filter_app, List.length_app. Qed.

Lemma count_cons (p : event -> bool) (e : event) (tr : list event) :
  count p (e :: tr) = (if p e then 1 else 0) + count p tr.
Proof. unfold count. simpl. by destruct (p e). Qed.

Lemma count_no_pragma (p : event -> bool) (tr : list event) :
  (forall e, no_pragma e -> p e = false) ->
  Forall no_pragma tr -> count p tr = 0.
Proof.
  intros Hp Htr. induction Htr as [|e tr He _ IH]; [done|].
  by rewrite count_cons, IH, (Hp e He).
Qed.

Lemma disable_done_no_pragma (e : event) : no_pragma e -> disable_done e = false.
Proof. by destruct e as [| |[] []]. Qed.

Lemma enable_done_no_pragma (e : event) : no_pragma e -> enable_done e = false.
Proof. by destruct e as [| |[] []]. Qed.

Lemma enable_sent_no_pragma (e : event) : no_pragma e -> enable_sent e = false.
Proof. by destruct e as [| |[] []]. Qed.

Ltac count_pragmas :=
  unfold disables, enables, enable_attempts, handler_lines, restore_events;
  repeat first
    [ rewrite count_app
    | rewrite count_cons
    | rewrite (count_no_pragma disable_done) by
        first [assumption | apply disable_done_no_pragma]
    | rewrite (count_no_pragma enable_done) by
        first [assumption | apply enable_done_no_pragma]
    | rewrite (count_no_pragma enable_sent) by
        first [assumption | apply enable_sent_no_pragma] ];
  cbn [disable_done enable_done enable_sent count List.filter length].

(** C3, as stated, fails: a phase that succeeds switches enforcement
    off once and on once. *)
Lemma successful_phase_is_balanced :
  ~ one_more_enable_than_disable Delete ["users"] (world [("users", 10)] [] []).
Proof.
  unfold one_more_enable_than_disable. vm_compute. by intros [|].
Qed.

(** C3, amended. In every run of the destructive phase enforcement is
    switched off at most once, is never switched on more often than
    off, and switching it on is attempted at least as often as it was
    switched off and at most once more. A phase that succeeds switches
    it off once and on once, and ends with enforcement on and the flag
    cleared. Whenever the two counts agree, enforcement ends on, or as
    it was when it was never switched off. The flag ends set exactly
    when enforcement was switched off and the phase failed; the phase
    never exits the process. *)
Theorem enforcement_is_rebalanced (operation : Operation)
  (tablesToProcess : list string) (w : World) :
  let r := performCleanup operation tablesToProcess w in
  let tr := trace r in
  disables tr <= 1
  /\ enables tr <= disables tr
  /\ disables tr <= enable_attempts tr <= disables tr + 1
  /\ (outcome r = Ret tt ->
      disables tr = 1 /\ enables tr = 1 /\ enable_attempts tr = 1
      /\ foreign_keys (db (final r)) = true
      /\ foreignKeysDisabled (final r) = false)
  /\ (enables tr = disables tr ->
      foreign_keys (db (final r))
      = if disables tr =? 0 then foreign_keys (db w) else true)
  /\ (foreignKeysDisabled (final r) = true <->
      disables tr = 1 /\ outcome r <> Ret tt)
  /\ (forall n, outcome r <> Exit n).
Proof.
  cbv zeta.
  pose proof (performCleanup_shape operation tablesToProcess w) as Hshape.
  cbv zeta in Hshape. revert Hshape.
  generalize (outcome (performCleanup operation tablesToProcess w)),
    (trace (performCleanup operation tablesToProcess w)),
    (foreign_keys (db (final (performCleanup operation tablesToProcess w)))),
    (foreignKeysDisabled (final (performCleanup operation tablesToProcess w))).
  intros o tr fk flag Hshape.
  destruct Hshape as [pre mid post Hpre Hmid Hpost|pre e Hpre
                     |pre mid e fkError Hpre Hmid|pre mid e fkError Hpre Hmid];
    try destruct fkError as [msg|]; count_pragmas;
    repeat split; try done; try lia; intros; try done; try lia;
    try (exfalso; lia); try (by destruct_and?).
Qed.

(** ** Failure of the destructive phase *)

(** A failed phase has printed its error and thrown it again; in
    between it has tried once to restore enforcement if and only if it
    had switched it off. *)
Lemma failed_phase_is_reported_and_rethrown (operation : Operation)
  (tablesToProcess : list string) (w : World) (error : string) :
  let r := performCleanup operation tablesToProcess w in
  outcome r = Throw error ->
  exists before after,
    trace r = before ++ handler_lines error ++ after
    /\ (disables before = 0 /\ after = []
        \/ disables before = 1
           /\ exists fkError, after = restore_events fkError).
Proof.
  cbv zeta.
  pose proof (performCleanup_shape operation tablesToProcess w) as Hshape.
  cbv zeta in Hshape. revert Hshape.
  generalize (outcome (performCleanup operation tablesToProcess w)),
    (trace (performCleanup operation tablesToProcess w)),
    (foreign_keys (db (final (performCleanup operation tablesToProcess w)))),
    (foreignKeysDisabled (final (performCleanup operation tablesToProcess w))).
  intros o tr fk flag Hshape Ho.
  destruct Hshape as [pre mid post Hpre Hmid Hpost|pre e Hpre
                     |pre mid e fkError Hpre Hmid|pre mid e fkError Hpre Hmid];
    [done|injection Ho as ->..].
  - exists (pre ++ [Sql (ForeignKeys false) (Some error)]), [].
    split; [by rewrite <- app_assoc, app_nil_r|]. left.
    split; [|done]. by count_pragmas.
  - exists (pre ++ Sql (ForeignKeys false) None :: mid), (restore_events fkError).
    split; [by rewrite <- !app_assoc|]. right.
    split; [|by exists fkError]. count_pragmas. lia.
  - exists (pre ++ Sql (ForeignKeys false) None
                :: mid ++ [Sql (ForeignKeys true) (Some error)]),
      (restore_events fkError).
    split. { rewrite <- !app_assoc. cbn [app]. by rewrite <- !app_assoc. }
    right. split; [|by exists fkError]. count_pragmas. lia.
Qed.

(** The main function exits with status 0 only, and leaves
    [isCleaningUp] alone. *)
Lemma cleanup_spec (values : Values) :
  respects isCleaningUp anything (eq 0) anything anything (cleanup values).
Proof.
  assert (Hon : forall (on : bool) (R : unit -> Prop), R tt ->
            respects isCleaningUp anything (eq 0) anything R
              (db_run (ForeignKeys on))).
  { intros on R HR. by apply respects_db_run. }
  unfold cleanup. logic.
  - by apply displayBanner_spec.
  - by apply getAllTables_spec.
  - by apply selectTables_spec.
  - by apply getTableStats_spec.
  - by apply displayTableStats_spec.
  - unfold confirmOperation. logic.
    + by apply displayWarning_spec.
    + by apply promptYesNo_spec.
  - unfold performCleanup. logic; [by apply section_spec|].
    apply respects_try_catch with (Tb := anything).
    + unfold destructive_body. logic; [by apply Hon| |by apply Hon
                                       |by apply displayResults_spec].
      unfold operate. logic.
      * by apply deleteTables_from_spec.
      * by apply resetSequences_spec.
      * by apply dropTables_spec.
    + intros e _. unfold destructive_handler. logic.
      apply respects_try_catch with (Tb := anything); [|intros; logic].
      logic. by apply Hon.
Qed.

(** Outside the handling of a signal, the exit handler ends the
    process with status 0. *)
Lemma gracefulExit_exits_with_zero (signal : string) (w : World) :
  isCleaningUp w = false -> outcome (gracefulExit signal w) = Exit 0.
Proof.
  intros Hc. unfold gracefulExit. rewrite read_bind, Hc.
  cbn [when_]. rewrite ret_bind, update_bind.
  lazymatch goal with
  | |- outcome (?m ?u) = _ =>
      assert (Hm : respects isCleaningUp anything (eq 0) nothing nothing m);
      [|destruct (Hm u) as (_ & _ & Ho); destruct (outcome (m u)); by subst]
  end.
  logic.
  apply respects_try_catch with (Tb := nothing); [|by intros].
  unfold await_cleanupPromise. logic.
  apply respects_try_catch with (Tb := anything); [|intros; logic].
  logic. by apply respects_db_run.
Qed.

Lemma onRejected_exits_with_zero (error : string) (w : World) :
  isCleaningUp w = false -> outcome (onRejected error w) = Exit 0.
Proof.
  intros Hc. unfold onRejected. rewrite !log_bind. cbn [outcome].
  rewrite bind_run, (gracefulExit_exits_with_zero "error" w Hc). done.
Qed.

(** However the run goes, the process ends with status 0: the status 1
    of the rejection handler (line 609) is never reached, because the
    exit handler it waits for has already ended the process (line
    574). *)
Lemma entry_exits_with_zero (values : Values) (w : World) :
  exit_status (outcome (entry values w)) = 0.
Proof.
  rewrite entry_cases. cbv zeta.
  set (w0 := with_cleanupPromise true (with_isCleaningUp false w)).
  destruct (cleanup_spec values w0) as (Hv & _ & Ho).
  destruct (outcome (cleanup values w0)) as [[]|e|n]; cbn [outcome].
  - done.
  - by rewrite onRejected_exits_with_zero.
  - by subst.
Qed.

(** C2, on a run that fails while deleting: the error is printed by the
    catch block, enforcement is restored, the error reaches the
    rejection handler, and the process then exits with status 0. *)
Theorem failed_deletion_exits_with_status_zero :
  let r := entry (flags true (Some "users") false false)
             (world [("users", 10)]
                [None; None; None; None; Some "connection lost"] []) in
  outcome r = Exit 0
  /\ skipn 12 (trace r) =
         [ Sql (DeleteFrom "users") (Some "connection lost");
           Log (Text "");
           Log (Text "✗ Error during cleanup:");
           Log (Text "  connection lost");
           Sql (ForeignKeys true) None;
           Log (Text "✓ Database state restored");
           Log (Text "");
           Log (Text "✗ Unexpected error:");
           Log (Text "  connection lost");
           Log (Text (nl +:+ nl +:+ "⚠ Received error, cleaning up..."));
           Sql (ForeignKeys true) None;
           Log (Text "✓ Database state restored");
           Log (Text ("Goodbye!" +:+ nl)) ].
Proof.
  cbv zeta. split; by vm_compute.
Qed.

(** ** The run up to the confirmation *)


Lemma run_eta {A} (r : Result A) :
  r = {| outcome := outcome r; final := final r; trace := trace r |}.
Proof. by destruct r. Qed.

Lemma try_catch_exit_eq {A} (body : M A) (handler : string -> M A)
  (w w1 : World) (n : nat) (tr : list event) :
  body w = {| outcome := Exit n; final := w1; trace := tr |} ->
  try_catch body handler w = {| outcome := Exit n; final := w1; trace := tr |}.
Proof. intros Hb. by rewrite try_catch_run, Hb. Qed.

Lemma opening_run (values : Values) (w : World) :
  when_ (interactive values && negb (confirm values)) displayBanner w =
  {| outcome := Ret tt; final := w; trace := opening values |}.
Proof. unfold opening. by destruct (_ && _). Qed.

Lemma opening_harmless (values : Values) : Forall harmless (opening values).
Proof. unfold opening. destruct (_ && _); by repeat constructor. Qed.

Lemma section_run (title : string) (w : World) :
  section title w =
  {| outcome := Ret tt; final := w;
     trace := [Log (Text (nl +:+ title));
               Log (Text (repeat_string "─" 60))] |}.
Proof. reflexivity. Qed.

Lemma print_stats_run (stats : list TableStats) (operation : Operation)
  (w : World) :
  print_stats stats operation w =
  {| outcome := Ret tt; final := w;
     trace := map (fun stat =>
                     Log (TableLine (name stat)
                            (match operation with
                             | Delete => Some (rowCount stat)
                             | Drop => None
                             end))) stats |}.
Proof.
  induction stats as [|stat stats IH]; [done|].
  cbn [print_stats map]. by rewrite log_bind, IH.
Qed.

Lemma when_log_run (b : bool) (o : output) (w : World) :
  when_ b (console_log o) w =
  {| outcome := Ret tt; final := w; trace := if b then [Log o] else [] |}.
Proof. by destruct b. Qed.

Lemma displayTableStats_run (stats : list TableStats) (operation : Operation)
  (w : World) :
  displayTableStats stats operation w =
  {| outcome := Ret tt; final := w; trace := preview_events stats operation |}.
Proof.
  unfold displayTableStats. cbv zeta. eapply with_trace.
  { eapply bind_ret_eq; [apply section_run|].
    eapply bind_ret_eq; [apply print_stats_run|].
    eapply bind_ret_eq; [apply log_run|].
    eapply bind_ret_eq; [apply log_run|].
    apply when_log_run. }
  reflexivity.
Qed.



(** The selection reads answers and prints; it never throws, exits
    with status 0 only and returns discovered tables only. *)
Lemma selectTables_settled (values : Values) (operation : Operation)
  (allTables : list string) :
  respects settled harmless (eq 0) nothing (Forall (fun x => x ∈ allTables))
    (selectTables values operation allTables).
Proof.
  assert (Hall : Forall (fun x => x ∈ allTables) allTables).
  { by apply Forall_forall. }
  unfold selectTables. destruct (given (tables values)).
  - unfold filterTables. destruct (tables values) as [[|c s]|]; logic.
    apply Forall_forall. intros x Hx.
    apply elem_of_List_filter in Hx as [_ Hx]. by apply includes_elem_of.
  - destruct (_ && _); logic. by apply promptChoice_spec.
Qed.

(** The main function when the discovery query fails. *)
Lemma cleanup_without_discovery (values : Values) (w : World) (msg : string) :
  head (faults w) = Some (Some msg) ->
  cleanup values w =
  {| outcome := Throw msg; final := with_faults (tail (faults w)) w;
     trace := opening values ++ [Sql SelectTables (Some msg)] |}.
Proof.
  intros Hhead. unfold cleanup.
  eapply bind_ret_eq; [apply opening_run|].
  apply bind_throw_eq. unfold spinner. by rewrite getAllTables_run, Hhead.
Qed.

(** The main function once discovery has answered, up to the point
    where the preview has been shown: what remains is the dry-run exit,
    the confirmation and the destructive phase. *)
Lemma cleanup_after_discovery (values : Values) (w : World) :
  next_call_passes w ->
  let operation := operation_of values in
  let w1 := with_faults (tail (faults w)) w in
  let selecting := selectTables values operation (user_tables (db w)) w1 in
  match user_tables (db w) with
  | [] =>
      cleanup values w =
      {| outcome := Exit 0; final := w1;
         trace := opening values
                  ++ [Sql SelectTables None;
                      Log (Text "ℹ No tables found in database.")] |}
  | _ :: _ =>
      match outcome selecting with
      | Ret [] =>
          cleanup values w =
          {| outcome := Exit 0; final := final selecting;
             trace := opening values
                      ++ Sql SelectTables None
                      :: trace selecting
                      ++ [Log (Text "ℹ No tables to process.")] |}
      | Ret selected =>
          exists counts stats w3,
            map name stats = selected
            /\ Forall2 (counted (db w)) counts stats
            /\ settled w3 = settled w
            /\ stdin w3 = stdin (final selecting)
            /\ let rest :=
                 (when_ (dry_run values)
                    (console_log (Text "ℹ DRY RUN - No changes will be made");;
                     process_exit 0);;
                  confirmOperation values operation;;
                  performCleanup operation selected) w3 in
               cleanup values w =
               {| outcome := outcome rest; final := final rest;
                  trace := opening values
                           ++ Sql SelectTables None
                           :: trace selecting ++ counts
                           ++ preview_events stats operation ++ trace rest |}
      | Throw _ => False
      | Exit n =>
          n = 0
          /\ cleanup values w =
             {| outcome := Exit 0; final := final selecting;
                trace := opening values
                         ++ Sql SelectTables None :: trace selecting |}
      end
  end.
Proof.
  intros Hpass. cbv zeta.
  set (operation := operation_of values).
  set (w1 := with_faults (tail (faults w)) w).
  assert (Hget : spinner getAllTables "Loading database tables" w
                 = {| outcome := Ret (user_tables (db w)); final := w1;
                      trace := [Sql SelectTables None] |}).
  { unfold spinner. rewrite getAllTables_run. unfold next_call_passes in Hpass.
    by destruct (head (faults w)) as [[msg|]|]. }
  destruct (user_tables (db w)) as [|a allTables].
  { unfold cleanup. eapply bind_ret_eq; [apply opening_run|].
    eapply with_trace.
    { eapply bind_ret_eq; [apply Hget|]. cbn [length Nat.eqb when_].
      apply bind_exit_eq. reflexivity. }
    reflexivity. }
  destruct (selectTables_settled values operation (a :: allTables) w1)
    as (_ & _ & Hout).
  pose proof (run_eta (selectTables values operation (a :: allTables) w1))
    as Hsel.
  destruct (outcome (selectTables values operation (a :: allTables) w1))
    as [[|t selected]|e|n]; [| |done|].
  - unfold cleanup. eapply bind_ret_eq; [apply opening_run|].
    eapply with_trace.
    { eapply bind_ret_eq; [apply Hget|]. cbn [length Nat.eqb when_].
      rewrite ret_bind. cbv zeta. fold operation.
      eapply bind_ret_eq; [apply Hsel|]. reflexivity. }
    reflexivity.
  - set (w2 := final (selectTables values operation (a :: allTables) w1)) in *.
    destruct (selectTables_settled values operation (a :: allTables) w1)
      as (Hset2 & _ & _). fold w2 in Hset2.
    destruct (getTableStats_from_run [] (t :: selected) w2)
      as (stats & Ho & Hnames & Hset3 & _ & Hcounts).
    assert (Hkeep : respects stdin anything (eq 0) anything anything
                      (getTableStats (t :: selected))).
    { apply getTableStats_spec; by intros. }
    destruct (Hkeep w2) as (Hin3 & _ & _).
    pose proof (run_eta (getTableStats (t :: selected) w2)) as Hstats.
    change (getTableStats_from [] (t :: selected) w2)
      with (getTableStats (t :: selected) w2) in Ho, Hset3, Hcounts.
    rewrite Ho in Hstats. cbn [app] in Hstats.
    set (w3 := final (getTableStats (t :: selected) w2)) in *.
    exists (trace (getTableStats (t :: selected) w2)), stats, w3.
    split; [done|].
    assert (Hdb2 : db w2 = db w) by (by inversion Hset2).
    split; [by rewrite <- Hdb2|].
    split; [by rewrite Hset3, Hset2|]. split; [done|].
    unfold cleanup. eapply bind_ret_eq; [apply opening_run|].
    eapply with_trace.
    { eapply bind_ret_eq; [apply Hget|]. cbn [length Nat.eqb when_].
      rewrite ret_bind. cbv zeta. fold operation.
      eapply bind_ret_eq; [apply Hsel|]. cbn [length Nat.eqb when_].
      rewrite ret_bind. fold w2.
      eapply bind_ret_eq; [apply Hstats|].
      eapply bind_ret_eq; [apply displayTableStats_run|].
      apply run_eta. }
    reflexivity.
  - subst n. split; [done|].
    unfold cleanup. eapply bind_ret_eq; [apply opening_run|].
    eapply with_trace.
    { eapply bind_ret_eq; [apply Hget|]. cbn [length Nat.eqb when_].
      rewrite ret_bind. cbv zeta. fold operation.
      apply bind_exit_eq. apply Hsel. }
    reflexivity.
Qed.




(** The exit handler, entered when it is not already running and with
    nothing left to wait for (from the rejection handler, or from a
    signal while no main flow is pending): one notice, one restoring
    PRAGMA, its result, the farewell, status 0. *)
Lemma gracefulExit_run (signal : string) (w : World) :
  isCleaningUp w = false ->
  exists err w',
    gracefulExit signal w =
    {| outcome := Exit 0; final := w';
       trace := [Log (Text (nl +:+ nl +:+ "⚠ Received " +:+ signal +:+
                            ", cleaning up..."));
                 Sql (ForeignKeys true) err;
                 Log (Text (restore_notice err));
                 Log (Text ("Goodbye!" +:+ nl))] |}
    /\ (err = None <-> next_call_passes w)
    /\ isCleaningUp w' = true
    /\ master (db w') = master (db w)
    /\ foreign_keys (db w')
       = match err with
         | None => true
         | Some _ => foreign_keys (db w)
         end.
Proof.
  intros Hc.
  set (w1 := with_isCleaningUp true w).
  assert (Hwait : await_cleanupPromise w1
                  = {| outcome := Ret tt; final := w1; trace := [] |}).
  { unfold await_cleanupPromise. rewrite read_bind.
    by destruct (cleanupPromise w1). }
  assert (Hrestore : exists err w2,
            try_catch
              (db_run (ForeignKeys true);;
               console_log (Text "✓ Database state restored"))
              (fun _ : string =>
                 console_log
                   (Text "✗ Warning: Could not restore database state")) w1
            = {| outcome := Ret tt; final := w2;
                 trace := [Sql (ForeignKeys true) err;
                           Log (Text (restore_notice err))] |}
            /\ (err = None <-> next_call_passes w)
            /\ isCleaningUp w2 = true
            /\ master (db w2) = master (db w)
            /\ foreign_keys (db w2)
               = match err with
                 | None => true
                 | Some _ => foreign_keys (db w)
                 end).
  { pose proof (foreign_keys_run true w1) as Hon.
    change (faults w1) with (faults w) in Hon.
    unfold next_call_passes.
    destruct (head (faults w)) as [[msg|]|].
    - exists (Some msg), (with_faults (tail (faults w)) w1).
      split; [|by repeat split].
      eapply (try_catch_throw_eq _ _ _ _ _ _ _ [_] [_]);
        [apply bind_throw_eq, Hon|apply log_run].
    - exists None,
        (with_db {| master := master (db w1); foreign_keys := true |}
           (with_faults (tail (faults w)) w1)).
      split; [|by repeat split].
      apply try_catch_ret_eq.
      eapply (bind_ret_eq _ _ _ _ _ _ _ [_] [_]); [apply Hon|apply log_run].
    - exists None,
        (with_db {| master := master (db w1); foreign_keys := true |}
           (with_faults (tail (faults w)) w1)).
      split; [|by repeat split].
      apply try_catch_ret_eq.
      eapply (bind_ret_eq _ _ _ _ _ _ _ [_] [_]); [apply Hon|apply log_run]. }
  destruct Hrestore as (err & w2 & Hrestore & Herr & Hflag & Hm & Hfk).
  exists err, w2. split; [|done].
  unfold gracefulExit. rewrite read_bind, Hc. cbn [when_].
  rewrite ret_bind, update_bind. fold w1.
  eapply with_trace.
  { eapply bind_ret_eq; [apply log_run|].
    apply try_catch_exit_eq.
    eapply bind_ret_eq; [apply Hwait|].
    eapply bind_ret_eq; [apply Hrestore|].
    eapply bind_ret_eq; [apply log_run|]. reflexivity. }
  reflexivity.
Qed.

(** The rejection handler: the error, then the exit handler, whose
    [process.exit(0)] ends the process. *)
Lemma onRejected_run (error : string) (w : World) :
  isCleaningUp w = false ->
  exists err w',
    onRejected error w =
    {| outcome := Exit 0; final := w'; trace := rejection_events error err |}
    /\ master (db w') = master (db w).
Proof.
  intros Hc.
  destruct (gracefulExit_run "error" w Hc) as (err & w' & Hrun & _ & _ & Hm & _).
  exists err, w'. split; [|done].
  unfold onRejected, rejection_events. eapply with_trace.
  { eapply bind_ret_eq; [apply log_run|].
    eapply bind_ret_eq; [apply log_run|].
    eapply bind_ret_eq; [apply log_run|].
    apply bind_exit_eq. apply Hrun. }
  reflexivity.
Qed.

Lemma rejection_events_non_destructive (error : string) (err : option string) :
  Forall non_destructive (rejection_events error err).
Proof.
  unfold rejection_events. repeat (constructor; [simpl; auto|]). constructor.
Qed.

Lemma harmless_all_non_destructive (tr : list event) :
  Forall harmless tr -> Forall non_destructive tr.
Proof. intros H. eapply Forall_impl; [apply H|apply harmless_non_destructive]. Qed.

(** The whole run when the discovery query fails: the error reaches the
    rejection handler, whose exit handler sends the restoring PRAGMA. *)
Lemma entry_without_discovery (values : Values) (w : World) (msg : string) :
  head (faults w) = Some (Some msg) ->
  exists err w',
    entry values w =
    {| outcome := Exit 0; final := w';
       trace := opening values
                ++ Sql SelectTables (Some msg) :: rejection_events msg err |}
    /\ master (db w') = master (db w).
Proof.
  intros Hhead.
  set (w0 := with_cleanupPromise true (with_isCleaningUp false w)).
  pose proof (cleanup_without_discovery values w0 msg Hhead) as Hrun.
  destruct (onRejected_run msg (with_faults (tail (faults w0)) w0) eq_refl)
    as (err & w' & Hrej & Hm).
  exists err, w'. split; [|done].
  rewrite entry_cases. cbv zeta. fold w0. rewrite Hrun. cbn [outcome final trace].
  rewrite Hrej. cbn [outcome final trace]. by rewrite <- app_assoc.
Qed.

(** ** Preview mode, end to end *)

(** C4, as stated, fails: a dry run whose discovery query fails ends in
    the rejection handler, whose exit handler sends
    [PRAGMA foreign_keys = ON]. *)
Lemma dry_run_with_failed_discovery_restores_enforcement :
  ~ dry_run_sends_selects_only (flags false None true false)
      (world [("users", 10)] [Some "unreachable"] []).
Proof.
  intros H. destruct (H eq_refl) as [Hall _].
  rewrite Forall_forall in Hall.
  specialize (Hall (Sql (ForeignKeys true) None)).
  assert (Hbad : harmless (Sql (ForeignKeys true) None)); [|done].
  apply Hall, list_elem_of_In. vm_compute. tauto.
Qed.

(** C4. With [--dry-run], whatever the other flags, the answers typed
    and the failures of the connection, the run ends with status 0,
    sends no DELETE, no DROP, no sequence reset and no PRAGMA that
    switches enforcement off, and leaves the tables as they were. What
    it sends and prints is this. It begins with the banner (if any) and
    the discovery query. When that query fails, the error goes to the
    rejection handler, whose exit handler sends
    [PRAGMA foreign_keys = ON]: the one statement of a dry run that is
    not a SELECT. When it succeeds, the run sends SELECTs only and
    leaves the whole database as it was: on a database without user
    tables it prints "No tables found in database."; otherwise the
    selection follows and, if it ends the run or selects nothing ("No
    tables to process."), that is all; otherwise comes one count query
    per selected table, in order, then the preview of the counted
    entries, then the dry-run notice. *)
Theorem dry_run_never_mutates (values : Values) (w : World) :
  dry_run values = true ->
  let operation := operation_of values in
  let selecting :=
    selectTables values operation (user_tables (db w)) (discovered w) in
  let r := entry values w in
  outcome r = Exit 0
  /\ Forall non_destructive (trace r)
  /\ master (db (final r)) = master (db w)
  /\ match head (faults w) with
     | Some (Some msg) =>
         exists err,
           trace r = opening values
                     ++ Sql SelectTables (Some msg) :: rejection_events msg err
     | _ =>
         Forall harmless (trace r)
         /\ db (final r) = db w
         /\ exists shown,
              trace r = opening values ++ Sql SelectTables None :: shown
              /\ match user_tables (db w) with
                 | [] =>
                     shown = [Log (Text "ℹ No tables found in database.")]
                 | _ :: _ =>
                     match outcome selecting with
                     | Ret [] =>
                         shown = trace selecting
                                 ++ [Log (Text "ℹ No tables to process.")]
                     | Ret selected =>
                         exists counts stats,
                           shown
                           = trace selecting ++ counts
                             ++ preview_events stats operation
                             ++ [Log (Text "ℹ DRY RUN - No changes will be made")]
                           /\ map name stats = selected
                           /\ Forall2 (counted (db w)) counts stats
                     | _ => shown = trace selecting
                     end
                 end
     end.
Proof.
  intros Hdry. cbv zeta.
  set (w0 := with_cleanupPromise true (with_isCleaningUp false w)).
  destruct (head (faults w)) as [[msg|]|] eqn:Hhead.
  { destruct (entry_without_discovery values w msg Hhead)
      as (err & w' & -> & Hm).
    cbn [outcome final trace]. split; [done|]. split; [|split; [done|by exists err]].
    apply Forall_app. split; [apply harmless_all_non_destructive, opening_harmless|].
    constructor; [by left|apply rejection_events_non_destructive]. }
  all: assert (Hpass : next_call_passes w0)
         by (unfold next_call_passes; change (faults w0) with (faults w);
             by rewrite Hhead).
  all: destruct (cleanup_dry_run values w0 Hdry) as (Hharm & Hset & Hout);
    change (faults w0) with (faults w) in Hout; rewrite Hhead in Hout;
    assert (Hdb : db (final (cleanup values w0)) = db w) by (by inversion Hset);
    pose proof (cleanup_after_discovery values w0 Hpass) as Hrun;
    cbv zeta in Hrun; change (db w0) with (db w) in Hrun;
    change (with_faults (tail (faults w0)) w0) with (discovered w) in Hrun;
    rewrite entry_cases; cbv zeta; fold w0; rewrite Hout;
    cbn [outcome final trace];
    (split; [done|]);
    (split; [by apply harmless_all_non_destructive|]);
    (split; [by rewrite Hdb|]);
    (split; [done|]); (split; [done|]);
    destruct (user_tables (db w)) as [|a allTables];
    [rewrite Hrun; by eexists|];
    destruct (outcome (selectTables values (operation_of values)
                         (a :: allTables) (discovered w)))
      as [[|t selected]|e|n];
    [rewrite Hrun; by eexists
    |
    |done
    |destruct Hrun as [_ ->]; by eexists];
    destruct Hrun as (counts & stats & w3 & Hnames & Hcounts & _ & _ & Hrun);
    rewrite Hrun, Hdry; cbn [when_];
    (eexists; split; [reflexivity|]);
    exists counts, stats; (split; [reflexivity|done]).
Qed.

Lemma dry_run_never_mutates_witness :
  let values := flags false (Some "users") true true in
  let w := world [("users", 10); ("sessions", 3)] [] [] in
  let operation := operation_of values in
  let selecting :=
    selectTables values operation (user_tables (db w)) (discovered w) in
  let r := entry values w in
  dry_run values = true
  /\ outcome r = Exit 0
  /\ Forall non_destructive (trace r)
  /\ master (db (final r)) = master (db w)
  /\ match head (faults w) with
     | Some (Some msg) =>
         exists err,
           trace r = opening values
                     ++ Sql SelectTables (Some msg) :: rejection_events msg err
     | _ =>
         Forall harmless (trace r)
         /\ db (final r) = db w
         /\ exists shown,
              trace r = opening values ++ Sql SelectTables None :: shown
              /\ match user_tables (db w) with
                 | [] =>
                     shown = [Log (Text "ℹ No tables found in database.")]
                 | _ :: _ =>
                     match outcome selecting with
                     | Ret [] =>
                         shown = trace selecting
                                 ++ [Log (Text "ℹ No tables to process.")]
                     | Ret selected =>
                         exists counts stats,
                           shown
                           = trace selecting ++ counts
                             ++ preview_events stats operation
                             ++ [Log (Text "ℹ DRY RUN - No changes will be made")]
                           /\ map name stats = selected
                           /\ Forall2 (counted (db w)) counts stats
                     | _ => shown = trace selecting
                     end
                 end
     end.
Proof.
  cbv zeta. split; [reflexivity|].
  exact (dry_run_never_mutates (flags false (Some "users") true true)
           (world [("users", 10); ("sessions", 3)] [] []) eq_refl).
Defined.

(** The preview of a dry run, line by line. *)
Example dry_run_of_a_drop :
  trace (entry (flags true (Some "users") true true)
           (world [("users", 10); ("sessions", 3)] [] []))
  = [Sql SelectTables None;
     Sql (SelectCount "users") None;
     Log (Text (nl +:+ "📋 Tables to drop"));
     Log (Text (repeat_string "─" 60));
     Log (TableLine "users" None);
     Log (Text "");
     Log (Text "Total: 1 table");
     Log (Text "ℹ DRY RUN - No changes will be made")].
Proof. by vm_compute. Qed.

(** ** The confirmation gate, end to end *)








(** A run that is cancelled at the question, line by line. *)
Example cancelled_at_the_question :
  let r := entry (flags false (Some "users") false true)
             (world [("users", 10)] [] [Some "n"]) in
  outcome r = Exit 0
  /\ skipn 11 (trace r)
     = [Log (Text "");
        Log (Text "⚠ WARNING: This will DROP tables entirely (schema and data)!");
        Log (Text "⚠ This action is IRREVERSIBLE!");
        Log (Text "");
        Prompt (yes_no_text (confirm_question Drop) false) (Some "n");
        Log (Text (nl +:+ "Cancelled."))]
  /\ db (final r) = db (world [("users", 10)] [] [Some "n"]).
Proof. cbv zeta. by vm_compute. Qed.

(** ** The properties at concrete inputs *)

Example trim_examples :
  JS.trim "  users " = "users" /\ JS.trim (JS.bytes [9; 194; 160; 97; 32; 98; 10]) = "a b"
  /\ JS.trim "   " = "" /\ requested_names " a, ,b,,c " = ["a"; "b"; "c"].
Proof. vm_compute. done. Qed.

Example parseInt_examples :
  JS.parseInt " 12abc" = Some 12%Z /\ JS.parseInt "-3" = Some (-3)%Z
  /\ JS.parseInt "+7" = Some 7%Z /\ JS.parseInt "x1" = None
  /\ JS.parseInt "" = None /\ JS.parseInt "-" = None.
Proof. vm_compute. done. Qed.

Example discovery_examples :
  user_tables (database [("users", 1); ("sqlite_sequence", 1);
                         ("__drizzle_migrations", 2); ("sessions", 0);
                         ("SQLite_stat1", 0); ("mydrizzle", 4)])
  = ["sessions"; "users"].
Proof. vm_compute. done. Qed.

(** The scenario of the specification: ten users and three sessions,
    [--confirm --tables=users,sessions] in delete mode. *)
Example delete_scenario :
  let r := entry (flags true (Some "users,sessions") false false)
             (world [("users", 10); ("sessions", 3)] [] []) in
  outcome r = Ret tt
  /\ In (Log (Text "  • Tables cleaned: 2")) (trace r)
  /\ In (Log (TotalRowsDeleted 13)) (trace r)
  /\ master (db (final r)) !! "sessions" = Some 0
  /\ foreign_keys (db (final r)) = true.
Proof. vm_compute. intuition. Qed.

(** * Further properties *)

(** ** Calls on a connection that fails none *)

Lemma reliable_with_db (d : Database) (w : World) :
  reliable w -> reliable (with_db d w).
Proof. done. Qed.

Lemma db_all_reliable (q : statement) (w : World) :
  reliable w ->
  db_all q w =
  match execute q (db w) with
  | inl msg =>
      {| outcome := Throw msg; final := with_faults (tail (faults w)) w;
         trace := [Sql q (Some msg)] |}
  | inr (rows, d) =>
      {| outcome := Ret rows;
         final := with_db d (with_faults (tail (faults w)) w);
         trace := [Sql q None] |}
  end.
Proof.
  intros Hrel. unfold db_all.
  by destruct (reliable_head w Hrel) as [-> | ->].
Qed.

Lemma db_run_reliable (q : statement) (w : World) (rows : list row)
  (d : Database) :
  reliable w -> execute q (db w) = inr (rows, d) ->
  db_run q w =
  {| outcome := Ret tt; final := with_db d (with_faults (tail (faults w)) w);
     trace := [Sql q None] |}.
Proof.
  intros Hrel Hq. unfold db_run. rewrite bind_run, db_all_reliable by done.
  by rewrite Hq.
Qed.

(** ** Dropping tables *)

Lemma dropped_lookup_other (m : gmap string nat) (tables : list string)
  (t : string) :
  t ∉ tables -> dropped m tables !! t = m !! t.
Proof.
  revert m. induction tables as [|x tables IH]; intros m Ht; [done|].
  apply not_elem_of_cons in Ht as [Hne Ht].
  unfold dropped in *. cbn [foldl]. rewrite IH by done.
  by rewrite lookup_delete_ne.
Qed.

Lemma dropped_lookup (m : gmap string nat) (tables : list string) (t : string) :
  t ∈ tables -> dropped m tables !! t = None.
Proof.
  revert m. induction tables as [|x tables IH]; intros m Ht.
  { by apply elem_of_nil in Ht. }
  unfold dropped in *. cbn [foldl].
  destruct (decide (t ∈ tables)) as [Hin|Hout]; [by apply IH|].
  apply elem_of_cons in Ht as [->|Hin]; [|done].
  fold (dropped (delete x m) tables).
  rewrite dropped_lookup_other by done. apply lookup_delete_eq.
Qed.


Lemma dropTables_run (tables : list string) (w : World) :
  reliable w ->
  quotable_names tables ->
  exists w',
    dropTables tables w =
      {| outcome := Ret tt; final := w'; trace := drop_events tables |}
    /\ master (db w') = dropped (master (db w)) tables
    /\ foreign_keys (db w') = foreign_keys (db w)
    /\ reliable w'.
Proof.
  revert w. induction tables as [|t tables IH]; intros w Hrel Hnames.
  { by exists w. }
  apply Forall_cons in Hnames as [Hq Hnames].
  set (w1 := with_db {| master := delete t (master (db w));
                        foreign_keys := foreign_keys (db w) |}
               (with_faults (tail (faults w)) w)).
  destruct (IH w1) as (w' & Hrun & Hm & Hfk & Hrel'); [|done|].
  { by apply reliable_with_db, reliable_tail. }
  exists w'. split; [|done].
  cbn [dropTables drop_events flat_map app].
  eapply (bind_ret_eq _ _ _ _ _ _ _ [_]);
    [apply (db_run_reliable _ _ []); [done|]; cbn [execute]; by rewrite Hq|].
  rewrite log_bind. fold w1. rewrite Hrun. reflexivity.
Qed.





(** SQLite takes a name in capitals for the table in small letters; the
    hypothesis on the spelling leaves that case out. *)
Example capitals_are_not_spelled_as_stored :
  ~ spelled_as_stored (master (db (world [("sessions", 3)] [] []))) "SESSIONS".
Proof.
  intros H. by specialize (H "sessions" (mk_is_Some _ _ eq_refl) eq_refl).
Qed.

(** ** A deletion that fails part-way *)





(** ** The whole run on a healthy connection *)

Lemma deleteTables_from_succeeds (totalRows : nat) (tables : list string)
  (w : World) :
  reliable w ->
  quotable_names tables ->
  (forall t, t ∈ tables -> is_Some (master (db w) !! t)) ->
  Forall succeeded (trace (deleteTables_from totalRows tables w)).
Proof.
  revert totalRows w. induction tables as [|t tables IH];
    intros totalRows w Hrel Hnames Hall; [by constructor|].
  apply Forall_cons in Hnames as [Hq Hnames].
  destruct (Hall t) as [n Ht]; [by left|].
  cbn [deleteTables_from]. rewrite bind_run.
  destruct (delete_one_run totalRows t n w Hrel Hq Ht)
    as (w' & -> & Hm & Hfk & Hrel').
  cbn [outcome final trace]. apply Forall_app. split; [by repeat constructor|].
  apply IH; [done|done|]. intros t' Ht'. rewrite Hm.
  destruct (decide (t = t')) as [->|Hne].
  - rewrite lookup_insert_eq. by eexists.
  - rewrite lookup_insert_ne by done. apply Hall. by right.
Qed.

Lemma hasSequenceTable_run (w : World) :
  reliable w ->
  hasSequenceTable w =
  {| outcome := Ret (match master (db w) !! "sqlite_sequence" with
                     | Some _ => true
                     | None => false
                     end);
     final := with_faults (tail (faults w)) w;
     trace := [Sql SelectSequence None] |}.
Proof.
  intros Hrel. unfold hasSequenceTable.
  rewrite bind_run, db_all_reliable by done. cbn [execute].
  destruct (master (db w) !! "sqlite_sequence");
    cbn [outcome final trace]; by destruct w.
Qed.

Lemma resetSequences_run (w : World) :
  reliable w ->
  exists w' tr,
    resetSequences w = {| outcome := Ret tt; final := w'; trace := tr |}
    /\ master (db w') = sequences_reset (master (db w))
    /\ foreign_keys (db w') = foreign_keys (db w)
    /\ reliable w'
    /\ Forall succeeded tr.
Proof.
  intros Hrel. unfold resetSequences, sequences_reset.
  set (w1 := with_faults (tail (faults w)) w).
  assert (Hrel1 : reliable w1) by by apply reliable_tail.
  pose proof (hasSequenceTable_run w Hrel) as Hhas. fold w1 in Hhas.
  destruct (master (db w) !! "sqlite_sequence") as [n|] eqn:Hs.
  - eexists (with_db _ (with_faults (tail (faults w1)) w1)), _.
    split.
    { eapply bind_ret_eq; [apply Hhas|]. cbn [when_].
      eapply bind_ret_eq; [|apply log_run].
      apply (db_run_reliable _ _ []); [done|].
      change (db w1) with (db w). cbn [execute]. by rewrite Hs. }
    split; [done|]. split; [done|].
    split; [by apply reliable_with_db, reliable_tail|].
    by repeat constructor.
  - exists w1, ([Sql SelectSequence None] ++ []).
    split. { eapply bind_ret_eq; [apply Hhas|]. reflexivity. }
    split; [done|]. split; [done|]. split; [done|]. by repeat constructor.
Qed.

Lemma drop_events_succeeded (tables : list string) :
  Forall succeeded (drop_events tables).
Proof.
  induction tables as [|t l IHl]; [by constructor|].
  cbn [drop_events flat_map app]. by repeat constructor.
Qed.

Lemma operate_run (operation : Operation) (tablesToProcess : list string)
  (w : World) :
  reliable w ->
  quotable_names tablesToProcess ->
  (operation = Delete ->
   forall t, t ∈ tablesToProcess -> is_Some (master (db w) !! t)) ->
  exists w' tr,
    operate operation tablesToProcess w =
      {| outcome :=
           Ret (match operation with
                | Delete =>
                    sum_list (pre_delete_counts (master (db w)) tablesToProcess)
                | Drop => 0
                end);
         final := w'; trace := tr |}
    /\ master (db w') = processed operation (master (db w)) tablesToProcess
    /\ foreign_keys (db w') = foreign_keys (db w)
    /\ reliable w'
    /\ Forall succeeded tr.
Proof.
  intros Hrel Hnames Hall. destruct operation; unfold operate, processed.
  - specialize (Hall eq_refl).
    destruct (deleteTables_from_run 0 tablesToProcess w Hrel Hnames Hall)
      as (Ho & Hm & Hfk & Hrel1 & _).
    pose proof (deleteTables_from_succeeds 0 tablesToProcess w Hrel Hnames Hall)
      as Hok.
    unfold deleteTables.
    destruct (deleteTables_from 0 tablesToProcess w) as [o w1 tr1] eqn:Hdel.
    cbn [outcome final trace] in *. subst o.
    destruct (resetSequences_run w1 Hrel1) as (w2 & tr2 & Hrun & Hm2 & Hfk2 & Hrel2 & Hok2).
    exists w2, (tr1 ++ tr2 ++ []).
    split.
    { eapply bind_ret_eq; [apply Hdel|].
      eapply bind_ret_eq; [apply Hrun|]. reflexivity. }
    split; [by rewrite Hm2, Hm|]. split; [by rewrite Hfk2|]. split; [done|].
    rewrite app_nil_r. by apply Forall_app.
  - destruct (dropTables_run tablesToProcess w Hrel Hnames)
      as (w1 & Hrun & Hm & Hfk & Hrel1).
    exists w1, (drop_events tablesToProcess ++ []).
    split. { eapply bind_ret_eq; [apply Hrun|]. reflexivity. }
    split; [done|]. split; [done|]. split; [done|].
    rewrite app_nil_r. apply drop_events_succeeded.
Qed.

Lemma foreign_keys_reliable (on : bool) (w : World) :
  reliable w ->
  db_run (ForeignKeys on) w =
  {| outcome := Ret tt;
     final := with_db {| master := master (db w); foreign_keys := on |}
                (with_faults (tail (faults w)) w);
     trace := [Sql (ForeignKeys on) None] |}.
Proof. intros Hrel. by apply (db_run_reliable _ _ []). Qed.

Lemma displayResults_run (stats : CleanupStats) (operation : Operation)
  (w : World) :
  displayResults stats operation w =
  {| outcome := Ret tt; final := w;
     trace :=
       [Log (Text (nl +:+ "✅ Cleanup Complete"));
        Log (Text (repeat_string "─" 60));
        Log (Text ("  • Tables " +:+
                   match operation with
                   | Drop => "dropped"
                   | Delete => "cleaned"
                   end +:+ ": " +:+ JS.toString (tablesProcessed stats)))]
       ++ match operation with
          | Delete => [Log (TotalRowsDeleted (totalRowsDeleted stats))]
          | Drop => []
          end
       ++ [Log Duration; Log (Text "")] |}.
Proof. by destruct operation. Qed.

(** The line of the results that counts the tables. *)
Lemma performCleanup_run (operation : Operation) (tablesToProcess : list string)
  (w : World) :
  reliable w ->
  quotable_names tablesToProcess ->
  (operation = Delete ->
   forall t, t ∈ tablesToProcess -> is_Some (master (db w) !! t)) ->
  exists w' tr,
    performCleanup operation tablesToProcess w =
      {| outcome := Ret tt; final := w'; trace := tr |}
    /\ master (db w') = processed operation (master (db w)) tablesToProcess
    /\ foreign_keys (db w') = true
    /\ foreignKeysDisabled w' = false
    /\ reliable w'
    /\ Forall succeeded tr
    /\ In (Log (Text ("  • Tables " +:+
                      match operation with
                      | Drop => "dropped"
                      | Delete => "cleaned"
                      end +:+ ": " +:+ JS.toString (length tablesToProcess))))
         tr
    /\ (operation = Delete ->
        In (Log (TotalRowsDeleted
                   (sum_list (pre_delete_counts (master (db w))
                                tablesToProcess)))) tr).
Proof.
  intros Hrel Hnames Hall. unfold performCleanup.
  set (title := ("🗑️  " +:+ _)%string).
  destruct (printing_run succeeded anything (section title) w) as ([] & Hsec).
  { by apply section_spec. }
  assert (Hpre : Forall succeeded (trace (section title w))).
  { apply (printing_trace succeeded anything). by apply section_spec. }
  set (pre := trace (section title w)) in *.
  set (w0 := with_foreignKeysDisabled false w).
  set (w2 := with_foreignKeysDisabled true
               (with_db {| master := master (db w0); foreign_keys := false |}
                  (with_faults (tail (faults w0)) w0))).
  assert (Hrel2 : reliable w2) by by apply reliable_tail.
  destruct (operate_run operation tablesToProcess w2 Hrel2 Hnames Hall)
    as (w3 & mid & Hop & Hm3 & Hfk3 & Hrel3 & Hmid).
  set (total := match operation with Delete => _ | Drop => 0 end) in Hop.
  set (w5 := with_foreignKeysDisabled false
               (with_db {| master := master (db w3); foreign_keys := true |}
                  (with_faults (tail (faults w3)) w3))).
  exists w5. eexists. split.
  { eapply bind_ret_eq; [apply Hsec|]. rewrite update_bind. fold w0.
    apply try_catch_ret_eq. unfold destructive_body.
    eapply bind_ret_eq; [by apply foreign_keys_reliable|].
    rewrite update_bind. fold w2.
    eapply bind_ret_eq; [apply Hop|].
    eapply bind_ret_eq; [by apply foreign_keys_reliable|].
    rewrite update_bind. fold w5. apply displayResults_run. }
  split; [done|]. split; [done|]. split; [done|].
  split; [by apply reliable_tail|].
  split.
  { apply Forall_app. split; [done|]. apply Forall_cons. split; [done|].
    apply Forall_app. split; [done|]. apply Forall_cons. split; [done|].
    destruct operation; by repeat constructor. }
  split.
  { rewrite !in_app_iff. do 4 right. left. right. right. by left. }
  intros ->. rewrite !in_app_iff. do 5 right. left. by left.
Qed.

Lemma count_into_reliable (stats : list TableStats) (t : string) (n : nat)
  (w : World) :
  reliable w -> quotable t = true -> master (db w) !! t = Some n ->
  count_into stats t w =
  {| outcome := Ret (stats ++ [{| name := t; rowCount := n |}]);
     final := with_faults (tail (faults w)) w;
     trace := [Sql (SelectCount t) None] |}.
Proof.
  intros Hrel Hq Ht. unfold count_into.
  rewrite try_catch_run, bind_run, count_run. cbv zeta.
  destruct (reliable_head w Hrel) as [-> | ->]; rewrite Hq, Ht; reflexivity.
Qed.

(** The statistics pass when every count succeeds. *)
Lemma getTableStats_from_reliable (stats : list TableStats)
  (tables : list string) (w : World) :
  reliable w ->
  quotable_names tables ->
  (forall t, t ∈ tables -> is_Some (master (db w) !! t)) ->
  exists w',
    getTableStats_from stats tables w =
      {| outcome :=
           Ret (stats ++
                map (fun t => {| name := t;
                                 rowCount := default 0 (master (db w) !! t) |})
                  tables);
         final := w';
         trace := map (fun t => Sql (SelectCount t) None) tables |}
    /\ settled w' = settled w
    /\ stdin w' = stdin w
    /\ reliable w'.
Proof.
  revert stats w. induction tables as [|t tables IH];
    intros stats w Hrel Hnames Hall.
  { exists w. cbn [map getTableStats_from]. by rewrite app_nil_r. }
  apply Forall_cons in Hnames as [Hq Hnames].
  destruct (Hall t) as [n Ht]; [by left|].
  set (w1 := with_faults (tail (faults w)) w).
  destruct (IH (stats ++ [{| name := t; rowCount := n |}]) w1)
    as (w' & Hrun & Hs & Hi & Hrel').
  { by apply reliable_tail. }
  { done. }
  { intros t' Ht'. apply Hall. by right. }
  exists w'. split; [|done].
  cbn [getTableStats_from map]. rewrite Ht. cbn [default].
  lazymatch goal with
  | |- context [stats ++ ?a :: ?l] =>
      change (stats ++ a :: l) with (stats ++ ([a] ++ l));
      rewrite (app_assoc stats [a] l)
  end.
  eapply (bind_ret_eq _ _ _ _ _ _ _ [_]); [|apply Hrun].
  by apply count_into_reliable.
Qed.

(** With [--confirm] nothing is asked when the tables are selected. *)
Lemma selectTables_confirmed (values : Values) (operation : Operation)
  (d : Database) (w : World) :
  confirm values = true ->
  exists tr,
    selectTables values operation (user_tables d) w =
      {| outcome := Ret (selection values d); final := w; trace := tr |}
    /\ Forall succeeded tr /\ Forall no_prompt tr.
Proof.
  intros Hc. unfold selectTables, selection. rewrite Hc, andb_false_r.
  destruct (tables values) as [[|c s]|]; cbn [given].
  - by exists [].
  - rewrite filterTables_run. cbv zeta. eexists. split; [reflexivity|].
    destruct (0 <? length _); by repeat constructor.
  - by exists [].
Qed.

Lemma selection_exists (values : Values) (d : Database) (t : string) :
  t ∈ selection values d -> is_Some (master d !! t).
Proof.
  unfold selection. intros Ht. apply user_tables_exist.
  destruct (tables values) as [[|c s]|]; [done| |done].
  apply elem_of_List_filter in Ht as [_ Ht]. by apply includes_elem_of.
Qed.

Lemma selection_of_nothing (values : Values) (d : Database) :
  user_tables d = [] -> selection values d = [].
Proof.
  unfold selection. intros ->.
  destruct (tables values) as [[|c s]|]; [done| |done].
  induction (requested_names (String c s)) as [|x l IH]; [done|]. done.
Qed.

Lemma cleanup_confirmed (values : Values) (w : World) :
  confirm values = true -> dry_run values = false -> reliable w ->
  quotable_names (selection values (db w)) ->
  exists o w' tr,
    cleanup values w = {| outcome := o; final := w'; trace := tr |}
    /\ Forall succeeded tr
    /\ reliable w'
    /\ match selection values (db w) with
       | [] => o = Exit 0 /\ db w' = db w
       | _ :: _ =>
           o = Ret tt
           /\ master (db w')
              = processed (operation_of values) (master (db w))
                  (selection values (db w))
           /\ foreign_keys (db w') = true
           /\ In (Log (Text ("  • Tables " +:+
                             match operation_of values with
                             | Drop => "dropped"
                             | Delete => "cleaned"
                             end +:+ ": " +:+
                             JS.toString (length (selection values (db w))))))
                tr
           /\ (operation_of values = Delete ->
               In (Log (TotalRowsDeleted
                          (sum_list (pre_delete_counts (master (db w))
                                       (selection values (db w)))))) tr)
       end.
Proof.
  intros Hc Hd Hrel Hnames.
  set (w1 := with_faults (tail (faults w)) w).
  assert (Hrel1 : reliable w1) by by apply reliable_tail.
  assert (Hget : spinner getAllTables "Loading database tables" w
                 = {| outcome := Ret (user_tables (db w)); final := w1;
                      trace := [Sql SelectTables None] |}).
  { unfold spinner. rewrite getAllTables_run.
    by destruct (reliable_head w Hrel) as [-> | ->]. }
  destruct (selectTables_confirmed values (operation_of values) (db w) w1 Hc)
    as (trs & Hsel & Hoks & _).
  pose proof (selection_exists values (db w)) as Hex.
  pose proof (selection_of_nothing values (db w)) as Hnone.
  unfold cleanup. rewrite Hc, Hd, andb_false_r. cbn [when_ negb].
  rewrite ret_bind. cbv zeta.
  remember (user_tables (db w)) as allTables eqn:Hall.
  destruct allTables as [|a allTables].
  { rewrite Hnone by done. do 3 eexists. split.
    { eapply bind_ret_eq; [apply Hget|]. cbn [length Nat.eqb when_].
      apply bind_exit_eq. eapply bind_ret_eq; [apply log_run|]. reflexivity. }
    split; [by repeat constructor|]. done. }
  remember (selection values (db w)) as selected eqn:Hs.
  destruct selected as [|s selected].
  { do 3 eexists. split.
    { eapply bind_ret_eq; [apply Hget|]. cbn [length Nat.eqb when_].
      rewrite ret_bind.
      eapply bind_ret_eq; [apply Hsel|]. cbn [length Nat.eqb when_].
      apply bind_exit_eq. eapply bind_ret_eq; [apply log_run|]. reflexivity. }
    split; [|done].
    apply Forall_app. split; [by repeat constructor|].
    apply Forall_app. split; [done|]. by repeat constructor. }
  destruct (getTableStats_from_reliable [] (s :: selected) w1 Hrel1 Hnames)
    as (w2 & Hstats & Hset2 & _ & Hrel2).
  { intros t Ht. by apply Hex. }
  assert (Hdb2 : db w2 = db w) by (by inversion Hset2).
  set (stats := [] ++ map _ (s :: selected)) in Hstats.
  destruct (printing_run succeeded anything
              (displayTableStats stats (operation_of values)) w2)
    as ([] & Hdisp); [by apply displayTableStats_spec|].
  assert (Hokd : Forall succeeded
                   (trace (displayTableStats stats (operation_of values) w2))).
  { apply (printing_trace succeeded anything). by apply displayTableStats_spec. }
  destruct (performCleanup_run (operation_of values) (s :: selected) w2 Hrel2
              Hnames)
    as (w3 & tr3 & Hrun & Hm3 & Hfk3 & _ & Hrel3 & Hok3 & Hline & Htotal).
  { intros _ t Ht. rewrite Hdb2. by apply Hex. }
  rewrite Hdb2 in Hm3, Htotal.
  exists (Ret tt), w3. eexists. split.
  { eapply bind_ret_eq; [apply Hget|]. cbn [length Nat.eqb when_].
    rewrite ret_bind.
    eapply bind_ret_eq; [apply Hsel|]. cbn [length Nat.eqb when_].
    rewrite ret_bind.
    eapply bind_ret_eq; [apply Hstats|].
    eapply bind_ret_eq; [apply Hdisp|].
    rewrite ret_bind. unfold confirmOperation. rewrite Hc. cbn [negb when_].
    rewrite ret_bind. apply Hrun. }
  split.
  { apply Forall_app. split; [by repeat constructor|].
    apply Forall_app. split; [done|].
    apply Forall_app. split.
    { clear. induction (s :: selected); by constructor. }
    by apply Forall_app. }
  split; [done|]. split; [done|]. split; [done|]. split; [done|].
  split; [|intros Hop; specialize (Htotal Hop)]; rewrite !in_app_iff; auto 10.
Qed.

(** The run from the entry point, under the same conditions. *)
Lemma entry_confirmed (values : Values) (w : World) :
  confirm values = true -> dry_run values = false -> reliable w ->
  quotable_names (selection values (db w)) ->
  let selected := selection values (db w) in
  let r := entry values w in
  Forall succeeded (trace r)
  /\ reliable (final r)
  /\ match selected with
     | [] => outcome r = Exit 0 /\ db (final r) = db w
     | _ :: _ =>
         outcome r = Ret tt
         /\ master (db (final r))
            = processed (operation_of values) (master (db w)) selected
         /\ foreign_keys (db (final r)) = true
         /\ In (Log (Text ("  • Tables " +:+
                           match operation_of values with
                           | Drop => "dropped"
                           | Delete => "cleaned"
                           end +:+ ": " +:+ JS.toString (length selected))))
              (trace r)
         /\ (operation_of values = Delete ->
             In (Log (TotalRowsDeleted
                        (sum_list (pre_delete_counts (master (db w))
                                     selected)))) (trace r))
     end.
Proof.
  intros Hc Hd Hrel Hnames. cbv zeta. rewrite entry_cases. cbv zeta.
  set (w0 := with_cleanupPromise true (with_isCleaningUp false w)).
  destruct (cleanup_confirmed values w0 Hc Hd Hrel Hnames)
    as (o & w' & tr & -> & Hok & Hrel' & Hcases).
  change (db w0) with (db w) in Hcases. cbn [outcome final trace].
  destruct (selection values (db w)) as [|s selected].
  - destruct Hcases as [-> Hdb]. by cbn [outcome final trace].
  - destruct Hcases as (-> & Hm & Hfk & Hline & Htotal).
    by cbn [outcome final trace].
Qed.

Lemma elem_of_user_tables (d : Database) (t : string) :
  t ∈ user_tables d <-> is_Some (master d !! t) /\ user_table t = true.
Proof.
  unfold user_tables. rewrite merge_sort_Permutation.
  by rewrite elem_of_List_filter, elem_of_elements, elem_of_dom.
Qed.

Lemma elem_of_selection (values : Values) (d : Database) (t : string) :
  t ∈ selection values d -> t ∈ user_tables d.
Proof.
  unfold selection. destruct (tables values) as [[|c s]|]; [done| |done].
  intros Ht. apply elem_of_List_filter in Ht as [_ Ht].
  by apply includes_elem_of.
Qed.

(** The tables after the operation, table by table. *)
Lemma processed_lookup (operation : Operation) (m : gmap string nat)
  (selected : list string) (t : string) :
  "sqlite_sequence" ∉ selected ->
  processed operation m selected !! t =
  if bool_decide (t ∈ selected)
  then match operation with
       | Delete => Some 0
       | Drop => None
       end
  else if bool_decide (t = "sqlite_sequence")
  then match operation with
       | Delete => (fun _ => 0) <$> m !! t
       | Drop => m !! t
       end
  else m !! t.
Proof.
  intros Hseq. destruct operation; cbn [processed].
  - unfold sequences_reset.
    rewrite (emptied_lookup_other m selected "sqlite_sequence") by done.
    case_bool_decide as Hin.
    + assert (Hne : t <> "sqlite_sequence") by (by intros ->).
      destruct (m !! "sqlite_sequence");
        rewrite ?lookup_insert_ne by done; by apply emptied_lookup.
    + case_bool_decide as Hs.
      * subst t. destruct (m !! "sqlite_sequence") eqn:Hm.
        -- by rewrite lookup_insert_eq.
        -- by rewrite emptied_lookup_other, Hm.
      * destruct (m !! "sqlite_sequence");
          rewrite ?lookup_insert_ne by done; by apply emptied_lookup_other.
  - case_bool_decide as Hin; [by apply dropped_lookup|].
    rewrite dropped_lookup_other by done. by case_bool_decide.
Qed.

(** The selection never holds the sequence table. *)
Lemma selection_not_sequence (values : Values) (d : Database) :
  "sqlite_sequence" ∉ selection values d.
Proof.
  intros Hin. apply elem_of_selection, elem_of_user_tables in Hin as [_ Hu].
  done.
Qed.

(** Names that discovery lists are none of SQLite's own. *)
Lemma selection_not_internal (values : Values) (d : Database) (t : string) :
  t ∈ selection values d -> like_sqlite t = false.
Proof.
  intros Hin. apply elem_of_selection, elem_of_user_tables in Hin as [_ Hu].
  unfold user_table in Hu. apply andb_true_iff in Hu as [Hu _].
  by apply negb_true_iff in Hu.
Qed.

(** What the processed tables hold, for the tables that are not SQLite's
    own and for the sequence table when rows are deleted. *)
Lemma processed_tables (operation : Operation) (m m' : gmap string nat)
  (selected : list string) :
  "sqlite_sequence" ∉ selected ->
  m' = processed operation m selected ->
  (forall t, t ∈ selected ->
     m' !! t = match operation with Delete => Some 0 | Drop => None end)
  /\ (forall t, t ∉ selected -> like_sqlite t = false -> m' !! t = m !! t)
  /\ (operation = Delete ->
      m' !! "sqlite_sequence" = (fun _ => 0) <$> m !! "sqlite_sequence").
Proof.
  intros Hseq ->. split; [|split].
  - intros t Ht. rewrite processed_lookup by done.
    by rewrite bool_decide_eq_true_2.
  - intros t Hout Hplain. rewrite processed_lookup by done.
    rewrite bool_decide_eq_false_2 by done.
    rewrite bool_decide_eq_false_2; [done|]. by intros ->.
  - intros ->. rewrite processed_lookup by done.
    rewrite bool_decide_eq_false_2 by done.
    by rewrite bool_decide_eq_true_2.
Qed.

(** X3. A run with [--confirm] and without [--dry-run], on a connection
    that fails no call and on a database of independent tables whose
    selected names hold no double quote, does what was asked. When the
    selection (the requested names that were discovered, or all the
    discovered tables) is empty, it exits with status 0 and the database
    is as before. Otherwise it returns normally: in delete mode every
    selected table is empty and the sequence table, if there is one, is
    emptied; in drop mode every selected table is gone; every other
    table that is not one of SQLite's own is as it was; enforcement of
    foreign keys is on; no statement has failed; and the results report
    the number of selected tables and, in delete mode, the sum of the
    row counts read before each deletion. *)
Theorem confirmed_run_processes_the_selection (values : Values) (w : World) :
  confirm values = true -> dry_run values = false -> reliable w ->
  quotable_names (selection values (db w)) ->
  let selected := selection values (db w) in
  let r := entry values w in
  Forall succeeded (trace r)
  /\ match selected with
     | [] => outcome r = Exit 0 /\ db (final r) = db w
     | _ :: _ =>
         outcome r = Ret tt
         /\ (forall t, t ∈ selected ->
               master (db (final r)) !! t
               = match operation_of values with
                 | Delete => Some 0
                 | Drop => None
                 end)
         /\ (forall t, t ∉ selected -> like_sqlite t = false ->
               master (db (final r)) !! t = master (db w) !! t)
         /\ (operation_of values = Delete ->
             master (db (final r)) !! "sqlite_sequence"
             = (fun _ => 0) <$> master (db w) !! "sqlite_sequence")
         /\ foreign_keys (db (final r)) = true
         /\ In (Log (Text ("  • Tables " +:+
                           match operation_of values with
                           | Drop => "dropped"
                           | Delete => "cleaned"
                           end +:+ ": " +:+ JS.toString (length selected))))
              (trace r)
         /\ (operation_of values = Delete ->
             In (Log (TotalRowsDeleted
                        (sum_list (pre_delete_counts (master (db w))
                                     selected)))) (trace r))
     end.
Proof.
  intros Hc Hd Hrel Hnames. cbv zeta.
  destruct (entry_confirmed values w Hc Hd Hrel Hnames) as (Hok & _ & Hcases).
  split; [done|].
  pose proof (selection_not_sequence values (db w)) as Hseq.
  destruct (selection values (db w)) as [|s selected]; [done|].
  destruct Hcases as (Ho & Hm & Hfk & Hline & Htotal).
  destruct (processed_tables _ _ _ _ Hseq Hm) as (Hsel & Hother & Hreset).
  done.
Qed.

Lemma confirmed_run_processes_the_selection_witness :
  let values := flags true (Some "users, ghost") false false in
  let w := world [("users", 10); ("sessions", 3); ("sqlite_sequence", 2)]
             [] [] in
  let selected := selection values (db w) in
  let r := entry values w in
  (confirm values = true /\ dry_run values = false /\ reliable w
   /\ quotable_names selected)
  /\ Forall succeeded (trace r)
  /\ match selected with
     | [] => outcome r = Exit 0 /\ db (final r) = db w
     | _ :: _ =>
         outcome r = Ret tt
         /\ (forall t, t ∈ selected ->
               master (db (final r)) !! t
               = match operation_of values with
                 | Delete => Some 0
                 | Drop => None
                 end)
         /\ (forall t, t ∉ selected -> like_sqlite t = false ->
               master (db (final r)) !! t = master (db w) !! t)
         /\ (operation_of values = Delete ->
             master (db (final r)) !! "sqlite_sequence"
             = (fun _ => 0) <$> master (db w) !! "sqlite_sequence")
         /\ foreign_keys (db (final r)) = true
         /\ In (Log (Text ("  • Tables " +:+
                           match operation_of values with
                           | Drop => "dropped"
                           | Delete => "cleaned"
                           end +:+ ": " +:+ JS.toString (length selected))))
              (trace r)
         /\ (operation_of values = Delete ->
             In (Log (TotalRowsDeleted
                        (sum_list (pre_delete_counts (master (db w))
                                     selected)))) (trace r))
     end.
Proof.
  assert (Hrel : reliable (world [("users", 10); ("sessions", 3);
                                  ("sqlite_sequence", 2)] [] []))
    by constructor.
  assert (Hnames : quotable_names
                     (selection (flags true (Some "users, ghost") false false)
                        (db (world [("users", 10); ("sessions", 3);
                                    ("sqlite_sequence", 2)] [] []))))
    by (vm_compute; repeat constructor).
  cbv zeta. split; [by repeat split|].
  exact (confirmed_run_processes_the_selection
           (flags true (Some "users, ghost") false false)
           (world [("users", 10); ("sessions", 3); ("sqlite_sequence", 2)]
              [] [])
           eq_refl eq_refl Hrel Hnames).
Defined.

(** A table whose name holds a double quote stops the run: its count is
    taken for zero and its DELETE fails, before anything is deleted. *)
Example a_quote_in_a_name_stops_the_run :
  let odd := "a" +:+ String (ascii_of_nat 34) "b" in
  let r := entry (flags true None false false) (world [(odd, 4)] [] []) in
  In (Sql (SelectCount odd) (Some (not_parsed odd))) (trace r)
  /\ In (Log (Text ("  " +:+ not_parsed odd))) (trace r)
  /\ master (db (final r)) !! odd = Some 4.
Proof. cbv zeta. vm_compute. split; [tauto|]. split; [tauto|reflexivity]. Qed.

(** ** Running without a terminal *)

Lemma gracefulExit_asks_nothing (signal : string) (T : string -> Prop)
  (R : unit -> Prop) :
  respects stdin no_prompt anything T R (gracefulExit signal).
Proof.
  unfold gracefulExit. logic.
  apply respects_try_catch with (Tb := nothing); [|by intros].
  unfold await_cleanupPromise. logic.
  apply respects_try_catch with (Tb := anything); [|intros; logic].
  logic. by apply respects_db_run.
Qed.

Lemma cleanup_asks_nothing (values : Values) :
  confirm values = true ->
  respects stdin no_prompt anything anything anything (cleanup values).
Proof.
  intros Hc.
  assert (Hon : forall (on : bool) (R : unit -> Prop), R tt ->
            respects stdin no_prompt anything anything R
              (db_run (ForeignKeys on))).
  { intros on R HR. by apply respects_db_run. }
  unfold cleanup, selectTables, confirmOperation.
  rewrite Hc, andb_false_r. cbn [negb when_]. logic.
  - by apply getAllTables_spec.
  - by apply filterTables_spec.
  - by apply getTableStats_spec.
  - by apply displayTableStats_spec.
  - unfold performCleanup. logic; [by apply section_spec|].
    apply respects_try_catch with (Tb := anything).
    + unfold destructive_body. logic; [by apply Hon| |by apply Hon
                                       |by apply displayResults_spec].
      unfold operate. logic.
      * by apply deleteTables_from_spec.
      * by apply resetSequences_spec.
      * by apply dropTables_spec.
    + intros e _. unfold destructive_handler. logic.
      apply respects_try_catch with (Tb := anything); [|intros; logic].
      logic. by apply Hon.
Qed.

(** X4. With [--confirm] the run never asks anything: whatever the
    other flags, the state of the database and the failures of the
    connection, it shows no prompt and leaves the pending input
    unread, on its error path as well. *)
Theorem confirm_never_asks (values : Values) (w : World) :
  confirm values = true ->
  let r := entry values w in
  Forall no_prompt (trace r) /\ stdin (final r) = stdin w.
Proof.
  intros Hc. cbv zeta.
  assert (Hentry : respects stdin no_prompt anything anything anything
                     (entry values)).
  { unfold entry. logic.
    apply respects_try_catch with (Tb := anything).
    - logic. by apply cleanup_asks_nothing.
    - intros e _. unfold onRejected. logic.
      apply gracefulExit_asks_nothing. }
  destruct (Hentry w) as (Hv & Htr & _). done.
Qed.

Lemma confirm_never_asks_witness :
  let values := flags true None false true in
  let w := world [("users", 10)] [None; Some "busy"] [Some "y"] in
  let r := entry values w in
  confirm values = true
  /\ Forall no_prompt (trace r) /\ stdin (final r) = stdin w.
Proof.
  cbv zeta. split; [reflexivity|].
  exact (confirm_never_asks (flags true None false true)
           (world [("users", 10)] [None; Some "busy"] [Some "y"]) eq_refl).
Defined.

(** ** A database without user tables *)

(** X5. When discovery gets through and finds no user table, the run
    ends there whatever the flags: after the banner, if any, it has
    sent the discovery query only, prints "No tables found in
    database." and exits with status 0, with the database and the
    pending input as they were. Internal tables (sqlite_sequence, the
    migrations table) do not count as tables to process. *)
Theorem nothing_to_do_without_user_tables (values : Values) (w : World) :
  next_call_passes w -> user_tables (db w) = [] ->
  let r := entry values w in
  outcome r = Exit 0
  /\ trace r = opening values
               ++ [Sql SelectTables None;
                   Log (Text "ℹ No tables found in database.")]
  /\ db (final r) = db w
  /\ stdin (final r) = stdin w.
Proof.
  intros Hpass Hnone. cbv zeta. rewrite entry_cases. cbv zeta.
  set (w0 := with_cleanupPromise true (with_isCleaningUp false w)).
  assert (Hrun : cleanup values w0
                 = {| outcome := Exit 0;
                      final := with_faults (tail (faults w0)) w0;
                      trace := opening values
                               ++ [Sql SelectTables None]
                               ++ [Log (Text "ℹ No tables found in database.")]
                               ++ [] |}).
  { unfold cleanup.
    eapply bind_ret_eq; [apply opening_run|].
    eapply bind_ret_eq.
    { unfold spinner. rewrite getAllTables_run.
      change (db w0) with (db w). change (faults w0) with (faults w).
      rewrite Hnone. unfold next_call_passes in Hpass.
      destruct (head (faults w)) as [[msg|]|]; [done|reflexivity..]. }
    cbn [length Nat.eqb when_]. apply bind_exit_eq.
    eapply bind_ret_eq; [apply log_run|]. reflexivity. }
  rewrite Hrun. by cbn [outcome final trace].
Qed.

Lemma nothing_to_do_without_user_tables_witness :
  let values := flags false (Some "users") false true in
  let w := world [("sqlite_sequence", 4); ("__drizzle_migrations", 7)]
             [] [Some "1"; Some "yes"] in
  let r := entry values w in
  (next_call_passes w /\ user_tables (db w) = [])
  /\ outcome r = Exit 0
  /\ trace r = opening values
               ++ [Sql SelectTables None;
                   Log (Text "ℹ No tables found in database.")]
  /\ db (final r) = db w
  /\ stdin (final r) = stdin w.
Proof.
  cbv zeta. split; [split; [exact I|reflexivity]|].
  exact (nothing_to_do_without_user_tables
           (flags false (Some "users") false true)
           (world [("sqlite_sequence", 4); ("__drizzle_migrations", 7)]
              [] [Some "1"; Some "yes"]) I eq_refl).
Defined.

(** ** The menu of the interactive mode *)

Lemma promptChoice_run (question : string) (choices : list string)
  (w : World) :
  exists tr,
    promptChoice question choices w =
    {| outcome :=
         Ret (chosen (length choices) (JS.parseInt (or_zero (next_answer w))));
       final := with_stdin (tail (stdin w)) w;
       trace := tr ++ [Prompt (choice_text choices) (next_answer w)] |}
    /\ Forall (fun e => exists o, e = Log o) tr.
Proof.
  unfold promptChoice.
  destruct (printing_run (fun e => exists o, e = Log o) anything
              (print_choices 0 choices) w) as ([] & Hprint).
  { apply print_choices_spec; [by eexists|done]. }
  assert (Hlogs : Forall (fun e => exists o, e = Log o)
                    (trace (print_choices 0 choices w))).
  { apply (printing_trace _ anything).
    apply print_choices_spec; [by eexists|done]. }
  eexists (_ :: trace (print_choices 0 choices w)). split.
  - rewrite log_bind. cbn [app]. f_equal.
    + cbn [outcome]. rewrite (bind_after _ _ _ _ _ _ Hprint). cbn [outcome].
      rewrite bind_run, prompt_run. cbn [outcome]. unfold chosen.
      destruct (JS.parseInt _) as [choice|]; [|done]. by destruct (_ && _).
    + cbn [final]. rewrite (bind_after _ _ _ _ _ _ Hprint). cbn [final].
      rewrite bind_run, prompt_run. cbn [outcome final].
      destruct (JS.parseInt _) as [choice|]; [|done]. by destruct (_ && _).
    + cbn [trace]. f_equal.
      rewrite (bind_after _ _ _ _ _ _ Hprint). cbn [trace]. f_equal.
      rewrite bind_run, prompt_run. cbn [outcome final trace].
      destruct (JS.parseInt _) as [choice|]; [|done]. by destruct (_ && _).
  - constructor; [by eexists|done].
Qed.

Lemma menu_branch (choice : Z) (allTables : list string) (w : World) :
  (when_ (Z.eqb choice (-1) || Z.eqb choice 2)
     (console_log (Text (nl +:+ "Cancelled."));; process_exit 0);;
   when_ (Z.eqb choice 1)
     (console_log
        (Text (nl +:+
               "Feature not yet implemented. Use --tables=t1,t2 for now."));;
      process_exit 0);;
   mret allTables) w =
  if (Z.eqb choice (-1) || Z.eqb choice 2)%bool
  then {| outcome := Exit 0; final := w;
          trace := [Log (Text (nl +:+ "Cancelled."))] |}
  else if Z.eqb choice 1
  then {| outcome := Exit 0; final := w;
          trace := [Log (Text (nl +:+
                    "Feature not yet implemented. Use --tables=t1,t2 for now."))] |}
  else {| outcome := Ret allTables; final := w; trace := [] |}.
Proof.
  destruct (Z.eqb choice (-1) || Z.eqb choice 2)%bool; [reflexivity|].
  destruct (Z.eqb choice 1); reflexivity.
Qed.

(** X6. In interactive mode without [--tables] and without [--confirm],
    the only answer to the menu that lets the run go on is one that
    [parseInt] reads as 1: the selection is then every discovered
    table. An answer read as 2 ends the run on "Feature not yet
    implemented", and every other answer, no answer included, ends it on
    "Cancelled."; both with status 0. Whatever the answer, the menu
    sends nothing to the database and reads one answer. *)
Theorem menu_goes_on_with_the_first_choice_only (values : Values)
  (operation : Operation) (allTables : list string) (w : World) :
  given (tables values) = false -> interactive values = true ->
  confirm values = false ->
  let r := selectTables values operation allTables w in
  let answer := JS.parseInt (or_zero (next_answer w)) in
  db (final r) = db w
  /\ stdin (final r) = tail (stdin w)
  /\ Forall no_sql (trace r)
  /\ (answer = Some 1%Z -> outcome r = Ret allTables)
  /\ (answer = Some 2%Z ->
      outcome r = Exit 0
      /\ last (trace r)
         = Some (Log (Text (nl +:+ "Feature not yet implemented. Use --tables=t1,t2 for now."))))
  /\ (answer <> Some 1%Z -> answer <> Some 2%Z ->
      outcome r = Exit 0
      /\ last (trace r) = Some (Log (Text (nl +:+ "Cancelled.")))).
Proof.
  intros Hg Hi Hc. cbv zeta. unfold selectTables. rewrite Hg, Hi, Hc.
  cbn [andb negb].
  destruct (promptChoice_run "What would you like to do?"
              (menu operation allTables) w) as (tr & Hrun & Hlogs).
  change (length (menu operation allTables)) with 3 in Hrun.
  rewrite (bind_after _ _ _ _ _ _ Hrun), menu_branch.
  assert (Hquiet : Forall no_sql
                     (tr ++ [Prompt (choice_text (menu operation allTables))
                               (next_answer w)])).
  { apply Forall_app. split; [|by repeat constructor].
    eapply Forall_impl; [apply Hlogs|]. by intros e [o ->]. }
  assert (Hend : forall o : output,
            Forall no_sql
              ((tr ++ [Prompt (choice_text (menu operation allTables))
                         (next_answer w)]) ++ [Log o])).
  { intros o. apply Forall_app. split; [done|]. by repeat constructor. }
  set (w1 := with_stdin (tail (stdin w)) w).
  assert (Hcases :
    match JS.parseInt (or_zero (next_answer w)) with
    | Some 1%Z => chosen 3 (JS.parseInt (or_zero (next_answer w))) = 0%Z
    | Some 2%Z => chosen 3 (JS.parseInt (or_zero (next_answer w))) = 1%Z
    | Some 3%Z => chosen 3 (JS.parseInt (or_zero (next_answer w))) = 2%Z
    | _ => chosen 3 (JS.parseInt (or_zero (next_answer w))) = (-1)%Z
    end).
  { destruct (JS.parseInt (or_zero (next_answer w))) as [z|]; [|done].
    assert (Hz : z = 1%Z \/ z = 2%Z \/ z = 3%Z \/ (z < 1 \/ 3 < z)%Z) by lia.
    destruct Hz as [-> | [-> | [-> | Hz]]]; [done..|].
    assert (Hout : chosen 3 (Some z) = (-1)%Z).
    { unfold chosen. destruct (_ && _) eqn:Hb; [|done].
      apply andb_true_iff in Hb as [H1 H2].
      apply Z.leb_le in H1. apply Z.leb_le in H2.
      change (Z.of_nat 3) with 3%Z in H2. lia. }
    destruct z as [|[p|p|]|p]; try done. destruct p as [p|p|]; try done.
    all: destruct p; try done; lia. }
  destruct (JS.parseInt (or_zero (next_answer w))) as [[|[[p|p|]|[p|p|]|]|p]|];
    rewrite Hcases; cbn [Z.eqb Pos.eqb orb outcome final trace];
    rewrite ?app_nil_r;
    (split; [done|]); (split; [done|]); (split; [done|]);
    (split; [done|]); split; try done; intros; by rewrite last_snoc.
Qed.

Lemma menu_goes_on_with_the_first_choice_only_witness :
  let values := flags false None false true in
  let w := world [("users", 10)] [] [Some " 2"] in
  let r := selectTables values Drop ["users"] w in
  let answer := JS.parseInt (or_zero (next_answer w)) in
  (given (tables values) = false /\ interactive values = true
   /\ confirm values = false)
  /\ db (final r) = db w
  /\ stdin (final r) = tail (stdin w)
  /\ Forall no_sql (trace r)
  /\ (answer = Some 1%Z -> outcome r = Ret ["users"])
  /\ (answer = Some 2%Z ->
      outcome r = Exit 0
      /\ last (trace r)
         = Some (Log (Text (nl +:+ "Feature not yet implemented. Use --tables=t1,t2 for now."))))
  /\ (answer <> Some 1%Z -> answer <> Some 2%Z ->
      outcome r = Exit 0
      /\ last (trace r) = Some (Log (Text (nl +:+ "Cancelled.")))).
Proof.
  cbv zeta. split; [by repeat split|].
  exact (menu_goes_on_with_the_first_choice_only
           (flags false None false true) Drop ["users"]
           (world [("users", 10)] [] [Some " 2"]) eq_refl eq_refl eq_refl).
Defined.

(** ** The preview and the deletion *)






(** A name listed twice is counted twice by the preview and deleted
    once. *)
Example repeated_name_overstates_the_preview :
  let w := world [("users", 10)] [] [] in
  let counting := getTableStats ["users"; "users"] w in
  outcome counting = Ret [ {| name := "users"; rowCount := 10 |};
                           {| name := "users"; rowCount := 10 |} ]
  /\ outcome (deleteTables ["users"; "users"] (final counting)) = Ret 10.
Proof. vm_compute. done. Qed.

(** ** What discovery lists *)

Lemma like_sqlite_prefix (s : string) :
  s <> "" -> like_sqlite ("sqlite" +:+ s) = true.
Proof. by destruct s. Qed.

Lemma like_drizzle_from_third (a b : ascii) (s : string) :
  nat_of_ascii b < 128 ->
  like_drizzle (String a (String b ("drizzle" +:+ s))) = true.
Proof.
  intros Hb. unfold like_drizzle. cbn [skip_char skip_continuation].
  assert (Hnot : (128 <=? nat_of_ascii b) = false) by (apply Nat.leb_gt; lia).
  rewrite Hnot. cbn [andb skip_char]. reflexivity.
Qed.

(** X8. When the discovery query gets through, [getAllTables] returns
    the existing tables whose name matches neither [sqlite_%] nor
    [__drizzle%], each once, in ascending order of their names, and
    leaves the database as it was. Because [_] stands for any
    character in these patterns, a table whose name is sqlite followed
    by anything, or has drizzle from its third character on, is never
    listed, hence never cleaned. *)
Theorem getAllTables_lists_the_user_tables (w : World) :
  next_call_passes w ->
  let r := getAllTables w in
  exists l,
    outcome r = Ret l
    /\ db (final r) = db w
    /\ (forall t, t ∈ l <->
          is_Some (master (db w) !! t)
          /\ like_sqlite t = false /\ like_drizzle t = false)
    /\ NoDup l
    /\ StronglySorted String.le l
    /\ (forall s, s <> "" -> ("sqlite" +:+ s) ∉ l)
    /\ (forall a b s, nat_of_ascii a < 128 -> nat_of_ascii b < 128 ->
          String a (String b ("drizzle" +:+ s)) ∉ l).
Proof.
  intros Hpass. cbv zeta. exists (user_tables (db w)).
  assert (Hin : forall t, t ∈ user_tables (db w) <->
            is_Some (master (db w) !! t)
            /\ like_sqlite t = false /\ like_drizzle t = false).
  { intros t. unfold user_tables. rewrite merge_sort_Permutation.
    rewrite elem_of_List_filter, elem_of_elements, elem_of_dom.
    unfold user_table. rewrite andb_true_iff, !negb_true_iff. tauto. }
  split.
  { rewrite getAllTables_run. unfold next_call_passes in Hpass.
    by destruct (head (faults w)) as [[msg|]|]. }
  split.
  { rewrite getAllTables_run. by destruct (head (faults w)) as [[msg|]|]. }
  split; [done|].
  split.
  { unfold user_tables. rewrite merge_sort_Permutation.
    apply NoDup_ListNoDup, List.NoDup_filter, NoDup_ListNoDup, NoDup_elements. }
  split; [apply StronglySorted_merge_sort; apply _|].
  split.
  - intros s Hs Hl. apply Hin in Hl as (_ & Hl & _).
    by rewrite like_sqlite_prefix in Hl.
  - intros a b s _ Hb Hl. apply Hin in Hl as (_ & _ & Hl).
    by rewrite like_drizzle_from_third in Hl.
Qed.

Lemma getAllTables_lists_the_user_tables_witness :
  let w := world [("users", 1); ("sqlite_sequence", 1); ("sqlitedata", 5);
                  ("__drizzle_migrations", 2); ("sessions", 0);
                  ("mydrizzle", 4)] [] [] in
  let r := getAllTables w in
  next_call_passes w
  /\ exists l,
       outcome r = Ret l
       /\ db (final r) = db w
       /\ (forall t, t ∈ l <->
             is_Some (master (db w) !! t)
             /\ like_sqlite t = false /\ like_drizzle t = false)
       /\ NoDup l
       /\ StronglySorted String.le l
       /\ (forall s, s <> "" -> ("sqlite" +:+ s) ∉ l)
       /\ (forall a b s, nat_of_ascii a < 128 -> nat_of_ascii b < 128 ->
             String a (String b ("drizzle" +:+ s)) ∉ l).
Proof.
  cbv zeta. split; [exact I|].
  exact (getAllTables_lists_the_user_tables
           (world [("users", 1); ("sqlite_sequence", 1); ("sqlitedata", 5);
                   ("__drizzle_migrations", 2); ("sessions", 0);
                   ("mydrizzle", 4)] [] []) I).
Defined.

(** ** The tables that the statements of a run name *)

Section Named.

(** [allowed] holds of the names that the run may put in a statement. *)
Context (allowed : string -> Prop).














End Named.



(** On a database that holds the migrations table and a sequence table,
    the statements of a confirmed drop name the user table only. *)
Example internal_tables_are_not_named :
  omap (fun e => match e with Sql q _ => target q | _ => None end)
    (trace (entry (flags true None false true)
              (world [("users", 10); ("__drizzle_migrations", 7);
                      ("sqlite_sequence", 1)] [] [])))
  = ["users"; "users"].
Proof. by vm_compute. Qed.



(** ** Naming the tables on the command line *)

Lemma split_comma_not_nil (s : string) : JS.split_comma s <> [].
Proof.
  induction s as [|ch s IH]; [done|]. cbn [JS.split_comma].
  destruct (Ascii.eqb ch ","); [done|]. by destruct (JS.split_comma s).
Qed.

Lemma split_comma_single (n : string) :
  comma_free n -> JS.split_comma n = [n].
Proof.
  induction n as [|ch n IH]; [done|]. intros Hn.
  apply Forall_cons in Hn as [Hch Hn]. cbn [JS.split_comma].
  apply Ascii.eqb_neq in Hch. rewrite Hch, IH by done. done.
Qed.

Lemma split_comma_cons (n s : string) :
  comma_free n ->
  JS.split_comma (n +:+ String "," s) = n :: JS.split_comma s.
Proof.
  induction n as [|ch n IH]; [done|]. intros Hn.
  apply Forall_cons in Hn as [Hch Hn].
  change (String ch n +:+ String "," s) with (String ch (n +:+ String "," s)).
  cbn [JS.split_comma]. apply Ascii.eqb_neq in Hch.
  rewrite Hch, IH by done. done.
Qed.

Lemma split_comma_concat (names : list string) :
  names <> [] -> Forall comma_free names ->
  JS.split_comma (String.concat "," names) = names.
Proof.
  induction names as [|n names IH]; [done|]. intros _ Hall.
  apply Forall_cons in Hall as [Hn Hall].
  destruct names as [|n' names]; [by apply split_comma_single|].
  change (String.concat "," (n :: n' :: names))
    with (n +:+ String "," (String.concat "," (n' :: names))).
  rewrite split_comma_cons by done. by rewrite IH.
Qed.

Lemma requested_names_concat (names : list string) :
  names <> [] -> Forall plain_name names ->
  requested_names (String.concat "," names) = names.
Proof.
  intros Hne Hall. unfold requested_names.
  rewrite split_comma_concat.
  - clear Hne. induction Hall as [|n names (Hn & _ & Htrim) Hall IH]; [done|].
    cbn [map List.filter]. rewrite Htrim, IH.
    by destruct n.
  - done.
  - eapply Forall_impl; [apply Hall|]. by intros n (_ & Hn & _).
Qed.

Lemma concat_not_empty (names : list string) :
  names <> [] -> Forall plain_name names -> String.concat "," names <> "".
Proof.
  intros Hne Hall. destruct Hall as [|n names (Hn & _) Hall]; [done|].
  destruct n as [|ch n]; [done|]. by destruct names.
Qed.

(** X11. Naming tables on the command line works as written: for names
    that are not empty, hold no comma and have no white space at their
    ends, [--tables] with the names joined by commas requests exactly
    these names, in this order. When all of them were discovered,
    [filterTables] returns them as they are and prints no warning. *)
Theorem plain_names_are_selected_as_given (allTables names : list string)
  (w : World) :
  names <> [] -> Forall plain_name names ->
  let r := filterTables allTables (Some (String.concat "," names)) w in
  requested_names (String.concat "," names) = names
  /\ final r = w
  /\ outcome r = Ret (List.filter (JS.includes allTables) names)
  /\ (Forall (fun n => n ∈ allTables) names ->
      outcome r = Ret names /\ trace r = []).
Proof.
  intros Hne Hall. cbv zeta.
  pose proof (requested_names_concat names Hne Hall) as Hreq.
  pose proof (concat_not_empty names Hne Hall) as Hs.
  destruct (String.concat "," names) as [|c s] eqn:Hc; [done|].
  rewrite filterTables_run. cbv zeta. rewrite Hreq. cbn [outcome final trace].
  split; [done|]. split; [done|]. split; [done|].
  intros Hin.
  assert (Hkeep : List.filter (JS.includes allTables) names = names).
  { clear -Hin. induction Hin as [|n names Hn Hin IH]; [done|].
    cbn [List.filter]. apply includes_elem_of in Hn. by rewrite Hn, IH. }
  assert (Hnone : List.filter (fun t => negb (JS.includes allTables t)) names
                  = []).
  { clear -Hin. induction Hin as [|n names Hn Hin IH]; [done|].
    cbn [List.filter]. apply includes_elem_of in Hn. by rewrite Hn, IH. }
  by rewrite Hkeep, Hnone.
Qed.

Lemma plain_names_are_selected_as_given_witness :
  let names := ["users"; "user sessions"; "Orders_2024"] in
  let allTables := ["Orders_2024"; "posts"; "user sessions"; "users"] in
  let w := world [] [] [] in
  let r := filterTables allTables (Some (String.concat "," names)) w in
  (names <> [] /\ Forall plain_name names)
  /\ requested_names (String.concat "," names) = names
  /\ final r = w
  /\ outcome r = Ret (List.filter (JS.includes allTables) names)
  /\ (Forall (fun n => n ∈ allTables) names ->
      outcome r = Ret names /\ trace r = []).
Proof.
  assert (Hne : ["users"; "user sessions"; "Orders_2024"] <> []) by done.
  assert (Hall : Forall plain_name ["users"; "user sessions"; "Orders_2024"]).
  { repeat constructor; try done; intros [=]. }
  cbv zeta. split; [by split|].
  exact (plain_names_are_selected_as_given
           ["Orders_2024"; "posts"; "user sessions"; "users"]
           ["users"; "user sessions"; "Orders_2024"] (world [] [] []) Hne Hall).
Defined.

(** ** The preview and the real run *)






(** ** Running the same command again *)

Lemma selection_same_tables (values : Values) (d d' : Database) :
  dom (master d') = dom (master d) -> selection values d' = selection values d.
Proof. unfold selection, user_tables. by intros ->. Qed.

Lemma dom_emptied (m : gmap string nat) (tables : list string) :
  (forall t, t ∈ tables -> is_Some (m !! t)) -> dom (emptied m tables) = dom m.
Proof.
  revert m. induction tables as [|x tables IH]; intros m Hall; [done|].
  unfold emptied in *. cbn [foldl]. rewrite IH.
  - apply dom_insert_lookup_L, Hall. by left.
  - intros t Ht. destruct (decide (x = t)) as [->|Hne].
    + rewrite lookup_insert_eq. by eexists.
    + rewrite lookup_insert_ne by done. apply Hall. by right.
Qed.

Lemma dom_sequences_reset (m : gmap string nat) :
  dom (sequences_reset m) = dom m.
Proof.
  unfold sequences_reset.
  destruct (m !! "sqlite_sequence") eqn:Hs; [|done].
  apply dom_insert_lookup_L. by eexists.
Qed.

Lemma sequences_reset_lookup (m : gmap string nat) (t : string) (n : nat) :
  m !! t = Some 0 -> sequences_reset m !! t = Some 0.
Proof.
  intros Ht. unfold sequences_reset.
  destruct (m !! "sqlite_sequence") eqn:Hs; [|done].
  destruct (decide (t = "sqlite_sequence")) as [->|Hne].
  - apply lookup_insert_eq.
  - by rewrite lookup_insert_ne.
Qed.

Lemma sequences_reset_again (m : gmap string nat) :
  sequences_reset (sequences_reset m) = sequences_reset m.
Proof.
  unfold sequences_reset at 2.
  destruct (m !! "sqlite_sequence") eqn:Hs.
  - unfold sequences_reset. rewrite lookup_insert_eq, Hs.
    apply insert_insert_eq.
  - unfold sequences_reset. by rewrite Hs.
Qed.

(** Cleaning again what has been cleaned changes nothing and deletes no
    row. *)
Lemma processed_again (m : gmap string nat) (selected : list string) :
  let m' := processed Delete m selected in
  processed Delete m' selected = m'
  /\ sum_list (pre_delete_counts m' selected) = 0.
Proof.
  cbv zeta. cbn [processed].
  assert (Hzero : forall t, t ∈ selected ->
            sequences_reset (emptied m selected) !! t = Some 0).
  { intros t Ht. apply sequences_reset_lookup; [exact 0|].
    by apply emptied_lookup. }
  destruct (emptied_again _ _ Hzero) as [Hsum Hsame].
  split; [|done]. rewrite Hsame. apply sequences_reset_again.
Qed.

(** Nothing is left to select once the selection has been dropped. *)
Lemma selection_after_drop (values : Values) (d d' : Database) :
  master d' = dropped (master d) (selection values d) ->
  selection values d' = [].
Proof.
  intros Hm.
  assert (Hgone : forall t, t ∈ user_tables d' ->
            t ∈ user_tables d /\ t ∉ selection values d).
  { intros t Ht. apply elem_of_user_tables in Ht as [Hsome Hu].
    rewrite Hm in Hsome.
    destruct (decide (t ∈ selection values d)) as [Hin|Hout].
    - rewrite dropped_lookup in Hsome by done. by destruct Hsome.
    - rewrite dropped_lookup_other in Hsome by done.
      split; [|done]. by apply elem_of_user_tables. }
  apply elem_of_nil_inv. intros t Ht.
  pose proof (elem_of_selection _ _ _ Ht) as Hnew.
  destruct (Hgone t Hnew) as [Hold Hout]. apply Hout.
  unfold selection in *. destruct (tables values) as [[|c s]|]; [done| |done].
  apply elem_of_List_filter in Ht as [Hreq _].
  apply elem_of_List_filter. split; [done|]. by apply includes_elem_of.
Qed.

(** X13. Running the same confirmed command a second time is harmless.
    After a run with [--confirm] and without [--dry-run] on a connection
    that fails no call, on a database of independent tables whose
    selected names hold no double quote, the same command run again
    fails no statement and leaves the database exactly as the first run
    left it. In drop mode, and whenever the first run selected nothing,
    the second run finds nothing to process and exits with status 0; in
    delete mode it selects the same tables and reports zero rows
    deleted. *)
Theorem second_run_changes_nothing (values : Values) (w : World) :
  confirm values = true -> dry_run values = false -> reliable w ->
  quotable_names (selection values (db w)) ->
  let first := entry values w in
  let second := entry values (final first) in
  Forall succeeded (trace second)
  /\ db (final second) = db (final first)
  /\ match operation_of values, selection values (db w) with
     | Delete, _ :: _ =>
         outcome second = Ret tt
         /\ selection values (db (final first)) = selection values (db w)
         /\ In (Log (TotalRowsDeleted 0)) (trace second)
     | _, _ =>
         outcome second = Exit 0
         /\ selection values (db (final first)) = []
     end.
Proof.
  intros Hc Hd Hrel Hnames. cbv zeta.
  destruct (entry_confirmed values w Hc Hd Hrel Hnames) as (_ & Hrel1 & Hfirst).
  cbv zeta in Hfirst.
  set (w1 := final (entry values w)) in *.
  pose proof (selection_exists values (db w)) as Hex.
  assert (Hnext : match operation_of values, selection values (db w) with
                  | Delete, _ :: _ =>
                      selection values (db w1) = selection values (db w)
                  | _, _ => selection values (db w1) = []
                  end).
  { destruct (selection values (db w)) as [|s selected] eqn:Hsel.
    - destruct Hfirst as [_ Hdb]. rewrite Hdb, Hsel.
      by destruct (operation_of values).
    - destruct Hfirst as (_ & Hm & _). destruct (operation_of values).
      + rewrite <- Hsel. apply selection_same_tables. rewrite Hm.
        cbn [processed]. rewrite dom_sequences_reset. by apply dom_emptied.
      + apply (selection_after_drop values (db w)). by rewrite Hm, Hsel. }
  assert (Hnames1 : quotable_names (selection values (db w1))).
  { destruct (operation_of values), (selection values (db w));
      rewrite Hnext; first [exact Hnames | apply Forall_nil; done]. }
  destruct (entry_confirmed values w1 Hc Hd Hrel1 Hnames1)
    as (Hok & _ & Hsecond).
  cbv zeta in Hsecond.
  split; [done|].
  destruct (selection values (db w)) as [|s selected] eqn:Hsel.
  { destruct Hfirst as [_ Hdb]. rewrite Hdb, Hsel in Hsecond.
    destruct Hsecond as [Ho Hdb2].
    split; [by rewrite Hdb2|]. rewrite Hdb, Hsel.
    by destruct (operation_of values). }
  destruct Hfirst as (_ & Hm & Hfk & _).
  destruct (operation_of values) eqn:Hop.
  - rewrite Hnext in Hsecond.
    destruct Hsecond as (Ho & Hm2 & Hfk2 & _ & Htotal).
    destruct (processed_again (master (db w)) (s :: selected)) as [Hagain Hsum].
    rewrite Hm in Hm2, Htotal. rewrite Hagain in Hm2.
    rewrite Hsum in Htotal.
    split; [|by auto].
    rewrite <- Hm in Hm2. rewrite <- Hfk in Hfk2.
    destruct (db (final (entry values w1))), (db w1). simpl in *. by subst.
  - rewrite Hnext in Hsecond. destruct Hsecond as [Ho Hdb2]. done.
Qed.

Lemma second_run_changes_nothing_witness :
  let values := flags true None false false in
  let w := world [("users", 10); ("sessions", 3); ("sqlite_sequence", 2)]
             [] [] in
  let first := entry values w in
  let second := entry values (final first) in
  (confirm values = true /\ dry_run values = false /\ reliable w
   /\ quotable_names (selection values (db w)))
  /\ Forall succeeded (trace second)
  /\ db (final second) = db (final first)
  /\ match operation_of values, selection values (db w) with
     | Delete, _ :: _ =>
         outcome second = Ret tt
         /\ selection values (db (final first)) = selection values (db w)
         /\ In (Log (TotalRowsDeleted 0)) (trace second)
     | _, _ =>
         outcome second = Exit 0
         /\ selection values (db (final first)) = []
     end.
Proof.
  assert (Hrel : reliable (world [("users", 10); ("sessions", 3);
                                  ("sqlite_sequence", 2)] [] []))
    by constructor.
  assert (Hnames : quotable_names
                     (selection (flags true None false false)
                        (db (world [("users", 10); ("sessions", 3);
                                    ("sqlite_sequence", 2)] [] []))))
    by (vm_compute; repeat constructor).
  cbv zeta. split; [by repeat split|].
  exact (second_run_changes_nothing (flags true None false false)
           (world [("users", 10); ("sessions", 3); ("sqlite_sequence", 2)]
              [] [])
           eq_refl eq_refl Hrel Hnames).
Defined.

(** ** Enforcement after the destructive phase *)

Ltac find_in :=
  repeat first [rewrite in_app_iff | progress (cbn [In])];
  repeat (first [by left | right]).

(** X14. The destructive phase never leaves the enforcement of foreign
    keys off without saying so: from a database that enforces them,
    either they are enforced again when the phase ends, or the phase
    has failed, its attempt to switch them back on has failed too, and
    it has printed "Failed to re-enable foreign keys" with the reason
    before throwing the first error. *)
Theorem enforcement_is_left_off_only_with_a_notice (operation : Operation)
  (tablesToProcess : list string) (w : World) :
  foreign_keys (db w) = true ->
  let r := performCleanup operation tablesToProcess w in
  foreign_keys (db (final r)) = true
  \/ exists error fkError,
       outcome r = Throw error
       /\ In (Sql (ForeignKeys true) (Some fkError)) (trace r)
       /\ In (Log (Text "✗ Failed to re-enable foreign keys")) (trace r)
       /\ last (trace r) = Some (Log (Text ("  " +:+ fkError))).
Proof.
  intros Hon. cbv zeta.
  pose proof (performCleanup_shape operation tablesToProcess w) as Hshape.
  cbv zeta in Hshape. rewrite Hon in Hshape. revert Hshape.
  generalize (outcome (performCleanup operation tablesToProcess w)),
    (trace (performCleanup operation tablesToProcess w)),
    (foreign_keys (db (final (performCleanup operation tablesToProcess w)))),
    (foreignKeysDisabled (final (performCleanup operation tablesToProcess w))).
  intros o tr fk flag Hshape.
  inversion Hshape as [pre mid post Hpre Hmid Hpost|pre e Hpre
                      |pre mid e fkError Hpre Hmid
                      |pre mid e fkError Hpre Hmid]; subst;
    [by left|by left|..].
  all: destruct fkError as [msg|]; [right|by left].
  all: exists e, msg; split; [done|].
  all: cbn [restore_events handler_lines].
  all: split; [find_in|]; split; [find_in|].
  - apply last_Some.
    exists (pre ++ Sql (ForeignKeys false) None :: mid ++ handler_lines e
              ++ [Sql (ForeignKeys true) (Some msg);
                  Log (Text "✗ Failed to re-enable foreign keys")]).
    repeat first [rewrite <- app_assoc | rewrite <- app_comm_cons].
    reflexivity.
  - apply last_Some.
    exists (pre ++ Sql (ForeignKeys false) None :: mid
              ++ Sql (ForeignKeys true) (Some e) :: handler_lines e
              ++ [Sql (ForeignKeys true) (Some msg);
                  Log (Text "✗ Failed to re-enable foreign keys")]).
    repeat first [rewrite <- app_assoc | rewrite <- app_comm_cons].
    reflexivity.
Qed.

Lemma enforcement_is_left_off_only_with_a_notice_witness :
  let w := world [("users", 10)] [None; Some "busy"; Some "gone"] [] in
  let r := performCleanup Delete ["users"] w in
  foreign_keys (db w) = true
  /\ (foreign_keys (db (final r)) = true
      \/ exists error fkError,
           outcome r = Throw error
           /\ In (Sql (ForeignKeys true) (Some fkError)) (trace r)
           /\ In (Log (Text "✗ Failed to re-enable foreign keys")) (trace r)
           /\ last (trace r) = Some (Log (Text ("  " +:+ fkError)))).
Proof.
  cbv zeta. split; [reflexivity|].
  exact (enforcement_is_left_off_only_with_a_notice Delete ["users"]
           (world [("users", 10)] [None; Some "busy"; Some "gone"] [])
           eq_refl).
Defined.

(** ** Destructive statements and the enforcement of foreign keys *)

Lemma guarded_app (off : bool) (a b : list event) :
  guarded off (a ++ b) = guarded off a && guarded (after off a) b.
Proof.
  revert off. induction a as [|e a IH]; intros off; [done|].
  change (after off (e :: a)) with (after (switched off e) a).
  cbn [app guarded]. rewrite IH. by rewrite andb_assoc.
Qed.

Lemma after_app (off : bool) (a b : list event) :
  after off (a ++ b) = after (after off a) b.
Proof. unfold after. apply foldl_app. Qed.

Lemma harmless_guarded (off : bool) (tr : list event) :
  Forall harmless tr -> guarded off tr = true /\ after off tr = off.
Proof.
  induction 1 as [|e tr He Htr IH]; [done|].
  change (after off (e :: tr)) with (after (switched off e) tr).
  cbn [guarded].
  assert (Hs : switched off e = off).
  { destruct e as [| |q err]; [done..|]. by destruct q. }
  rewrite Hs. destruct IH as [-> ->].
  split; [|done]. destruct e as [| |q err]; [done..|]. by destruct q.
Qed.

Lemma no_pragma_guarded (tr : list event) :
  Forall no_pragma tr -> guarded true tr = true /\ after true tr = true.
Proof.
  induction 1 as [|e tr He Htr IH]; [done|].
  change (after true (e :: tr)) with (after (switched true e) tr).
  cbn [guarded].
  assert (Hs : switched true e = true).
  { destruct e as [| |q err]; [done..|]. by destruct q. }
  rewrite Hs. destruct IH as [-> ->].
  split; [|done]. destruct e as [| |q err]; [done..|]. by rewrite orb_true_r.
Qed.

Lemma mild_guarded (off : bool) (tr : list event) :
  Forall mild tr -> guarded off tr = true.
Proof.
  intros Htr. revert off.
  induction Htr as [|e tr He Htr IH]; intros off; [done|].
  cbn [guarded]. rewrite IH, andb_true_r.
  destruct e as [| |q err]; [done..|]. simpl in He. by rewrite He.
Qed.

Lemma guards_bind {A B} (off : bool) (m : M A) (k : A -> M B)
  (Qm : Outcome A -> bool -> Prop) (Q : Outcome B -> bool -> Prop) :
  guards off m Qm ->
  (forall a s, Qm (Ret a) s -> guards s (k a) Q) ->
  (forall e s, Qm (Throw e) s -> Q (Throw e) s) ->
  (forall n s, Qm (Exit n) s -> Q (Exit n) s) ->
  guards off (m ≫= k) Q.
Proof.
  intros Hm Hk He Hn w. rewrite bind_run. destruct (Hm w) as [Hg HQ].
  destruct (outcome (m w)) as [a|e|n]; cbn [outcome trace]; [|by auto..].
  destruct (Hk a _ HQ (final (m w))) as [Hg' HQ'].
  by rewrite guarded_app, after_app, Hg, Hg'.
Qed.

Lemma guards_try_catch {A} (off : bool) (body : M A) (h : string -> M A)
  (Qb Q : Outcome A -> bool -> Prop) :
  guards off body Qb ->
  (forall e s, Qb (Throw e) s -> guards s (h e) Q) ->
  (forall a s, Qb (Ret a) s -> Q (Ret a) s) ->
  (forall n s, Qb (Exit n) s -> Q (Exit n) s) ->
  guards off (try_catch body h) Q.
Proof.
  intros Hb Hh Ha Hn w. rewrite try_catch_run. destruct (Hb w) as [Hg HQ].
  destruct (outcome (body w)) as [a|e|n] eqn:Ho; cbn [outcome trace].
  - rewrite Ho. by auto.
  - destruct (Hh e _ HQ (final (body w))) as [Hg' HQ'].
    by rewrite guarded_app, after_app, Hg, Hg'.
  - rewrite Ho. by auto.
Qed.

Lemma guards_harmless {X A} (view : World -> X) (E : nat -> Prop)
  (T : string -> Prop) (R : A -> Prop) (off : bool) (m : M A) :
  respects view harmless E T R m ->
  guards off m (fun o s => s = off /\ match o with Ret a => R a | _ => True end).
Proof.
  intros Hm w. destruct (Hm w) as (_ & Htr & Ho).
  destruct (harmless_guarded off _ Htr) as [-> ->].
  split; [done|]. split; [done|]. by destruct (outcome (m w)).
Qed.

Lemma guards_inside {X A} (view : World -> X) (E : nat -> Prop)
  (T : string -> Prop) (R : A -> Prop) (m : M A) :
  respects view no_pragma E T R m -> guards true m (fun _ s => s = true).
Proof.
  intros Hm w. destruct (Hm w) as (_ & Htr & _).
  by destruct (no_pragma_guarded _ Htr) as [-> ->].
Qed.

Lemma guards_mild {X A} (view : World -> X) (E : nat -> Prop)
  (T : string -> Prop) (R : A -> Prop) (off : bool) (m : M A) :
  respects view mild E T R m -> guards off m (fun _ _ => True).
Proof.
  intros Hm w. destruct (Hm w) as (_ & Htr & _).
  by rewrite mild_guarded.
Qed.

Lemma guards_disable (off : bool) :
  guards off (db_run (ForeignKeys false))
    (fun o s => match o with Ret _ => s = true | _ => True end).
Proof.
  intros w. rewrite foreign_keys_run.
  by destruct (head (faults w)) as [[msg|]|].
Qed.

Lemma destructive_handler_mild (error : string) :
  respects (fun _ => tt) mild anything anything anything
    (destructive_handler error).
Proof.
  unfold destructive_handler. logic.
  apply respects_try_catch with (Tb := anything); [|intros; logic].
  logic. by apply respects_db_run.
Qed.

Lemma performCleanup_guards (off : bool) (operation : Operation)
  (tablesToProcess : list string) :
  guards off (performCleanup operation tablesToProcess) (fun _ _ => True).
Proof.
  unfold performCleanup.
  eapply guards_bind; [| |done..].
  { apply (guards_harmless (fun _ => tt) anything anything anything).
    by apply section_spec. }
  intros _ s [-> _].
  eapply guards_bind; [| |done..].
  { apply (guards_harmless (fun _ => tt) anything anything anything). logic. }
  intros _ s [-> _].
  eapply guards_try_catch with (Qb := fun _ _ => True); [| |done..].
  2: { intros e s _.
       apply (guards_mild (fun _ => tt) anything anything anything).
       apply destructive_handler_mild. }
  unfold destructive_body.
  eapply guards_bind; [apply guards_disable| |done..].
  intros _ s ->.
  eapply guards_bind; [| |done..].
  { apply (guards_inside (fun _ => tt) anything anything anything). logic. }
  intros _ s ->.
  eapply guards_bind; [| |done..].
  { eapply guards_inside. apply operate_spec. }
  intros total s ->.
  apply (guards_mild (fun _ => tt) anything anything anything). logic.
  - by apply respects_db_run.
  - by apply displayResults_spec.
Qed.

Lemma cleanup_guards (values : Values) :
  guards false (cleanup values) (fun _ _ => True).
Proof.
  unfold cleanup.
  eapply guards_bind; [| |done..].
  { apply (guards_harmless (fun _ => tt) anything anything anything).
    logic. by apply displayBanner_spec. }
  intros _ s [-> _].
  eapply guards_bind; [| |done..].
  { apply (guards_harmless (fun _ => tt) anything anything anything).
    unfold spinner. by apply getAllTables_spec. }
  intros allTables s [-> _].
  eapply guards_bind; [| |done..].
  { apply (guards_harmless (fun _ => tt) anything anything anything). logic. }
  intros _ s [-> _]. cbv zeta.
  eapply guards_bind; [| |done..].
  { apply (guards_harmless (fun _ => tt) anything anything anything).
    by apply selectTables_spec. }
  intros tablesToProcess s [-> _].
  eapply guards_bind; [| |done..].
  { apply (guards_harmless (fun _ => tt) anything anything anything). logic. }
  intros _ s [-> _].
  eapply guards_bind; [| |done..].
  { apply (guards_harmless (fun _ => tt) anything anything anything).
    unfold spinner. by apply getTableStats_spec. }
  intros stats s [-> _].
  eapply guards_bind; [| |done..].
  { apply (guards_harmless (fun _ => tt) anything anything anything).
    by apply displayTableStats_spec. }
  intros _ s [-> _].
  eapply guards_bind; [| |done..].
  { apply (guards_harmless (fun _ => tt) anything anything anything). logic. }
  intros _ s [-> _].
  eapply guards_bind; [| |done..].
  { apply (guards_harmless (fun _ => tt) anything anything anything).
    unfold confirmOperation. logic.
    - by apply displayWarning_spec.
    - by apply promptYesNo_spec. }
  intros _ s [-> _].
  apply performCleanup_guards.
Qed.

Lemma gracefulExit_mild (signal : string) :
  respects (fun _ => tt) mild anything anything anything (gracefulExit signal).
Proof.
  unfold gracefulExit. logic.
  apply respects_try_catch with (Tb := anything); [|intros; logic].
  unfold await_cleanupPromise. logic.
  apply respects_try_catch with (Tb := anything); [|intros; logic].
  logic. by apply respects_db_run.
Qed.

(** X15. Whatever the flags, the answers and the failures, a run sends
    a DELETE or a DROP only while it has the enforcement of foreign
    keys switched off: after its own [PRAGMA foreign_keys = OFF] has
    succeeded and before it sends [PRAGMA foreign_keys = ON], be it at
    the end of the phase, in the catch block or in the exit handler. *)
Theorem destructive_statements_are_guarded (values : Values) (w : World) :
  guarded false (trace (entry values w)) = true.
Proof.
  assert (Hentry : guards false (entry values) (fun _ _ => True)).
  { unfold entry.
    eapply guards_bind; [| |done..].
    { apply (guards_harmless (fun _ => tt) anything anything anything). logic. }
    intros _ s [-> _].
    eapply guards_bind; [| |done..].
    { apply (guards_harmless (fun _ => tt) anything anything anything). logic. }
    intros _ s [-> _].
    eapply guards_try_catch with (Qb := fun _ _ => True); [| |done..].
    - eapply guards_bind; [apply cleanup_guards| |done..].
      intros _ s _.
      apply (guards_mild (fun _ => tt) anything anything anything). logic.
    - intros e s _.
      apply (guards_mild (fun _ => tt) anything anything anything).
      unfold onRejected. logic. apply gracefulExit_mild. }
  by destruct (Hentry w).
Qed.

(** The check at work: a DELETE before the switch, or after the attempt
    to switch enforcement back on, is refused. *)
Example guarded_examples :
  guarded false [Sql (ForeignKeys false) None; Sql (DeleteFrom "users") None;
                 Sql (ForeignKeys true) None] = true
  /\ guarded false [Sql (DeleteFrom "users") None] = false
  /\ guarded false [Sql (ForeignKeys false) (Some "busy");
                    Sql (DropTable "users") None] = false
  /\ guarded false [Sql (ForeignKeys false) None;
                    Sql (ForeignKeys true) (Some "busy");
                    Sql (DeleteFrom "users") None] = false.
Proof. done. Qed.

(** ** The exit handler outside a forced close *)

(** X16. When a signal arrives while no main flow is pending and the
    handler is not already running, the exit handler sets
    [isCleaningUp], prints that it received the signal, sends exactly
    one statement, [PRAGMA foreign_keys = ON], without consulting
    whether enforcement had been switched off, prints whether that
    worked, says goodbye and exits with status 0. A failed restore is a
    warning only: the status is still 0 and enforcement is left as it
    was; the tables are never touched. (With a main flow pending, the
    handler first waits for it, up to five seconds, and what that flow
    sends in the meantime comes first.) *)
Theorem gracefulExit_restores_and_says_goodbye (signal : string) (w : World) :
  isCleaningUp w = false ->
  cleanupPromise w = false ->
  let r := gracefulExit signal w in
  exists err,
    trace r
    = [Log (Text (nl +:+ nl +:+ "⚠ Received " +:+ signal +:+ ", cleaning up..."));
       Sql (ForeignKeys true) err;
       Log (Text (restore_notice err));
       Log (Text ("Goodbye!" +:+ nl))]
    /\ (err = None <-> next_call_passes w)
    /\ outcome r = Exit 0
    /\ isCleaningUp (final r) = true
    /\ master (db (final r)) = master (db w)
    /\ foreign_keys (db (final r))
       = match err with
         | None => true
         | Some _ => foreign_keys (db w)
         end.
Proof.
  intros Hc _. cbv zeta.
  destruct (gracefulExit_run signal w Hc)
    as (err & w' & -> & Herr & Hflag & Hm & Hfk).
  exists err. cbn [outcome final trace]. by repeat split; try apply Herr.
Qed.

Lemma gracefulExit_restores_and_says_goodbye_witness :
  let w := with_foreignKeysDisabled true
             (world [("users", 10)] [Some "busy"] []) in
  let r := gracefulExit "SIGINT" w in
  (isCleaningUp w = false /\ cleanupPromise w = false)
  /\ exists err,
       trace r
       = [Log (Text (nl +:+ nl +:+ "⚠ Received " +:+ "SIGINT" +:+
                     ", cleaning up..."));
          Sql (ForeignKeys true) err;
          Log (Text (restore_notice err));
          Log (Text ("Goodbye!" +:+ nl))]
       /\ (err = None <-> next_call_passes w)
       /\ outcome r = Exit 0
       /\ isCleaningUp (final r) = true
       /\ master (db (final r)) = master (db w)
       /\ foreign_keys (db (final r))
          = match err with
            | None => true
            | Some _ => foreign_keys (db w)
            end.
Proof.
  cbv zeta. split; [by split|].
  exact (gracefulExit_restores_and_says_goodbye "SIGINT"
           (with_foreignKeysDisabled true
              (world [("users", 10)] [Some "busy"] [])) eq_refl eq_refl).
Defined.

(** ** The interactive run that is confirmed by hand *)

Lemma performCleanup_asks_nothing (operation : Operation)
  (tablesToProcess : list string) :
  respects stdin no_prompt anything anything anything
    (performCleanup operation tablesToProcess).
Proof.
  assert (Hon : forall (on : bool) (R : unit -> Prop), R tt ->
            respects stdin no_prompt anything anything R
              (db_run (ForeignKeys on))).
  { intros on R HR. by apply respects_db_run. }
  unfold performCleanup. logic; [by apply section_spec|].
  apply respects_try_catch with (Tb := anything).
  - unfold destructive_body. logic; [by apply Hon| |by apply Hon
                                     |by apply displayResults_spec].
    unfold operate. logic.
    + by apply deleteTables_from_spec.
    + by apply resetSequences_spec.
    + by apply dropTables_spec.
  - intros e _. unfold destructive_handler. logic.
    apply respects_try_catch with (Tb := anything); [|intros; logic].
    logic. by apply Hon.
Qed.

Lemma logs_succeeded (tr : list event) :
  Forall (fun e => exists o, e = Log o) tr -> Forall succeeded tr.
Proof. intros Htr. eapply Forall_impl; [apply Htr|]. by intros e [o ->]. Qed.

Lemma cleanup_by_hand (values : Values) (w : World) (first second : string)
  (others : list (option string)) :
  confirm values = false -> interactive values = true ->
  given (tables values) = false -> dry_run values = false ->
  reliable w ->
  stdin w = Some first :: Some second :: others ->
  JS.parseInt (or_zero (Some first)) = Some 1%Z ->
  affirmative (Some second) ->
  user_tables (db w) <> [] ->
  quotable_names (user_tables (db w)) ->
  exists w' tr,
    cleanup values w = {| outcome := Ret tt; final := w'; trace := tr |}
    /\ master (db w')
       = processed (operation_of values) (master (db w)) (user_tables (db w))
    /\ foreign_keys (db w') = true
    /\ stdin w' = others
    /\ Forall succeeded tr
    /\ In (Prompt (yes_no_text (confirm_question (operation_of values)) false)
             (Some second)) tr.
Proof.
  intros Hc Hi Hg Hd Hrel Hin Hfirst Hsecond Hsome Hnames.
  set (operation := operation_of values).
  set (w1 := with_faults (tail (faults w)) w).
  assert (Hrel1 : reliable w1) by by apply reliable_tail.
  assert (Hget : spinner getAllTables "Loading database tables" w
                 = {| outcome := Ret (user_tables (db w)); final := w1;
                      trace := [Sql SelectTables None] |}).
  { unfold spinner. rewrite getAllTables_run.
    by destruct (reliable_head w Hrel) as [-> | ->]. }
  pose proof (user_tables_exist (db w)) as Hex.
  remember (user_tables (db w)) as allTables eqn:Hall.
  destruct allTables as [|a allTables]; [done|]. clear Hsome.
  (* the menu *)
  destruct (promptChoice_run "What would you like to do?"
              (menu operation (a :: allTables)) w1) as (trm & Hmenu & Hlogs).
  change (length (menu operation (a :: allTables))) with 3 in Hmenu.
  assert (Hnext1 : next_answer w1 = Some first).
  { unfold next_answer. change (stdin w1) with (stdin w). by rewrite Hin. }
  rewrite Hnext1, Hfirst in Hmenu. change (chosen 3 (Some 1%Z)) with 0%Z in Hmenu.
  set (w2 := with_stdin (tail (stdin w1)) w1) in Hmenu.
  assert (Hrel2 : reliable w2) by done.
  (* the statistics *)
  destruct (getTableStats_from_reliable [] (a :: allTables) w2 Hrel2 Hnames)
    as (w3 & Hstats & Hset3 & Hin3 & Hrel3).
  { intros t Ht. by apply Hex. }
  assert (Hdb3 : db w3 = db w) by (by inversion Hset3).
  set (stats := [] ++ map _ (a :: allTables)) in Hstats.
  destruct (printing_run succeeded anything
              (displayTableStats stats operation) w3)
    as ([] & Hdisp); [by apply displayTableStats_spec|].
  assert (Hokd : Forall succeeded
                   (trace (displayTableStats stats operation w3))).
  { apply (printing_trace succeeded anything). by apply displayTableStats_spec. }
  (* the confirmation *)
  assert (Hnext3 : next_answer w3 = Some second).
  { unfold next_answer. rewrite Hin3. change (stdin w2) with (tail (stdin w)).
    by rewrite Hin. }
  pose proof (promptYesNo_run (confirm_question operation) w3) as Hask.
  rewrite Hnext3 in Hask.
  apply accepts_affirmative in Hsecond. rewrite Hsecond in Hask.
  set (w4 := with_stdin (tail (stdin w3)) w3) in Hask.
  assert (Hrel4 : reliable w4) by done.
  (* the destructive phase *)
  destruct (performCleanup_run operation (a :: allTables) w4 Hrel4 Hnames)
    as (w5 & tr5 & Hrun & Hm5 & Hfk5 & _ & _ & Hok5 & _).
  { intros _ t Ht. change (db w4) with (db w3). rewrite Hdb3. by apply Hex. }
  change (db w4) with (db w3) in Hm5. rewrite Hdb3 in Hm5.
  destruct (performCleanup_asks_nothing operation (a :: allTables) w4)
    as (Hin5 & _). rewrite Hrun in Hin5. cbn [final] in Hin5.
  exists w5. eexists. split.
  { unfold cleanup. eapply bind_ret_eq; [apply opening_run|].
    eapply bind_ret_eq; [apply Hget|]. cbn [length Nat.eqb when_].
    rewrite ret_bind. cbv zeta. fold operation.
    eapply bind_ret_eq.
    { unfold selectTables. rewrite Hg, Hi, Hc. cbn [andb negb].
      eapply bind_ret_eq; [apply Hmenu|]. rewrite menu_branch. reflexivity. }
    cbn [length Nat.eqb when_]. rewrite ret_bind.
    eapply bind_ret_eq; [apply Hstats|].
    eapply bind_ret_eq; [apply Hdisp|].
    rewrite Hd. cbn [when_]. rewrite ret_bind.
    eapply bind_ret_eq; [|apply Hrun].
    unfold confirmOperation. rewrite Hc. cbn [negb when_].
    eapply bind_ret_eq; [apply displayWarning_run|].
    eapply bind_ret_eq; [apply Hask|]. reflexivity. }
  split; [done|]. split; [done|].
  split.
  { rewrite Hin5. change (stdin w4) with (tail (stdin w3)). rewrite Hin3.
    change (stdin w2) with (tail (stdin w)). by rewrite Hin. }
  split.
  { unfold opening. rewrite Hi, Hc. cbn [andb negb].
    rewrite !Forall_app.
    repeat split; try done; try (by repeat constructor).
    - by apply logs_succeeded.
    - clear. induction (a :: allTables); by constructor.
    - clear. destruct operation; by repeat constructor. }
  rewrite !in_app_iff. do 5 right. left. right. left. by left.
Qed.

Lemma same_database (d d' : Database) :
  master d = master d' -> foreign_keys d = foreign_keys d' -> d = d'.
Proof. destruct d, d'. simpl. by intros -> ->. Qed.

(** X17. Confirming by hand does what [--confirm] does. In interactive
    mode without [--tables], [--confirm] and [--dry-run], on a connection
    that fails no call and a database of independent user tables whose
    names hold no double quote, answering the menu with something read
    as 1 and the confirmation with y or yes (in any case) makes the run
    return normally after reading these two answers, with no failed
    statement; the database is then exactly as the same command with
    [--confirm] leaves it: every discovered table emptied (and the
    sequence table, if any, emptied) or dropped, every other table
    that is not one of SQLite's own as it was, enforcement on. *)
Theorem confirming_by_hand_does_what_confirm_does (values : Values)
  (w : World) (first second : string) (others : list (option string)) :
  confirm values = false -> interactive values = true ->
  given (tables values) = false -> dry_run values = false ->
  reliable w ->
  stdin w = Some first :: Some second :: others ->
  JS.parseInt (or_zero (Some first)) = Some 1%Z ->
  affirmative (Some second) ->
  user_tables (db w) <> [] ->
  quotable_names (user_tables (db w)) ->
  let r := entry values w in
  let confirmed := entry (with_confirm true values) w in
  outcome r = Ret tt
  /\ stdin (final r) = others
  /\ Forall succeeded (trace r)
  /\ In (Prompt (yes_no_text (confirm_question (operation_of values)) false)
           (Some second)) (trace r)
  /\ (forall t, t ∈ user_tables (db w) ->
        master (db (final r)) !! t
        = match operation_of values with
          | Delete => Some 0
          | Drop => None
          end)
  /\ (forall t, t ∉ user_tables (db w) -> like_sqlite t = false ->
        master (db (final r)) !! t = master (db w) !! t)
  /\ (operation_of values = Delete ->
      master (db (final r)) !! "sqlite_sequence"
      = (fun _ => 0) <$> master (db w) !! "sqlite_sequence")
  /\ foreign_keys (db (final r)) = true
  /\ db (final r) = db (final confirmed).
Proof.
  intros Hc Hi Hg Hd Hrel Hin Hfirst Hsecond Hsome Hnames. cbv zeta.
  rewrite (entry_cases values). cbv zeta.
  set (w0 := with_cleanupPromise true (with_isCleaningUp false w)).
  destruct (cleanup_by_hand values w0 first second others)
    as (w' & tr & -> & Hm & Hfk & Hin' & Hok & Hask); try done.
  change (db w0) with (db w) in Hm. cbn [outcome final trace].
  split; [done|]. split; [done|]. split; [done|]. split; [done|].
  assert (Hseq : "sqlite_sequence" ∉ user_tables (db w)).
  { intros Hs. by apply elem_of_user_tables in Hs as [_ Hu]. }
  cbn [db with_cleanupPromise].
  destruct (processed_tables _ _ _ _ Hseq Hm) as (Hsel' & Hother & Hreset).
  split; [done|]. split; [done|]. split; [done|]. split; [done|].
  assert (Hsel : selection (with_confirm true values) (db w)
                 = user_tables (db w)).
  { unfold selection. cbn [with_confirm tables].
    by destruct (tables values) as [[|c s]|]. }
  destruct (entry_confirmed (with_confirm true values) w) as (_ & _ & Hconf);
    [done| done | done | by rewrite Hsel |].
  cbv zeta in Hconf.
  rewrite Hsel in Hconf.
  destruct (user_tables (db w)) as [|a allTables] eqn:Hall; [done|].
  destruct Hconf as (_ & Hm2 & Hfk2 & _).
  change (operation_of (with_confirm true values))
    with (operation_of values) in Hm2.
  apply same_database; congruence.
Qed.

Lemma confirming_by_hand_does_what_confirm_does_witness :
  let values := flags false None false false in
  let w := world [("users", 10); ("sessions", 3)] [] [Some " 1"; Some "YES"] in
  let r := entry values w in
  let confirmed := entry (with_confirm true values) w in
  (confirm values = false /\ interactive values = true
   /\ given (tables values) = false /\ dry_run values = false
   /\ reliable w
   /\ stdin w = [Some " 1"; Some "YES"]
   /\ JS.parseInt (or_zero (Some " 1")) = Some 1%Z
   /\ affirmative (Some "YES")
   /\ user_tables (db w) <> []
   /\ quotable_names (user_tables (db w)))
  /\ outcome r = Ret tt
  /\ stdin (final r) = []
  /\ Forall succeeded (trace r)
  /\ In (Prompt (yes_no_text (confirm_question (operation_of values)) false)
           (Some "YES")) (trace r)
  /\ (forall t, t ∈ user_tables (db w) ->
        master (db (final r)) !! t
        = match operation_of values with
          | Delete => Some 0
          | Drop => None
          end)
  /\ (forall t, t ∉ user_tables (db w) -> like_sqlite t = false ->
        master (db (final r)) !! t = master (db w) !! t)
  /\ (operation_of values = Delete ->
      master (db (final r)) !! "sqlite_sequence"
      = (fun _ => 0) <$> master (db w) !! "sqlite_sequence")
  /\ foreign_keys (db (final r)) = true
  /\ db (final r) = db (final confirmed).
Proof.
  assert (Hrel : reliable (world [("users", 10); ("sessions", 3)] []
                             [Some " 1"; Some "YES"]))
    by constructor.
  assert (Hyes : affirmative (Some "YES")).
  { exists "YES". split; [done|]. unfold affirmative_answers.
    repeat first [by left | right]. }
  assert (Hsome : user_tables (db (world [("users", 10); ("sessions", 3)] []
                                     [Some " 1"; Some "YES"])) <> [])
    by (by vm_compute).
  assert (Hnames : quotable_names
                     (user_tables (db (world [("users", 10); ("sessions", 3)]
                                         [] [Some " 1"; Some "YES"]))))
    by (vm_compute; repeat constructor).
  cbv zeta. split; [by repeat split|].
  exact (confirming_by_hand_does_what_confirm_does
           (flags false None false false)
           (world [("users", 10); ("sessions", 3)] [] [Some " 1"; Some "YES"])
           " 1" "YES" [] eq_refl eq_refl eq_refl eq_refl Hrel eq_refl eq_refl
           Hyes Hsome Hnames).
Defined.
